(** * vDNN++ neural-network executor: memory planner and schedule

    A shallow embedding of the planner and executor of
    [src/vdnn_ext_cmp/src/neural_net.cu]: the offload policy ([setOffload]),
    the prefetch decision ([findPrefetchLayer]), the planning policy
    ([vDNNOptimize]), the analytic and replayed memory simulations, the
    forward/backward schedule of [getLoss], the locked suballocator and the
    loss / accuracy kernels. *)

From Stdlib Require Import ZArith Lia Bool List.
From stdpp Require Import base list.
Import ListNotations.

Open Scope nat_scope.

(** ** Data model *)

(** The layer kinds of [layer_type] (the enum is declared in the header). *)
Inductive LayerOp : Set :=
  | CONV | FULLY_CONNECTED | DROPOUT | BATCHNORM | POOLING | ACTV | SOFTMAX.

#[global] Instance LayerOp_eq_dec : EqDecision LayerOp.
Proof. solve_decision. Defined.

(** [NeuralNet::OffloadType]. *)
Inductive OffloadType : Set := OFFLOAD_ALL | OFFLOAD_NONE | OFFLOAD_CONV.

(** The test [layer_type[i] == SOFTMAX or layer_type[i] == ACTV]. *)
Definition is_actv_or_softmax (t : LayerOp) : bool :=
  match t with ACTV | SOFTMAX => true | _ => false end.

Definition is_conv (t : LayerOp) : bool :=
  match t with CONV => true | _ => false end.

(** ** setOffload *)

(** [for (int i = 0; i < num_layers; i++) to_offload[i] = mark(layer_type[i])],
    run from index [i] for [n] iterations. *)
Fixpoint mark_loop (mark : LayerOp -> bool) (layer_type : list LayerOp)
    (n i : nat) (to_offload : list bool) : list bool :=
  match n with
  | 0 => to_offload
  | S n' =>
      match layer_type !! i with
      | Some t => mark_loop mark layer_type n' (S i) (<[i := mark t]> to_offload)
      | None => to_offload
      end
  end.

(** [for (int i = num_layers - 1; i >= 0; i--)]: skip SOFTMAX/ACTV layers,
    clear the flag of the first other layer met and [break].  The argument
    [k] is [i + 1]. *)
Fixpoint clear_last (layer_type : list LayerOp) (k : nat)
    (to_offload : list bool) : list bool :=
  match k with
  | 0 => to_offload
  | S i =>
      match layer_type !! i with
      | Some t =>
          if is_actv_or_softmax t then clear_last layer_type i to_offload
          else <[i := false]> to_offload
      | None => to_offload
      end
  end.

Definition setOffload (layer_type : list LayerOp) (offload_type : OffloadType)
    (to_offload : list bool) : list bool :=
  let num_layers := length layer_type in
  match offload_type with
  | OFFLOAD_NONE => mark_loop (fun _ => false) layer_type num_layers 0 to_offload
  | OFFLOAD_CONV =>
      clear_last layer_type num_layers
        (mark_loop is_conv layer_type num_layers 0 to_offload)
  | OFFLOAD_ALL =>
      clear_last layer_type num_layers
        (mark_loop (fun t => negb (is_actv_or_softmax t)) layer_type
           num_layers 0 to_offload)
  end.

(** [resetPrefetched]: [for (i = 0; i < num_layers; i++) prefetched[i] = false]. *)
Definition resetPrefetched (layer_type : list LayerOp) (prefetched : list bool)
    : list bool :=
  mark_loop (fun _ => false) layer_type (length layer_type) 0 prefetched.

(** ** findPrefetchLayer *)

(** [for (int i = cur_layer - 1; i >= 0; i--)]; the argument [k] is [i + 1].
    Returns the updated [prefetched] array and the chosen layer, [None]
    standing for the C++ result [-1]. *)
Fixpoint findPrefetchLayer (layer_type : list LayerOp) (to_offload : list bool)
    (prefetched : list bool) (k : nat) : list bool * option nat :=
  match k with
  | 0 => (prefetched, None)
  | S i =>
      if (to_offload !!! i) && negb (prefetched !!! i)
      then (<[i := true]> prefetched, Some i)
      else if bool_decide (layer_type !! i = Some CONV)
      then (prefetched, None)
      else findPrefetchLayer layer_type to_offload prefetched i
  end.

(** Spec side of the offload policy: some layer after [i] is neither
    Activation nor Softmax, that is, [i] is not the last such layer. *)
Definition has_later_plain (layer_type : list LayerOp) (i : nat) : bool :=
  existsb (fun t => negb (is_actv_or_softmax t)) (drop (S i) layer_type).

(** The flag the spec's table gives layer [i] of kind [t] under a policy. *)
Definition offload_policy_flag (layer_type : list LayerOp)
    (offload_type : OffloadType) (i : nat) (t : LayerOp) : bool :=
  match offload_type with
  | OFFLOAD_NONE => false
  | OFFLOAD_CONV => is_conv t && has_later_plain layer_type i
  | OFFLOAD_ALL => negb (is_actv_or_softmax t) && has_later_plain layer_type i
  end.

(** Layers [j] with [i < j < k] are all Activation or Softmax. *)
Definition fused_between (layer_type : list LayerOp) (i k : nat) : Prop :=
  forall j u, i < j < k -> layer_type !! j = Some u -> is_actv_or_softmax u = true.

(** Layer [j] is marked for offload and not yet prefetched. *)
Definition awaiting_prefetch (to_offload prefetched : list bool) (j : nat)
    : bool :=
  (to_offload !!! j) && negb (prefetched !!! j).

(** ** vDNNOptimize: the planning policy *)

Inductive vDNNType : Set := vDNN_NONE | vDNN_CONV | vDNN_ALL | vDNN_DYN.
Inductive vDNNConvAlgo : Set := vDNN_PERFORMANCE_OPTIMAL | vDNN_MEMORY_OPTIMAL.
Inductive vDNNConvAlgoPref : Set :=
  PREFER_PERFORMANCE_OPTIMAL | PREFER_MEMORY_OPTIMAL.

(** One call [setOffload(o); resetPrefetched(); simulateNeuralNetworkMemory(p, h, ..)]. *)
Record Candidate : Set := mkCandidate {
  cand_offload : OffloadType;
  cand_pref : vDNNConvAlgoPref;
  cand_hard : bool
}.

(** The planner's part of the [NeuralNet] object, with a log of the
    simulations run so far (most recent last). *)
Record PlanState : Type := mkPlanState {
  to_offload : list bool;
  prefetched : list bool;
  exp_max_consume : Z;
  max_consume : Z;
  tried : list Candidate
}.

(** How [vDNNOptimize] ends. *)
Inductive PlanOutcome : Set :=
  | PlanReturned     (* [return]: the plan left in the object is used *)
  | PlanOutOfMemory  (* [outOfMemory()] *)
  | PlanExit.        (* the final [exit(0)] *)

(** What one simulation reports: the verdict; [exp_max_consume], written
    only by a run that reaches the allocator replay; [max_consume], reset to
    0 on entry and so always written; and the [prefetched] array after the
    run. *)
Definition SimReport : Type := (bool * (option Z * Z) * list bool)%type.

(** The simulation as the planner sees it: a function of the offload flags,
    the prefetched flags, the algorithm preference and the discipline (the
    other inputs, such as [free_bytes] and the layer sizes, are fixed while
    the planner runs). *)
Definition Simulator : Type :=
  list bool -> list bool -> vDNNConvAlgoPref -> bool -> SimReport.

Section Planner.
Variable layer_type : list LayerOp.
Variable simulate : Simulator.

(** [setOffload(o); resetPrefetched(); simulateNeuralNetworkMemory(p, h,
    exp_max_consume, max_consume)], returning the verdict. *)
Definition simulate_candidate (c : Candidate) (st : PlanState)
    : bool * PlanState :=
  let to' := setOffload layer_type (cand_offload c) (to_offload st) in
  let pf' := resetPrefetched layer_type (prefetched st) in
  let '(ok, (e, m), pf'') :=
    simulate to' pf' (cand_pref c) (cand_hard c) in
  (ok, mkPlanState to' pf'' (default (exp_max_consume st) e) m
         (tried st ++ [c])).

(** Modelled from the spec: [outOfMemory()], defined outside src/; the
    spec has "Fails with OutOfMemory", so the call ends the planner. *)
Definition outOfMemory (st : PlanState) : PlanOutcome * PlanState :=
  (PlanOutOfMemory, st).

(** The three fixed policies share one shape:
    [setOffload; resetPrefetched; if (!simulate(..)) outOfMemory(); return]. *)
Definition fixed_policy (o : OffloadType) (vdnn_conv_algo : vDNNConvAlgo)
    (st : PlanState) : PlanOutcome * PlanState :=
  match vdnn_conv_algo with
  | vDNN_PERFORMANCE_OPTIMAL =>
      let '(ok, st1) :=
        simulate_candidate (mkCandidate o PREFER_PERFORMANCE_OPTIMAL true) st in
      if ok then (PlanReturned, st1) else outOfMemory st1
  | vDNN_MEMORY_OPTIMAL =>
      let '(ok, st1) :=
        simulate_candidate (mkCandidate o PREFER_MEMORY_OPTIMAL true) st in
      if ok then (PlanReturned, st1) else outOfMemory st1
  end.

Definition vDNNOptimize (vdnn_type : vDNNType) (vdnn_conv_algo : vDNNConvAlgo)
    (st : PlanState) : PlanOutcome * PlanState :=
  let hard := true in
  let soft := false in
  match vdnn_type with
  | vDNN_ALL => fixed_policy OFFLOAD_ALL vdnn_conv_algo st
  | vDNN_CONV => fixed_policy OFFLOAD_CONV vdnn_conv_algo st
  | vDNN_NONE => fixed_policy OFFLOAD_NONE vdnn_conv_algo st
  | vDNN_DYN =>
      (* check for trainability *)
      let '(ok, st1) :=
        simulate_candidate (mkCandidate OFFLOAD_ALL PREFER_MEMORY_OPTIMAL hard) st in
      if negb ok then outOfMemory st1 else
      let '(ok, st2) :=
        simulate_candidate (mkCandidate OFFLOAD_NONE PREFER_PERFORMANCE_OPTIMAL hard) st1 in
      if ok then (PlanReturned, st2) else
      let '(ok, st3) :=
        simulate_candidate (mkCandidate OFFLOAD_CONV PREFER_PERFORMANCE_OPTIMAL hard) st2 in
      if ok then (PlanReturned, st3) else
      let '(ok, st4) :=
        simulate_candidate (mkCandidate OFFLOAD_ALL PREFER_PERFORMANCE_OPTIMAL hard) st3 in
      if ok then (PlanReturned, st4) else
      let '(ok, st5) :=
        simulate_candidate (mkCandidate OFFLOAD_CONV PREFER_PERFORMANCE_OPTIMAL soft) st4 in
      if ok then (PlanReturned, st5) else
      let '(ok, st6) :=
        simulate_candidate (mkCandidate OFFLOAD_ALL PREFER_PERFORMANCE_OPTIMAL soft) st5 in
      if ok then (PlanReturned, st6) else
      let '(ok, st7) :=
        simulate_candidate (mkCandidate OFFLOAD_CONV PREFER_MEMORY_OPTIMAL hard) st6 in
      if ok then (PlanReturned, st7) else
      let '(ok, st8) :=
        simulate_candidate (mkCandidate OFFLOAD_ALL PREFER_MEMORY_OPTIMAL hard) st7 in
      if ok then (PlanReturned, st8) else
      (PlanExit, st8)
  end.

(** The offload flags a policy gives the network, whatever the array held
    before. *)
Definition policy_flags (o : OffloadType) : list bool :=
  imap (fun i t => offload_policy_flag layer_type o i t) layer_type.

(** Whether the simulation confirms a candidate: the verdict on the
    candidate's flags with no layer prefetched. *)
Definition confirms (c : Candidate) : bool :=
  fst (fst (simulate (policy_flags (cand_offload c))
              (replicate (length layer_type) false)
              (cand_pref c) (cand_hard c))).
End Planner.

(** The spec's priority table, rows 1 to 8; row 1 is the trainability
    check, whose algorithm preference the planner fixes to memory-optimal. *)
Definition priority_table : list Candidate :=
  [ mkCandidate OFFLOAD_ALL  PREFER_MEMORY_OPTIMAL      true;
    mkCandidate OFFLOAD_NONE PREFER_PERFORMANCE_OPTIMAL true;
    mkCandidate OFFLOAD_CONV PREFER_PERFORMANCE_OPTIMAL true;
    mkCandidate OFFLOAD_ALL  PREFER_PERFORMANCE_OPTIMAL true;
    mkCandidate OFFLOAD_CONV PREFER_PERFORMANCE_OPTIMAL false;
    mkCandidate OFFLOAD_ALL  PREFER_PERFORMANCE_OPTIMAL false;
    mkCandidate OFFLOAD_CONV PREFER_MEMORY_OPTIMAL      true;
    mkCandidate OFFLOAD_ALL  PREFER_MEMORY_OPTIMAL      true ].

(** The planner's arrays keep the length [num_layers]. *)
Definition plan_arrays_ok (layer_type : list LayerOp) (st : PlanState) : Prop :=
  length (to_offload st) = length layer_type /\
  length (prefetched st) = length layer_type.

(** Spec side of the planning policy: the index in [priority_table] of the
    row the planner stops at, given which rows the simulation confirms: row
    0 when the trainability check fails, otherwise the first confirmed row
    among those after it. *)
Fixpoint first_confirmed (ok : Candidate -> bool) (rows : list Candidate)
    (n : nat) : option nat :=
  match rows with
  | [] => None
  | c :: rows' => if ok c then Some n else first_confirmed ok rows' (S n)
  end.

Definition choose_plan (ok : Candidate -> bool) : PlanOutcome * nat :=
  match priority_table with
  | [] => (PlanExit, 0)
  | check :: rows =>
      if ok check then
        match first_confirmed ok rows 1 with
        | Some n => (PlanReturned, n)
        | None => (PlanOutOfMemory, length rows)
        end
      else (PlanOutOfMemory, 0)
  end.

(** ** The network object *)

(** [params[i]], cast by [layer_type[i]]; only the fields the schedule reads
    are kept.  Sizes are in elements, as in the source, and are multiplied
    by [data_type_size] where the source does so; workspace sizes are in
    bytes.  Machine integers are modelled by [Z] without wrap-around. *)
Inductive LayerParams : Set :=
  | ConvLayerParams (fwd_workspace_size bwd_filter_workspace_size
                     bwd_data_workspace_size kernel_size C_out : Z)
  | FCLayerParams (weight_matrix_size C_out : Z)
  | DropoutLayerParams
  | BatchNormLayerParams (allocation_size : Z)
  | PoolingLayerParams
  | ActivationLayerParams
  | SoftmaxLayerParams.

Definition params_type (p : LayerParams) : LayerOp :=
  match p with
  | ConvLayerParams _ _ _ _ _ => CONV
  | FCLayerParams _ _ => FULLY_CONNECTED
  | DropoutLayerParams => DROPOUT
  | BatchNormLayerParams _ => BATCHNORM
  | PoolingLayerParams => POOLING
  | ActivationLayerParams => ACTV
  | SoftmaxLayerParams => SOFTMAX
  end.

(** The members of [NeuralNet] that are fixed once the constructor has
    filled them. [layer_input_size] has [num_layers + 1] entries. *)
Record NeuralNet : Set := mkNeuralNet {
  params : list LayerParams;
  layer_input_size : list Z;
  data_type_size : Z;
  batch_size : Z;
  num_classes : Z;
  pre_alloc_conv_derivative : bool;
  pre_alloc_fc_derivative : bool;
  pre_alloc_batch_norm_derivative : bool
}.

Definition layer_types (net : NeuralNet) : list LayerOp :=
  map params_type (params net).

Definition num_layers (net : NeuralNet) : nat := length (params net).

(** [layer_input_size[i] * data_type_size]. *)
Definition input_bytes (net : NeuralNet) (i : nat) : Z :=
  (layer_input_size net !!! i) * data_type_size net.

(** [layer_type[i] == t]; an index past the end (the source reads
    [layer_type[i + 1]] at the last layer) matches no kind. *)
Definition type_is (net : NeuralNet) (i : nat) (t : LayerOp) : bool :=
  bool_decide (layer_types net !! i = Some t).

(** ** The device pool *)

(** Modelled from the spec: the suballocator's pool (the cnmem library,
    outside src/), by byte accounting only: blocks are handles that are never
    reused, a request succeeds when it fits the pool's total, a pool that may
    grow adds the requested size to its total, and a handle that is not live
    cannot be freed. *)
Definition ptr : Set := nat.

Inductive cnmemStatus_t : Set :=
  | CNMEM_STATUS_SUCCESS
  | CNMEM_STATUS_CUDA_ERROR
  | CNMEM_STATUS_INVALID_ARGUMENT
  | CNMEM_STATUS_NOT_INITIALIZED
  | CNMEM_STATUS_OUT_OF_MEMORY
  | CNMEM_STATUS_UNKNOWN_ERROR.

#[global] Instance cnmemStatus_eq_dec : EqDecision cnmemStatus_t.
Proof. solve_decision. Defined.

Record Pool : Set := mkPool {
  pool_blocks : list (ptr * Z);
  pool_next : ptr;
  pool_total : Z;
  pool_can_grow : bool
}.

Definition blocks_bytes (blocks : list (ptr * Z)) : Z :=
  fold_right (fun b acc => (snd b + acc)%Z) 0%Z blocks.

Definition pool_used (p : Pool) : Z := blocks_bytes (pool_blocks p).

(** [cnmemInit(1, &device, flags)] with [device.size = size]. *)
Definition cnmemInit (size : Z) (can_grow : bool) (next : ptr) : Pool :=
  mkPool [] next size can_grow.

Definition cnmemMalloc (size : Z) (p : Pool) : cnmemStatus_t * option ptr * Pool :=
  if (size <? 0)%Z then (CNMEM_STATUS_OUT_OF_MEMORY, None, p)
  else if (pool_used p + size <=? pool_total p)%Z then
    (CNMEM_STATUS_SUCCESS, Some (pool_next p),
     mkPool ((pool_next p, size) :: pool_blocks p) (S (pool_next p))
       (pool_total p) (pool_can_grow p))
  else if pool_can_grow p then
    (CNMEM_STATUS_SUCCESS, Some (pool_next p),
     mkPool ((pool_next p, size) :: pool_blocks p) (S (pool_next p))
       (pool_total p + size) (pool_can_grow p))
  else (CNMEM_STATUS_OUT_OF_MEMORY, None, p).

Fixpoint remove_block (q : ptr) (blocks : list (ptr * Z))
    : option (Z * list (ptr * Z)) :=
  match blocks with
  | [] => None
  | b :: rest =>
      if Nat.eqb (fst b) q then Some (snd b, rest)
      else match remove_block q rest with
           | Some (size, rest') => Some (size, b :: rest')
           | None => None
           end
  end.

(** [cnmemFree(p, NULL)]; the freed size is returned for the log.  A table
    entry that was never assigned ([None]) is not a block. *)
Definition cnmemFree (q : option ptr) (p : Pool) : cnmemStatus_t * Z * Pool :=
  match q with
  | None => (CNMEM_STATUS_INVALID_ARGUMENT, 0%Z, p)
  | Some q =>
      match remove_block q (pool_blocks p) with
      | Some (size, rest) =>
          (CNMEM_STATUS_SUCCESS, size,
           mkPool rest (pool_next p) (pool_total p) (pool_can_grow p))
      | None => (CNMEM_STATUS_INVALID_ARGUMENT, 0%Z, p)
      end
  end.

(** [cnmemMemGetInfo(&free, &total, NULL)]. *)
Definition cnmemMemGetInfo (p : Pool) : Z * Z :=
  ((pool_total p - pool_used p)%Z, pool_total p).

(** ** The executor's machine *)

Inductive Buffer : Set :=
  | BufInput (i : nat)       (* layer_input[i] *)
  | BufGrad (i : nat)        (* dlayer_input[i] *)
  | BufWorkspace (i : nat)   (* cur_workspace of layer i *)
  | BufDerivW (i : nat)      (* dW of layer i *)
  | BufDerivB (i : nat).     (* db of layer i *)

(** What one step leaves in the log. *)
Inductive Event : Set :=
  | EvMalloc (b : Buffer) (p : ptr) (bytes : Z)
  | EvFree (p : ptr) (bytes : Z)
  | EvOffload (i : nat)        (* device-to-host copy of layer_input[i] *)
  | EvFreeWorker (i : nat)     (* thread running threadFreeLayerInputFunction *)
  | EvWaitOffload (i : nat)    (* sem_wait(&sem_sync_offload[i]) *)
  | EvPrefetch (j : nat)       (* host-to-device copy, event, flag thread *)
  | EvWaitPrefetch (i : nat)   (* sem_wait(&sem_prefetch_done[i]) *)
  | EvForward (i : nat)
  | EvSoftmaxForward (i : nat)
  | EvLoss
  | EvBackward (i : nat) (grad_i grad_next : option ptr)
  | EvCompare (o : option ptr).

(** The mutable members of [NeuralNet] that the schedule touches, the pool,
    the [space_tracker] of [getLoss] (as consumed bytes) and the log, most
    recent event first. *)
Record Machine : Set := mkMachine {
  m_layer_input : list (option ptr);
  m_dlayer_input : list (option ptr);
  m_dW : list (option ptr);
  m_db : list (option ptr);
  m_prefetched : list bool;
  m_sem_sync_offload : list nat;
  m_sem_prefetch_done : list nat;
  m_pool : Pool;
  m_tracker : Z;
  m_log : list Event
}.

(** Why a step stops early: a failed check ([checkCNMEM] and the like), an
    [exit(0)] after a "Panic!!" message, a wait that nothing will end, a
    retry loop that never waits, a failed [checkCNMEMRet] (the enclosing
    function returns [false]). *)
Inductive Halt : Set := Fatal | Panic | Blocked | Spinning | Refused.

Inductive Step (A : Type) : Type :=
  | Ok (a : A)
  | Stop (h : Halt).
Arguments Ok {A} a.
Arguments Stop {A} h.

Definition Exec (A : Type) : Type := Machine -> Step A * Machine.

Definition ret {A} (a : A) : Exec A := fun m => (Ok a, m).

Definition bind {A B} (e : Exec A) (k : A -> Exec B) : Exec B :=
  fun m =>
    match e m with
    | (Ok a, m') => k a m'
    | (Stop h, m') => (Stop h, m')
    end.

Definition halt {A} (h : Halt) : Exec A := fun m => (Stop h, m).

Declare Scope exec_scope.
Delimit Scope exec_scope with exec.
Notation "x <- e ;; k" := (bind e (fun x => k))
  (at level 100, e at next level, right associativity) : exec_scope.
Notation "e ;;; k" := (bind e (fun _ => k))
  (at level 100, right associativity) : exec_scope.
Open Scope exec_scope.

Definition when (b : bool) (e : Exec unit) : Exec unit :=
  if b then e else ret tt.

Definition get : Exec Machine := fun m => (Ok m, m).

Definition emit (ev : Event) : Exec unit := fun m =>
  (Ok tt, mkMachine (m_layer_input m) (m_dlayer_input m) (m_dW m) (m_db m)
            (m_prefetched m) (m_sem_sync_offload m) (m_sem_prefetch_done m)
            (m_pool m) (m_tracker m) (ev :: m_log m)).

Definition set_pool (p : Pool) : Exec unit := fun m =>
  (Ok tt, mkMachine (m_layer_input m) (m_dlayer_input m) (m_dW m) (m_db m)
            (m_prefetched m) (m_sem_sync_offload m) (m_sem_prefetch_done m)
            p (m_tracker m) (m_log m)).

(** The pointer cells a malloc can write to. *)
Definition store (b : Buffer) (v : option ptr) : Exec unit := fun m =>
  (Ok tt,
   match b with
   | BufInput i =>
       mkMachine (<[i := v]> (m_layer_input m)) (m_dlayer_input m) (m_dW m)
         (m_db m) (m_prefetched m) (m_sem_sync_offload m)
         (m_sem_prefetch_done m) (m_pool m) (m_tracker m) (m_log m)
   | BufGrad i =>
       mkMachine (m_layer_input m) (<[i := v]> (m_dlayer_input m)) (m_dW m)
         (m_db m) (m_prefetched m) (m_sem_sync_offload m)
         (m_sem_prefetch_done m) (m_pool m) (m_tracker m) (m_log m)
   | BufDerivW i =>
       mkMachine (m_layer_input m) (m_dlayer_input m) (<[i := v]> (m_dW m))
         (m_db m) (m_prefetched m) (m_sem_sync_offload m)
         (m_sem_prefetch_done m) (m_pool m) (m_tracker m) (m_log m)
   | BufDerivB i =>
       mkMachine (m_layer_input m) (m_dlayer_input m) (m_dW m)
         (<[i := v]> (m_db m)) (m_prefetched m) (m_sem_sync_offload m)
         (m_sem_prefetch_done m) (m_pool m) (m_tracker m) (m_log m)
   | BufWorkspace _ => m
   end).

Definition set_prefetched (pf : list bool) : Exec unit := fun m =>
  (Ok tt, mkMachine (m_layer_input m) (m_dlayer_input m) (m_dW m) (m_db m)
            pf (m_sem_sync_offload m) (m_sem_prefetch_done m)
            (m_pool m) (m_tracker m) (m_log m)).

Definition set_sems (so sp : list nat) : Exec unit := fun m =>
  (Ok tt, mkMachine (m_layer_input m) (m_dlayer_input m) (m_dW m) (m_db m)
            (m_prefetched m) so sp (m_pool m) (m_tracker m) (m_log m)).

(** Modelled from the spec: [CnmemSpace::updateSpace] (declared outside
    src/), which tracks consumed bytes: [SUB] takes [size] from the free
    bytes, [ADD] gives it back. *)
Inductive CnmemSpaceOp : Set := ADD | SUB.

Definition space_update (op : CnmemSpaceOp) (size consumed : Z) : Z :=
  match op with
  | SUB => (consumed + size)%Z
  | ADD => (consumed - size)%Z
  end.

Definition updateSpace (op : CnmemSpaceOp) (size : Z) : Exec unit := fun m =>
  (Ok tt, mkMachine (m_layer_input m) (m_dlayer_input m) (m_dW m) (m_db m)
            (m_prefetched m) (m_sem_sync_offload m) (m_sem_prefetch_done m)
            (m_pool m) (space_update op size (m_tracker m)) (m_log m)).

(** ** Allocation through the pool *)

(** [checkCNMEM(cnmemMalloc(&cell, size, NULL))]: any status but success is
    fatal. *)
Definition checked_malloc (b : Buffer) (size : Z) : Exec (option ptr) :=
  m <- get;;
  match cnmemMalloc size (m_pool m) with
  | (CNMEM_STATUS_SUCCESS, Some q, pool') =>
      set_pool pool';;; store b (Some q);;; emit (EvMalloc b q size);;;
      ret (Some q)
  | _ => halt Fatal
  end.

(** [lockedcnmemMalloc] as the step's own thread sees it, every worker
    created so far having run to its end: success returns, out-of-memory
    waits for a free that no thread is left to make, any other status
    retries at once. *)
Definition lockedcnmemMalloc (b : Buffer) (size : Z) : Exec (option ptr) :=
  m <- get;;
  match cnmemMalloc size (m_pool m) with
  | (CNMEM_STATUS_SUCCESS, Some q, pool') =>
      set_pool pool';;; store b (Some q);;; emit (EvMalloc b q size);;;
      ret (Some q)
  | (CNMEM_STATUS_OUT_OF_MEMORY, _, _) => halt Blocked
  | _ => halt Spinning
  end.

(** [checkCNMEM(cnmemFree(p, NULL))]; [lockedcnmemFree] is this under the
    mutex, followed by the broadcast. *)
Definition checked_free (q : option ptr) : Exec unit :=
  m <- get;;
  match cnmemFree q (m_pool m) with
  | (CNMEM_STATUS_SUCCESS, size, pool') =>
      set_pool pool';;; emit (EvFree (default 0 q) size)
  | _ => halt Fatal
  end.

Definition lockedcnmemFree (q : option ptr) : Exec unit := checked_free q.

(** [sem_post] and [sem_wait] on entry [i] of a semaphore array. *)
Definition sem_post (i : nat) (sems : list nat) : list nat :=
  <[i := S (sems !!! i)]> sems.

Definition sem_wait_offload (i : nat) : Exec unit :=
  m <- get;;
  match m_sem_sync_offload m !!! i with
  | 0 => halt Blocked
  | S n =>
      set_sems (<[i := n]> (m_sem_sync_offload m)) (m_sem_prefetch_done m);;;
      emit (EvWaitOffload i)
  end.

Definition sem_wait_prefetch (i : nat) : Exec unit :=
  m <- get;;
  match m_sem_prefetch_done m !!! i with
  | 0 => halt Blocked
  | S n =>
      set_sems (m_sem_sync_offload m) (<[i := n]> (m_sem_prefetch_done m));;;
      emit (EvWaitPrefetch i)
  end.

(** [threadFreeLayerInputFunction(layer_num)], run when the thread is
    created: the offload event has completed, the input is freed, the
    semaphore posted. *)
Definition threadFreeLayerInputFunction (layer_num : nat) : Exec unit :=
  emit (EvFreeWorker layer_num);;;
  m <- get;;
  lockedcnmemFree (m_layer_input m !!! layer_num);;;
  m <- get;;
  set_sems (sem_post layer_num (m_sem_sync_offload m)) (m_sem_prefetch_done m).

(** The prefetch copy, its event and [threadFlagPrefetchDone]. *)
Definition issue_prefetch (j : nat) : Exec unit :=
  emit (EvPrefetch j);;;
  m <- get;;
  set_sems (m_sem_sync_offload m) (sem_post j (m_sem_prefetch_done m)).

(** Modelled from the spec: [cnmemAllocDerivatives] and
    [cnmemFreeDerivatives] of the layer parameters (defined outside src/):
    the weight and bias derivatives are two pool blocks of the sizes the
    executor's [space_tracker] accounts for them. *)
Definition cnmemAllocDerivatives (i : nat) (w_bytes b_bytes : Z) : Exec unit :=
  checked_malloc (BufDerivW i) w_bytes;;;
  checked_malloc (BufDerivB i) b_bytes;;;
  ret tt.

Definition cnmemFreeDerivatives (i : nat) : Exec unit :=
  m <- get;;
  checked_free (m_dW m !!! i);;;
  checked_free (m_db m !!! i).

(** ** getLoss: one step of the executor *)

Section GetLoss.
Variable net : NeuralNet.
Variable to_offload : list bool.
Variable train : bool.

(** The layer's branch of the forward [if] chain; returns [cur_workspace]
    and [cur_workspace_size]. *)
Definition forward_compute (i : nat) : Exec (option ptr * Z) :=
  match params net !! i with
  | Some (ConvLayerParams fwd_workspace_size _ _ _ _) =>
      ws <- lockedcnmemMalloc (BufWorkspace i) fwd_workspace_size;;
      emit (EvForward i);;;
      updateSpace SUB fwd_workspace_size;;;
      ret (ws, fwd_workspace_size)
  | Some ActivationLayerParams => halt Panic
  | Some SoftmaxLayerParams => halt Panic
  | _ => emit (EvForward i);;; ret (None, 0%Z)
  end.

(** One iteration of the forward loop at index [i]; returns the value of
    [i] at the end of the body. *)
Definition forward_layer (i : nat) : Exec nat :=
  when (bool_decide (0 < i) && (to_offload !!! i) && train)
    (emit (EvOffload i));;;
  lockedcnmemMalloc (BufInput (S i)) (input_bytes net (S i));;;
  updateSpace SUB (input_bytes net (S i));;;
  ws <- forward_compute i;;
  when (type_is net (S i) SOFTMAX)
    (when train
       (m <- get;;
        store (BufInput (S (S i))) (m_layer_input m !!! S i);;;
        emit (EvSoftmaxForward (S i))));;;
  when (train && (to_offload !!! i)) (threadFreeLayerInputFunction i);;;
  when (type_is net i CONV)
    (lockedcnmemFree (fst ws);;; updateSpace ADD (snd ws));;;
  when (negb train)
    (m <- get;;
     lockedcnmemFree (m_layer_input m !!! i);;;
     updateSpace ADD (input_bytes net i));;;
  ret (if type_is net (S i) ACTV || type_is net (S i) SOFTMAX
       then S i else i).

(** [for (int i = 0; i < num_layers; i++)], with the [break] of the
    inference path; [fuel] bounds the iterations left. *)
Fixpoint forward_loop (fuel i : nat) : Exec unit :=
  match fuel with
  | 0 => ret tt
  | S fuel' =>
      if negb (i <? num_layers net) then ret tt
      else if negb train && (i =? num_layers net - 1) then ret tt
      else i' <- forward_layer i;; forward_loop fuel' (S i')
  end.

(** [for (i = 0; i < num_layers; i++) if (to_offload[i]) sem_wait(..)]. *)
Fixpoint wait_offloads (n i : nat) : Exec unit :=
  match n with
  | 0 => ret tt
  | S n' =>
      when (to_offload !!! i) (sem_wait_offload i);;;
      wait_offloads n' (S i)
  end.

(** [cnmemFree(layer_input[i + 1]); cnmemFree(dlayer_input[i + 1]);
    if (i == 0) cnmemFree(layer_input[i])], with the tracker updates. *)
Definition release_layer (i : nat) : Exec unit :=
  m <- get;;
  checked_free (m_layer_input m !!! S i);;;
  updateSpace ADD (input_bytes net (S i));;;
  checked_free (m_dlayer_input m !!! S i);;;
  updateSpace ADD (input_bytes net (S i));;;
  when (i =? 0)
    (checked_free (m_layer_input m !!! i);;;
     updateSpace ADD (input_bytes net i)).

(** The gradient cell of layer [i > 0]: an alias for Activation and
    Softmax layers, otherwise the prefetch decision and a fresh block. *)
Definition backward_grad (i : nat) : Exec unit :=
  if type_is net i ACTV || type_is net i SOFTMAX then
    m <- get;;
    store (BufGrad i) (m_dlayer_input m !!! S i)
  else
    m <- get;;
    let '(pf, layer_to_prefetch) :=
      findPrefetchLayer (layer_types net) to_offload (m_prefetched m) i in
    set_prefetched pf;;;
    match layer_to_prefetch with
    | Some j =>
        checked_malloc (BufInput j) (input_bytes net j);;;
        updateSpace SUB (input_bytes net j);;;
        issue_prefetch j
    | None => ret tt
    end;;;
    checked_malloc (BufGrad i) (input_bytes net i);;;
    updateSpace SUB (input_bytes net i).

Definition emit_backward (i : nat) : Exec unit :=
  m <- get;;
  emit (EvBackward i (m_dlayer_input m !!! i) (m_dlayer_input m !!! S i)).

(** One iteration of the backward loop. *)
Definition backward_layer (i : nat) : Exec unit :=
  when (to_offload !!! i) (sem_wait_prefetch i);;;
  when (bool_decide (0 < i)) (backward_grad i);;;
  match params net !! i with
  | Some (ConvLayerParams _ bwd_filter_workspace_size
            bwd_data_workspace_size kernel_size C_out) =>
      when (negb (pre_alloc_conv_derivative net))
        (cnmemAllocDerivatives i (kernel_size * data_type_size net)
           (C_out * data_type_size net);;;
         updateSpace SUB (kernel_size * data_type_size net);;;
         updateSpace SUB (C_out * data_type_size net));;;
      let cur_filter_workspace_size := bwd_filter_workspace_size in
      let cur_data_workspace_size :=
        if bool_decide (0 < i) then bwd_data_workspace_size else 0%Z in
      let cur_workspace_size :=
        if (cur_filter_workspace_size >? cur_data_workspace_size)%Z
        then cur_filter_workspace_size else cur_data_workspace_size in
      cur_workspace <- checked_malloc (BufWorkspace i) cur_workspace_size;;
      emit_backward i;;;
      updateSpace SUB cur_workspace_size;;;
      checked_free cur_workspace;;;
      updateSpace ADD cur_workspace_size;;;
      when (negb (pre_alloc_conv_derivative net))
        (cnmemFreeDerivatives i;;;
         updateSpace ADD (kernel_size * data_type_size net);;;
         updateSpace ADD (C_out * data_type_size net));;;
      release_layer i
  | Some (FCLayerParams weight_matrix_size C_out) =>
      when (negb (pre_alloc_fc_derivative net))
        (cnmemAllocDerivatives i (weight_matrix_size * data_type_size net)
           (C_out * data_type_size net);;;
         updateSpace SUB (weight_matrix_size * data_type_size net);;;
         updateSpace SUB (C_out * data_type_size net));;;
      emit_backward i;;;
      when (negb (pre_alloc_fc_derivative net))
        (cnmemFreeDerivatives i;;;
         updateSpace ADD (weight_matrix_size * data_type_size net);;;
         updateSpace ADD (C_out * data_type_size net));;;
      release_layer i
  | Some (BatchNormLayerParams allocation_size) =>
      when (negb (pre_alloc_batch_norm_derivative net))
        (cnmemAllocDerivatives i (allocation_size * data_type_size net)
           (allocation_size * data_type_size net);;;
         updateSpace SUB (allocation_size * data_type_size net);;;
         updateSpace SUB (allocation_size * data_type_size net));;;
      emit_backward i;;;
      when (train && negb (pre_alloc_batch_norm_derivative net))
        (cnmemFreeDerivatives i;;;
         updateSpace ADD (allocation_size * data_type_size net);;;
         updateSpace ADD (allocation_size * data_type_size net));;;
      release_layer i
  | Some ActivationLayerParams => emit_backward i   (* continue *)
  | Some SoftmaxLayerParams => emit_backward i      (* continue *)
  | Some _ => emit_backward i;;; release_layer i
  | None => ret tt
  end.

(** [for (int i = num_layers - 1; i >= 0; i--)]; [k] is [i + 1]. *)
Fixpoint backward_loop (k : nat) : Exec unit :=
  match k with
  | 0 => ret tt
  | S i => backward_layer i;;; backward_loop i
  end.

(** [getLoss(X, y, learning_rate, .., train, correct_count, scalar_loss)]. *)
Definition getLoss : Exec unit :=
  m <- get;;
  set_prefetched (resetPrefetched (layer_types net) (m_prefetched m));;;
  checked_malloc (BufInput 0) (input_bytes net 0);;;
  updateSpace SUB (input_bytes net 0);;;
  forward_loop (num_layers net) 0;;;
  if negb train then
    m <- get;;
    emit (EvCompare (m_layer_input m !!! (num_layers net - 1)));;;
    checked_free (m_layer_input m !!! (num_layers net - 1));;;
    updateSpace ADD (input_bytes net (num_layers net - 1))
  else
    wait_offloads (num_layers net) 0;;;
    emit EvLoss;;;
    checked_malloc (BufGrad (num_layers net))
      (batch_size net * num_classes net * data_type_size net);;;
    updateSpace SUB (input_bytes net (num_layers net));;;
    backward_loop (num_layers net).
End GetLoss.

(** The machine the constructor leaves: no cell assigned, no semaphore
    posted, the pool fixed at [capacity] ([CNMEM_FLAGS_CANNOT_GROW]). *)
Definition initial_machine (net : NeuralNet) (capacity : Z) : Machine :=
  let n := num_layers net in
  mkMachine (replicate (S n) None) (replicate (S n) None)
    (replicate n None) (replicate n None) (replicate n false)
    (replicate n 0) (replicate n 0) (cnmemInit capacity false 0) 0%Z [].

(** ** Reasoning about steps *)

(** [hoare P e Q R]: from a machine satisfying [P], [e] either returns [a]
    in a machine satisfying [Q a], or stops in a machine satisfying [R]. *)
Definition hoare {A} (P : Machine -> Prop) (e : Exec A)
    (Q : A -> Machine -> Prop) (R : Machine -> Prop) : Prop :=
  forall m, P m ->
    match e m with
    | (Ok a, m') => Q a m'
    | (Stop _, m') => R m'
    end.

(** [I] holds after [e] whenever it held before, however [e] ends. *)
Definition preserves {A} (I : Machine -> Prop) (e : Exec A) : Prop :=
  hoare I e (fun _ => I) I.

(** Layer [i] is an Activation or a Softmax layer. *)
Definition is_fused (net : NeuralNet) (i : nat) : bool :=
  type_is net i ACTV || type_is net i SOFTMAX.

(** What the alias rule of the backward pass requires of one event: a
    backward step of an Activation or Softmax layer [i > 0] runs with
    [dlayer_input[i]] equal to [dlayer_input[i + 1]], and no block is ever
    allocated for the gradient of such a layer. *)
Definition grad_event_ok (net : NeuralNet) (ev : Event) : Prop :=
  match ev with
  | EvBackward i grad_i grad_next =>
      0 < i -> is_fused net i = true -> grad_i = grad_next
  | EvMalloc (BufGrad i) _ _ => is_fused net i = false
  | _ => True
  end.

Definition grad_inv (net : NeuralNet) (m : Machine) : Prop :=
  length (m_dlayer_input m) = S (num_layers net) /\
  Forall (grad_event_ok net) (m_log m).

(** A cell that may receive a fresh block: any but the gradient of an
    Activation or Softmax layer. *)
Definition plain_target (net : NeuralNet) (b : Buffer) : Prop :=
  match b with BufGrad i => is_fused net i = false | _ => True end.

(** The alias property as the spec's P4 words it: whenever layer [i + 1] is
    an Activation or Softmax layer, the backward step of layer [i] runs with
    [dlayer_input[i]] equal to [dlayer_input[i + 1]]. *)
Definition alias_when_next_fused (net : NeuralNet) (log : list Event) : Prop :=
  forall i grad_i grad_next,
    S i < num_layers net ->
    is_fused net (S i) = true ->
    EvBackward i grad_i grad_next ∈ log ->
    grad_i = grad_next.

(** A three-layer network: two fully connected layers and a Softmax. *)
Definition fc_fc_softmax : NeuralNet :=
  mkNeuralNet [FCLayerParams 6 3; FCLayerParams 6 2; SoftmaxLayerParams]
    [2; 3; 2; 2]%Z 4 1 2 false false true.

(** ** simulateNeuralNetworkMemory: the analytic simulation *)

Inductive ConvDirection : Set := FWD | BWD_FILTER | BWD_DATA.

(** [ConvLayerParams::getWorkspaceSize(free_bytes, direction, algo_pref,
    hard)] of layer [i]; it is defined outside src/ and taken as given.  The
    result [-1] says that no algorithm fits. *)
Definition WorkspaceOracle : Type :=
  nat -> Z -> ConvDirection -> vDNNConvAlgoPref -> bool -> Z.

(** Modelled from the spec: [CnmemSpace] (declared outside src/), the
    planner's tracker of consumed and peak bytes: [updateSpace] moves bytes
    between free and consumed (see [space_update]), [getConsumed] is the
    initial free bytes less the current ones, [updateMaxConsume] raises the
    peak to the consumed bytes, [isAvailable] holds while the free bytes
    are not negative.  The [space_trace] logs the updates, most recent
    first. *)
Record CnmemSpace : Set := mkCnmemSpace {
  initial_free_bytes : Z;
  space_free_bytes : Z;
  space_trace : list (CnmemSpaceOp * Z)
}.

Definition space_init (free_bytes : Z) : CnmemSpace :=
  mkCnmemSpace free_bytes free_bytes [].

Definition getConsumed (s : CnmemSpace) : Z :=
  (initial_free_bytes s - space_free_bytes s)%Z.

Definition tracker_update (op : CnmemSpaceOp) (size : Z) (s : CnmemSpace)
    : CnmemSpace :=
  mkCnmemSpace (initial_free_bytes s)
    (initial_free_bytes s - space_update op size (getConsumed s))%Z
    ((op, size) :: space_trace s).

Definition isAvailable (s : CnmemSpace) : bool := (0 <=? space_free_bytes s)%Z.

Definition updateMaxConsume (s : CnmemSpace) (max_consume : Z) : Z :=
  Z.max max_consume (getConsumed s).

(** The simulation's variables: the tracker, [max_consume] and the
    [prefetched] array. *)
Record SimState : Set := mkSimState {
  sim_space : CnmemSpace;
  sim_max_consume : Z;
  sim_prefetched : list bool
}.

Definition sim_update (op : CnmemSpaceOp) (size : Z) (st : SimState) : SimState :=
  mkSimState (tracker_update op size (sim_space st)) (sim_max_consume st)
    (sim_prefetched st).

Definition sim_update_max (st : SimState) : SimState :=
  mkSimState (sim_space st)
    (updateMaxConsume (sim_space st) (sim_max_consume st)) (sim_prefetched st).

(** How a loop of the simulation goes on: [SimContinue], or [return false]. *)
Inductive SimFlow : Set := SimContinue | SimReturnFalse.

Section Analytic.
Variable net : NeuralNet.
Variable to_offload : list bool.
Variable getWorkspaceSize : WorkspaceOracle.
Variable algo_pref : vDNNConvAlgoPref.
Variable hard : bool.

(** The body of the forward loop for a layer that is not Softmax. *)
Definition sim_forward_layer (i : nat) (st : SimState) : SimFlow * SimState :=
  let st := sim_update_max (sim_update SUB (input_bytes net (S i)) st) in
  let '(flow, st) :=
    if type_is net i CONV then
      let cur_workspace_size :=
        getWorkspaceSize i (space_free_bytes (sim_space st)) FWD algo_pref hard in
      let st := sim_update_max (sim_update SUB cur_workspace_size st) in
      if (cur_workspace_size =? -1)%Z || negb (isAvailable (sim_space st))
      then (SimReturnFalse, st)
      else (SimContinue, sim_update ADD cur_workspace_size st)
    else (SimContinue, st) in
  match flow with
  | SimReturnFalse => (SimReturnFalse, st)
  | SimContinue =>
      if negb (isAvailable (sim_space st)) then (SimReturnFalse, st)
      else if (to_offload !!! i : bool)
      then (SimContinue, sim_update ADD (input_bytes net i) st)
      else (SimContinue, st)
  end.

(** [for (int i = 0; i < num_layers; i++)], leaving at the first Softmax
    layer; [n] iterations are left. *)
Fixpoint sim_forward_loop (n i : nat) (st : SimState) : SimFlow * SimState :=
  match n with
  | 0 => (SimContinue, st)
  | S n' =>
      if type_is net i SOFTMAX then (SimContinue, st)
      else
        match sim_forward_layer i st with
        | (SimContinue, st') => sim_forward_loop n' (S i) st'
        | (SimReturnFalse, st') => (SimReturnFalse, st')
        end
  end.

(** Allocate and release the weight derivatives of sizes [a] and [b]
    around the availability check, when they are not preallocated. *)
Definition sim_derivatives (pre_alloc : bool) (a b : Z) (st : SimState)
    : SimFlow * SimState :=
  let st :=
    if negb pre_alloc
    then sim_update_max (sim_update SUB b (sim_update SUB a st))
    else st in
  if negb (isAvailable (sim_space st)) then (SimReturnFalse, st)
  else (SimContinue,
        if negb pre_alloc then sim_update ADD b (sim_update ADD a st) else st).

(** The layer's branch of the backward [if] chain. *)
Definition sim_backward_compute (i : nat) (st : SimState) : SimFlow * SimState :=
  match params net !! i with
  | Some (ConvLayerParams _ _ _ kernel_size C_out) =>
      let free := space_free_bytes (sim_space st) in
      let cur_filter_workspace_size :=
        getWorkspaceSize i free BWD_FILTER algo_pref hard in
      let cur_data_workspace_size :=
        if bool_decide (0 < i)
        then getWorkspaceSize i free BWD_DATA algo_pref hard else 0%Z in
      let cur_workspace_size :=
        if (cur_filter_workspace_size >? cur_data_workspace_size)%Z
        then cur_filter_workspace_size else cur_data_workspace_size in
      let st := sim_update_max (sim_update SUB cur_workspace_size st) in
      let st :=
        if negb (pre_alloc_conv_derivative net)
        then sim_update_max
               (sim_update SUB (C_out * data_type_size net)
                  (sim_update SUB (kernel_size * data_type_size net) st))
        else st in
      if (cur_filter_workspace_size =? -1)%Z
         || (cur_data_workspace_size =? -1)%Z
         || negb (isAvailable (sim_space st))
      then (SimReturnFalse, st)
      else
        let st := sim_update ADD cur_workspace_size st in
        (SimContinue,
         if negb (pre_alloc_conv_derivative net)
         then sim_update ADD (C_out * data_type_size net)
                (sim_update ADD (kernel_size * data_type_size net) st)
         else st)
  | Some (FCLayerParams weight_matrix_size C_out) =>
      sim_derivatives (pre_alloc_fc_derivative net)
        (weight_matrix_size * data_type_size net)
        (C_out * data_type_size net) st
  | Some (BatchNormLayerParams allocation_size) =>
      sim_derivatives (pre_alloc_batch_norm_derivative net)
        (allocation_size * data_type_size net)
        (allocation_size * data_type_size net) st
  | _ => (SimContinue, st)
  end.

(** One iteration of the backward loop. *)
Definition sim_backward_layer (i : nat) (st : SimState) : SimFlow * SimState :=
  if bool_decide (0 < i) && type_is net i SOFTMAX then (SimContinue, st)
  else
    let st :=
      if bool_decide (0 < i)
      then sim_update_max (sim_update SUB (input_bytes net i) st) else st in
    let '(pf, layer_to_prefetch) :=
      findPrefetchLayer (layer_types net) to_offload (sim_prefetched st) i in
    let st := mkSimState (sim_space st) (sim_max_consume st) pf in
    let st :=
      match layer_to_prefetch with
      | Some j => sim_update_max (sim_update SUB (input_bytes net j) st)
      | None => st
      end in
    match sim_backward_compute i st with
    | (SimReturnFalse, st) => (SimReturnFalse, st)
    | (SimContinue, st) =>
        if negb (isAvailable (sim_space st)) then (SimReturnFalse, st)
        else
          let st := sim_update ADD (input_bytes net (S i))
                      (sim_update ADD (input_bytes net (S i)) st) in
          (SimContinue,
           if i =? 0 then sim_update ADD (input_bytes net i) st else st)
    end.

Fixpoint sim_backward_loop (k : nat) (st : SimState) : SimFlow * SimState :=
  match k with
  | 0 => (SimContinue, st)
  | S i =>
      match sim_backward_layer i st with
      | (SimContinue, st') => sim_backward_loop i st'
      | (SimReturnFalse, st') => (SimReturnFalse, st')
      end
  end.

(** The analytic part of [simulateNeuralNetworkMemory], up to the point
    where [exp_max_consume] is set; [None] is the [exit(0)] after
    "Panic!! Using wrong size". *)
Definition simulate_analytic (free_bytes : Z) (prefetched : list bool)
    : option (SimFlow * SimState) :=
  let st := mkSimState (space_init free_bytes) 0%Z prefetched in
  let st := sim_update_max (sim_update SUB (input_bytes net 0) st) in
  match sim_forward_loop (num_layers net) 0 st with
  | (SimReturnFalse, st) => Some (SimReturnFalse, st)
  | (SimContinue, st) =>
      if negb (batch_size net * num_classes net * data_type_size net
               =? input_bytes net (num_layers net))%Z
      then None
      else
        let st := sim_update_max
                    (sim_update SUB (input_bytes net (num_layers net)) st) in
        Some (sim_backward_loop (num_layers net) st)
  end.
End Analytic.

(** ** simulateCNMEMMemory: the replay against the pool *)

(** [checkCNMEMRet(cnmemMalloc(..))] and [checkCNMEMRet(cnmemFree(..))]: a
    status other than success makes the replay return [false]. *)
Definition ret_malloc (b : Buffer) (size : Z) : Exec (option ptr) :=
  m <- get;;
  match cnmemMalloc size (m_pool m) with
  | (CNMEM_STATUS_SUCCESS, Some q, pool') =>
      set_pool pool';;; store b (Some q);;; emit (EvMalloc b q size);;;
      ret (Some q)
  | _ => halt Refused
  end.

Definition ret_free (q : option ptr) : Exec unit :=
  m <- get;;
  match cnmemFree q (m_pool m) with
  | (CNMEM_STATUS_SUCCESS, size, pool') =>
      set_pool pool';;; emit (EvFree (default 0 q) size)
  | _ => halt Refused
  end.

Section Replay.
Variable net : NeuralNet.
Variable to_offload : list bool.

Definition replay_forward_layer (i : nat) : Exec nat :=
  ret_malloc (BufInput (S i)) (input_bytes net (S i));;;
  match params net !! i with
  | Some (ConvLayerParams fwd_workspace_size _ _ _ _) =>
      cur_workspace <- ret_malloc (BufWorkspace i) fwd_workspace_size;;
      ret_free cur_workspace
  | _ => ret tt
  end;;;
  when (to_offload !!! i)
    (m <- get;; ret_free (m_layer_input m !!! i));;;
  ret (if type_is net (S i) ACTV || type_is net (S i) SOFTMAX
       then S i else i).

Fixpoint replay_forward_loop (fuel i : nat) : Exec unit :=
  match fuel with
  | 0 => ret tt
  | S fuel' =>
      if negb (i <? num_layers net) then ret tt
      else i' <- replay_forward_layer i;; replay_forward_loop fuel' (S i')
  end.

Definition replay_release (i : nat) : Exec unit :=
  m <- get;;
  ret_free (m_layer_input m !!! S i);;;
  ret_free (m_dlayer_input m !!! S i);;;
  when (i =? 0) (ret_free (m_layer_input m !!! i)).

Definition replay_grad (i : nat) : Exec unit :=
  if type_is net i ACTV || type_is net i SOFTMAX then
    m <- get;;
    store (BufGrad i) (m_dlayer_input m !!! S i)
  else
    m <- get;;
    let '(pf, layer_to_prefetch) :=
      findPrefetchLayer (layer_types net) to_offload (m_prefetched m) i in
    set_prefetched pf;;;
    match layer_to_prefetch with
    | Some j => ret_malloc (BufInput j) (input_bytes net j);;; ret tt
    | None => ret tt
    end;;;
    ret_malloc (BufGrad i) (input_bytes net i);;;
    ret tt.

Definition replay_backward_layer (i : nat) : Exec unit :=
  when (bool_decide (0 < i)) (replay_grad i);;;
  match params net !! i with
  | Some (ConvLayerParams _ bwd_filter_workspace_size
            bwd_data_workspace_size kernel_size C_out) =>
      when (negb (pre_alloc_conv_derivative net))
        (cnmemAllocDerivatives i (kernel_size * data_type_size net)
           (C_out * data_type_size net));;;
      let cur_filter_workspace_size := bwd_filter_workspace_size in
      let cur_data_workspace_size :=
        if bool_decide (0 < i) then bwd_data_workspace_size else 0%Z in
      let cur_workspace_size :=
        if (cur_filter_workspace_size >? cur_data_workspace_size)%Z
        then cur_filter_workspace_size else cur_data_workspace_size in
      cur_workspace <- ret_malloc (BufWorkspace i) cur_workspace_size;;
      ret_free cur_workspace;;;
      when (negb (pre_alloc_conv_derivative net)) (cnmemFreeDerivatives i);;;
      replay_release i
  | Some (FCLayerParams weight_matrix_size C_out) =>
      when (negb (pre_alloc_fc_derivative net))
        (cnmemAllocDerivatives i (weight_matrix_size * data_type_size net)
           (C_out * data_type_size net));;;
      when (negb (pre_alloc_fc_derivative net)) (cnmemFreeDerivatives i);;;
      replay_release i
  | Some (BatchNormLayerParams allocation_size) =>
      when (negb (pre_alloc_batch_norm_derivative net))
        (cnmemAllocDerivatives i (allocation_size * data_type_size net)
           (allocation_size * data_type_size net));;;
      when (negb (pre_alloc_batch_norm_derivative net))
        (cnmemFreeDerivatives i);;;
      replay_release i
  | Some SoftmaxLayerParams => ret tt   (* continue *)
  | Some _ => replay_release i
  | None => ret tt
  end.

Fixpoint replay_backward_loop (k : nat) : Exec unit :=
  match k with
  | 0 => ret tt
  | S i => replay_backward_layer i;;; replay_backward_loop i
  end.

(** [simulateCNMEMMemory(max_consume)]; on success the pool's total is
    what [cnmemMemGetInfo] stores in [max_consume]. *)
Definition simulateCNMEMMemory : Exec Z :=
  m <- get;;
  set_prefetched (resetPrefetched (layer_types net) (m_prefetched m));;;
  ret_malloc (BufInput 0) (input_bytes net 0);;;
  replay_forward_loop (num_layers net) 0;;;
  ret_malloc (BufGrad (num_layers net))
    (batch_size net * num_classes net * data_type_size net);;;
  replay_backward_loop (num_layers net);;;
  m <- get;;
  ret (snd (cnmemMemGetInfo (m_pool m))).
End Replay.

(** ** simulateNeuralNetworkMemory *)

(** What the simulation hands back: the verdict ([Stop] when the process
    ends inside it), [exp_max_consume] when it was written, [max_consume],
    and the machine. *)
Record SimResult : Set := mkSimResult {
  sim_verdict : Step bool;
  sim_exp_max_consume : option Z;
  sim_result_max_consume : Z;
  sim_machine : Machine
}.

Definition with_pool_prefetched (m : Machine) (p : Pool) (pf : list bool)
    : Machine :=
  mkMachine (m_layer_input m) (m_dlayer_input m) (m_dW m) (m_db m) pf
    (m_sem_sync_offload m) (m_sem_prefetch_done m) p (m_tracker m) (m_log m).

Definition simulateNeuralNetworkMemory (net : NeuralNet)
    (to_offload : list bool) (getWorkspaceSize : WorkspaceOracle)
    (free_bytes : Z) (algo_pref : vDNNConvAlgoPref) (hard : bool)
    (m : Machine) : SimResult :=
  match simulate_analytic net to_offload getWorkspaceSize algo_pref hard
          free_bytes (m_prefetched m) with
  | None =>
      mkSimResult (Stop Panic) None 0%Z m
  | Some (SimReturnFalse, st) =>
      mkSimResult (Ok false) None (sim_max_consume st)
        (with_pool_prefetched m (m_pool m) (sim_prefetched st))
  | Some (SimContinue, st) =>
      let exp_max_consume := sim_max_consume st in
      let pool := cnmemInit exp_max_consume true (pool_next (m_pool m)) in
      match simulateCNMEMMemory net to_offload
              (with_pool_prefetched m pool (sim_prefetched st)) with
      | (Ok max_consume, m') =>
          mkSimResult (Ok true) (Some exp_max_consume) max_consume m'
      | (Stop Refused, m') =>
          mkSimResult (Ok false) (Some exp_max_consume) exp_max_consume m'
      | (Stop h, m') =>
          mkSimResult (Stop h) (Some exp_max_consume) exp_max_consume m'
      end
  end.

(** The oracle that answers with the workspace sizes recorded in the layer
    parameters, whatever the budget. *)
Definition recorded_workspace (net : NeuralNet) : WorkspaceOracle :=
  fun i _ direction _ _ =>
    match params net !! i with
    | Some (ConvLayerParams fwd bwd_filter bwd_data _ _) =>
        match direction with
        | FWD => fwd
        | BWD_FILTER => bwd_filter
        | BWD_DATA => bwd_data
        end
    | _ => 0%Z
    end.

(** ** Device bytes along a log *)

(** The bytes an event adds to the device residency. *)
Definition event_bytes (ev : Event) : Z :=
  match ev with
  | EvMalloc _ _ bytes => bytes
  | EvFree _ bytes => (- bytes)%Z
  | _ => 0%Z
  end.

(** Bytes allocated after the whole log (most recent event first). *)
Fixpoint consumed (log : list Event) : Z :=
  match log with
  | [] => 0%Z
  | ev :: earlier => (event_bytes ev + consumed earlier)%Z
  end.

(** The largest number of bytes allocated at any point of the log. *)
Fixpoint peak (log : list Event) : Z :=
  match log with
  | [] => 0%Z
  | ev :: earlier => Z.max (consumed (ev :: earlier)) (peak earlier)
  end.

(** The state of a step that allocates from a pool fixed at [capacity]. *)
Definition pool_inv (capacity : Z) (m : Machine) : Prop :=
  pool_can_grow (m_pool m) = false /\
  pool_total (m_pool m) = capacity /\
  Forall (fun b => (0 <= snd b)%Z) (pool_blocks (m_pool m)) /\
  pool_used (m_pool m) = consumed (m_log m) /\
  (peak (m_log m) <= capacity)%Z.

(** Events that record the schedule rather than a change of the pool. *)
Definition schedule_event (ev : Event) : bool :=
  match ev with
  | EvMalloc _ _ _ | EvFree _ _ => false
  | _ => true
  end.

(** The end of the constructor when planning succeeded: [free_bytes =
    max_consume], then [cnmemInit] of a pool of that size with
    [CNMEM_FLAGS_CANNOT_GROW].  The cells keep what the simulation left in
    them; the log starts empty. *)
Definition machine_after_planning (r : SimResult) : option Machine :=
  match sim_verdict r with
  | Ok true =>
      let m := sim_machine r in
      Some (mkMachine (m_layer_input m) (m_dlayer_input m) (m_dW m) (m_db m)
              (m_prefetched m) (m_sem_sync_offload m) (m_sem_prefetch_done m)
              (cnmemInit (sim_result_max_consume r) false
                 (pool_next (m_pool m)))
              0%Z [])
  | _ => None
  end.

(** A convolution, a fully connected layer and a Softmax; under the
    "conv-only" policy the convolution is offloaded. *)
Definition conv_fc_softmax : NeuralNet :=
  mkNeuralNet
    [ConvLayerParams 16 8 12 5 2; FCLayerParams 6 2; SoftmaxLayerParams]
    [10; 3; 2; 2]%Z 4 1 2 false false true.

Definition conv_fc_softmax_flags : list bool :=
  setOffload (layer_types conv_fc_softmax) OFFLOAD_CONV [false; false; false].

(** A stand-in simulation for examples of the planner: it confirms a plan
    that offloads some layer, under the soft discipline or with the
    memory-optimal preference. *)
Definition example_simulator : Simulator :=
  fun flags pf algo_pref hard =>
    (existsb id flags &&
       (negb hard ||
        match algo_pref with
        | PREFER_MEMORY_OPTIMAL => true
        | PREFER_PERFORMANCE_OPTIMAL => false
        end),
     (Some 0%Z, 0%Z), pf).

(** ** The loss and accuracy kernels *)

(** [kernel<<<ceil(1.0 * batch_size / BW), BW>>>(..)]: the threads of the
    grid, indexed by [blockIdx.x * blockDim.x + threadIdx.x], each run the
    kernel body on the device arrays [S].  The threads of these kernels
    write disjoint cells, so running them in index order loses nothing.
    [BW], the block width, is a constant of the header. *)
Definition grid_blocks (BW batch_size : nat) : nat :=
  (batch_size + BW - 1) / BW.

Definition launch {S : Type} (BW batch_size : nat) (kernel : nat -> S -> S)
    (s : S) : S :=
  fold_left (fun s i => kernel i s) (seq 0 (grid_blocks BW batch_size * BW)) s.

Section Kernels.
(** The element type [T] of the output tensor with its [>], and the
    arithmetic of [float]: nothing is assumed of either. *)
Variable T : Type.
Variable gt : T -> T -> bool.
Context `{Inhabited T}.

(** The loop of [inferClass] over [j = 1 .. num_classes - 1] for row [i]:
    [n] iterations are left, [max] and [index] are the running maximum. *)
Fixpoint inferClass_scan (O : list T) (i num_classes n j : nat) (max : T)
    (index : nat) : nat :=
  match n with
  | 0 => index
  | S n' =>
      if gt (O !!! (i * num_classes + j)) max
      then inferClass_scan O i num_classes n' (S j)
             (O !!! (i * num_classes + j)) j
      else inferClass_scan O i num_classes n' (S j) max index
  end.

(** One thread of [inferClass]. *)
Definition inferClass (O : list T) (batch_size num_classes : nat) (i : nat)
    (pred_y : list Z) : list Z :=
  if batch_size <=? i then pred_y
  else
    <[i := Z.of_nat
             (inferClass_scan O i num_classes (num_classes - 1) 1
                (O !!! (i * num_classes)) 0)]> pred_y.

(** The host loop [for (i = 0; i < batch_size; i++) if (h_pred_y[i] == y[i])
    *correct_count = *correct_count + 1]. *)
Fixpoint count_correct (h_pred_y y : list Z) (n i : nat) (correct_count : Z)
    : Z :=
  match n with
  | 0 => correct_count
  | S n' =>
      count_correct h_pred_y y n' (S i)
        (if ((h_pred_y !!! i) =? (y !!! i))%Z
         then (correct_count + 1)%Z else correct_count)
  end.

(** [compareOutputCorrect(correct_count, y)], where [O] is the tensor at
    [layer_input[num_layers - 1]] and [pred_y] the device array before the
    call. *)
Definition compareOutputCorrect (BW batch_size num_classes : nat)
    (O : list T) (pred_y y : list Z) : Z :=
  let h_pred_y :=
    launch BW batch_size (inferClass O batch_size num_classes) pred_y in
  count_correct h_pred_y y batch_size 0 0%Z.

(** Spec side: row [i] of the output, and what it is for [k] to be the
    argmax of a row with ties broken toward the smallest index: no entry
    exceeds entry [k], and entry [k] exceeds every earlier entry. *)
Definition row (O : list T) (num_classes i : nat) : list T :=
  take num_classes (drop (i * num_classes) O).

Definition is_argmax_first (r : list T) (k : nat) : Prop :=
  k < length r /\
  (forall j, j < length r -> gt (r !!! j) (r !!! k) = false) /\
  (forall j, j < k -> gt (r !!! k) (r !!! j) = true).

(** The number of rows [i < batch_size] whose class [class i] equals
    [y[i]]. *)
Definition count_matches (class : nat -> nat) (batch_size : nat)
    (y : list Z) : Z :=
  Z.of_nat
    (length (filter (fun i => Z.of_nat (class i) = y !!! i)
               (seq 0 batch_size))).
End Kernels.

(** The events an inference call may log: allocations, releases, the
    layers' forward computations and the comparison of the output. *)
Definition inference_event (ev : Event) : bool :=
  match ev with
  | EvMalloc _ _ _ | EvFree _ _ | EvForward _ | EvCompare _ => true
  | _ => false
  end.

(** The policy and the preference a fixed [vdnn_type] and [vdnn_conv_algo]
    stand for in [vDNNOptimize]. *)
Definition fixed_offload (vdnn_type : vDNNType) : OffloadType :=
  match vdnn_type with
  | vDNN_ALL => OFFLOAD_ALL
  | vDNN_CONV => OFFLOAD_CONV
  | vDNN_NONE => OFFLOAD_NONE
  | vDNN_DYN => OFFLOAD_ALL
  end.

Definition fixed_pref (vdnn_conv_algo : vDNNConvAlgo) : vDNNConvAlgoPref :=
  match vdnn_conv_algo with
  | vDNN_PERFORMANCE_OPTIMAL => PREFER_PERFORMANCE_OPTIMAL
  | vDNN_MEMORY_OPTIMAL => PREFER_MEMORY_OPTIMAL
  end.

(** The machine [m] with another [prefetched] array. *)
Definition with_prefetched (m : Machine) (pf : list bool) : Machine :=
  with_pool_prefetched m (m_pool m) pf.

Section LossKernels.
(** The arithmetic of [float] (and of the tensor's element type, which the
    kernels convert to and from): nothing is assumed of it. *)
Variable F : Type.
Context `{Inhabited F}.
Variable fzero : F.
Variable fadd fmul fdiv : F -> F -> F.
Variable fneg logf : F -> F.
Variable of_int : Z -> F.

(** [i * num_classes + y[i]] as an index. *)
Definition label_index (num_classes : nat) (y : list Z) (i : nat) : nat :=
  Z.to_nat (Z.of_nat (i * num_classes) + y !!! i).

(** One thread of [computeSoftmaxLoss]. *)
Definition computeSoftmaxLoss (O : list F) (y : list Z)
    (batch_size num_classes : nat) (eps : F) (i : nat) (loss : list F)
    : list F :=
  if batch_size <=? i then loss
  else <[i := fneg (logf (fadd (O !!! label_index num_classes y i) eps))]> loss.

(** [for (int i = 0; i < batch_size; i++) total_loss += h_loss[i]]. *)
Fixpoint total_loss_loop (h_loss : list F) (n i : nat) (total_loss : F) : F :=
  match n with
  | 0 => total_loss
  | S n' => total_loss_loop h_loss n' (S i) (fadd total_loss (h_loss !!! i))
  end.

(** [computeLoss()]: [last_type] is [layer_type[num_layers - 1]], [O] the
    tensor at [layer_input[num_layers]], [loss] the device buffer before the
    call. *)
Definition computeLoss (last_type : LayerOp) (BW batch_size num_classes : nat)
    (O : list F) (y : list Z) (softmax_eps : F) (loss : list F) : F :=
  let loss :=
    if bool_decide (last_type = SOFTMAX)
    then launch BW batch_size
           (computeSoftmaxLoss O y batch_size num_classes softmax_eps) loss
    else loss in
  let h_loss := loss in
  fdiv (total_loss_loop h_loss batch_size 0 fzero)
    (of_int (Z.of_nat batch_size)).

(** One thread of [softmaxLossBackProp]. *)
Definition softmaxLossBackProp (y : list Z) (SO : list F)
    (batch_size output_size : nat) (eps : F) (i : nat) (dSO : list F)
    : list F :=
  if batch_size <=? i then dSO
  else
    <[label_index output_size y i :=
        fdiv (of_int (-1))
          (fadd (fmul (SO !!! label_index output_size y i)
                   (of_int (Z.of_nat batch_size))) eps)]> dSO.

(** The gradient of the loss as [getLoss] builds it for a final Softmax:
    [cudaMemset(dlayer_input[num_layers], 0, ..)], then the kernel. *)
Definition loss_gradient (BW batch_size num_classes : nat) (y : list Z)
    (SO : list F) (softmax_eps : F) : list F :=
  launch BW batch_size
    (softmaxLossBackProp y SO batch_size num_classes softmax_eps)
    (replicate (batch_size * num_classes) fzero).
End LossKernels.

(** ** What an accepted analytic simulation guarantees *)

(** The sizes of a network and the answers of the workspace oracle are
    sane: no size is negative, and the oracle answers a size or [-1]. *)
Definition sizes_nonneg (net : NeuralNet) : Prop :=
  (forall i, 0 <= input_bytes net i)%Z /\
  (0 <= data_type_size net)%Z /\
  forall i p, params net !! i = Some p ->
    match p with
    | ConvLayerParams _ _ _ kernel_size C_out =>
        (0 <= kernel_size /\ 0 <= C_out)%Z
    | FCLayerParams weight_matrix_size C_out =>
        (0 <= weight_matrix_size /\ 0 <= C_out)%Z
    | BatchNormLayerParams allocation_size => (0 <= allocation_size)%Z
    | _ => True
    end.

Definition oracle_sane (getWorkspaceSize : WorkspaceOracle) : Prop :=
  forall i free direction algo_pref hard,
    (-1 <= getWorkspaceSize i free direction algo_pref hard)%Z.

(** The peak recorded so far fits the budget [free0]. *)
Definition peak_fits (free0 : Z) (st : SimState) : Prop :=
  initial_free_bytes (sim_space st) = free0 /\
  (sim_max_consume st <= free0)%Z.

(** The same, unless the tracker is already out of space (which the next
    availability test will find). *)
Definition peak_fits_or_full (free0 : Z) (st : SimState) : Prop :=
  initial_free_bytes (sim_space st) = free0 /\
  ((sim_max_consume st <= free0)%Z \/ (space_free_bytes (sim_space st) < 0)%Z).

(** ** lockedcnmemMalloc, attempt by attempt *)

(** How far a call of [lockedcnmemMalloc] has got: it has returned after
    [attempts] calls of [cnmemMalloc] and [waits] waits on the condition
    variable, or it is still in its loop. *)
Inductive MallocRun : Set :=
  | MallocReturned (attempts waits : nat)
  | MallocTrying (waits : nat).

(** The [while (true)] loop of [lockedcnmemMalloc] as the calling thread
    sees it: [status k] is what the [k]-th call of [cnmemMalloc] reports,
    [fuel] bounds the iterations observed, every [pthread_cond_wait] is
    taken to return.  Success breaks out of the loop; out-of-memory waits
    and goes round again; any other status matches neither branch and goes
    round again at once. *)
Fixpoint lockedcnmemMalloc_loop (status : nat -> cnmemStatus_t)
    (fuel k waits : nat) : MallocRun :=
  match fuel with
  | 0 => MallocTrying waits
  | S fuel' =>
      match status k with
      | CNMEM_STATUS_SUCCESS => MallocReturned (S k) waits
      | CNMEM_STATUS_OUT_OF_MEMORY =>
          lockedcnmemMalloc_loop status fuel' (S k) (S waits)
      | _ => lockedcnmemMalloc_loop status fuel' (S k) waits
      end
  end.

(** The number of out-of-memory reports among attempts [k .. k + n - 1]. *)
Fixpoint count_out_of_memory (status : nat -> cnmemStatus_t) (k n : nat) : nat :=
  match n with
  | 0 => 0
  | S n' =>
      (if bool_decide (status k = CNMEM_STATUS_OUT_OF_MEMORY) then 1 else 0)
      + count_out_of_memory status (S k) n'
  end.

(** ** The solver's loops *)

(** The fields of [Solver] that its loops read; [batch_size] stands for
    [model->batch_size], [val_data] for the pair [X_val], [y_val].  The
    [int] counters and offsets are unbounded integers here. *)
Record Solver (F Data : Type) : Type := mkSolver {
  learning_rate : F;
  learning_rate_decay : F;
  num_epoch : Z;
  num_train : Z;
  num_val : Z;
  num_features : Z;
  batch_size_of_model : Z;
  val_data : Data
}.
Arguments mkSolver {F Data}.
Arguments learning_rate {F Data}.
Arguments learning_rate_decay {F Data}.
Arguments num_epoch {F Data}.
Arguments num_train {F Data}.
Arguments num_val {F Data}.
Arguments num_features {F Data}.
Arguments batch_size_of_model {F Data}.
Arguments val_data {F Data}.

(** [num_samples / batch_size] iterations of a [for] loop: C++ division
    truncates, and a count that is not positive gives no iteration. *)
Definition num_batches (num_samples batch_size : Z) : nat :=
  Z.to_nat (num_samples ÷ batch_size).

Section SolverLoops.
Variables (World F Data : Type).
Variable fmul : F -> F -> F.

(** [Solver::step] at a learning rate and two offsets: the loss it returns,
    the milliseconds the two CUDA events around it measure, and the state of
    the model and the device afterwards. *)
Variable step : F -> Z -> Z -> World -> (F * F) * World.

(** [model->getLoss(&X[start_X], &y[start_y], false, &count, NULL)]: the
    count of correct predictions and the state afterwards. *)
Variable getLoss_infer : Data -> Z -> Z -> World -> Z * World.

Definition decayed (sv : Solver F Data) : Solver F Data :=
  mkSolver (fmul (learning_rate sv) (learning_rate_decay sv))
    (learning_rate_decay sv) (num_epoch sv) (num_train sv) (num_val sv)
    (num_features sv) (batch_size_of_model sv) (val_data sv).

(** One iteration of the training loop of [train]. *)
Definition train_batch (sv : Solver F Data) (acc : World * list F) (j : nat)
    : World * list F :=
  let '(w, loss) := acc in
  let '((temp_loss, _), w') :=
    step (learning_rate sv)
      (Z.of_nat j * num_features sv * batch_size_of_model sv)
      (Z.of_nat j * batch_size_of_model sv) w in
  (w', loss ++ [temp_loss]).

(** One iteration of a counting loop of [train] or [checkAccuracy]. *)
Definition count_batch (sv : Solver F Data) (data : Data) (acc : World * Z)
    (j : nat) : World * Z :=
  let '(w, correct_count) := acc in
  let '(temp_correct_count, w') :=
    getLoss_infer data
      (Z.of_nat j * num_features sv * batch_size_of_model sv)
      (Z.of_nat j * batch_size_of_model sv) w in
  (w', (correct_count + temp_correct_count)%Z).

(** One epoch of [train]: the training batches, then the validation
    batches, whose count is pushed onto [val_acc]. *)
Definition train_epoch (sv : Solver F Data) (acc : World * list F * list Z)
    : World * list F * list Z :=
  let '(w, loss, val_acc) := acc in
  let '(w1, loss1) :=
    fold_left (train_batch sv)
      (seq 0 (num_batches (num_train sv) (batch_size_of_model sv)))
      (w, loss) in
  let '(w2, correct_count) :=
    fold_left (count_batch sv (val_data sv))
      (seq 0 (num_batches (num_val sv) (batch_size_of_model sv)))
      (w1, 0%Z) in
  (w2, loss1, val_acc ++ [correct_count]).

(** [Solver::train]: [None] is the division by a zero batch size. *)
Definition train (sv : Solver F Data) (w : World) (loss : list F)
    (val_acc : list Z) : option (Solver F Data * World * list F * list Z) :=
  if (batch_size_of_model sv =? 0)%Z then None
  else
    let '(w', loss', val_acc') :=
      Nat.iter (Z.to_nat (num_epoch sv)) (train_epoch sv)
        (w, loss, val_acc) in
    Some (decayed sv, w', loss', val_acc').

(** [Solver::checkAccuracy]: the value left in [*num_correct]. *)
Definition checkAccuracy (sv : Solver F Data) (data : Data) (num_samples : Z)
    (w : World) : option (Z * World) :=
  if (batch_size_of_model sv =? 0)%Z then None
  else
    let '(w', num_correct) :=
      fold_left (count_batch sv data)
        (seq 0 (num_batches num_samples (batch_size_of_model sv)))
        (w, 0%Z) in
    Some (num_correct, w').

(** One iteration of the loop of [getTrainTime]. *)
Definition time_batch (sv : Solver F Data) (acc : World * list F * list F)
    (j : nat) : World * list F * list F :=
  let '(w, loss, time) := acc in
  let '((temp_loss, milli), w') :=
    step (learning_rate sv)
      (Z.of_nat j * num_features sv * batch_size_of_model sv)
      (Z.of_nat j * batch_size_of_model sv) w in
  (w', loss ++ [temp_loss], time ++ [milli]).

(** [Solver::getTrainTime]; its [num_epoch] is the argument, not the field. *)
Definition getTrainTime (sv : Solver F Data) (num_epoch : Z) (w : World)
    (loss time : list F) : option (Solver F Data * World * list F * list F) :=
  if (batch_size_of_model sv =? 0)%Z then None
  else
    let '(w', loss', time') :=
      Nat.iter (Z.to_nat num_epoch)
        (fun acc =>
           fold_left (time_batch sv)
             (seq 0 (num_batches (num_train sv) (batch_size_of_model sv)))
             acc)
        (w, loss, time) in
    Some (decayed sv, w', loss', time').

End SolverLoops.

(** A small solver over integer losses, for the examples. *)
Definition example_solver : Solver Z unit :=
  mkSolver 8%Z 2%Z 2%Z 10%Z 7%Z 3%Z 4%Z tt.

Definition example_step (lr a b : Z) (w : Z) : (Z * Z) * Z :=
  ((lr + a + w, b)%Z, (w + 1)%Z).

Definition example_infer (_ : unit) (a b : Z) (w : Z) : Z * Z :=
  (Z.min 4 (Z.max 0 (a + b + w)), w).

Definition example_timing_solver : Solver Z unit :=
  mkSolver 8%Z 2%Z 2%Z 10%Z 3%Z 3%Z 4%Z tt.

(** ** Offload traffic of a step *)

(** What the guards of [getLoss] allow of one event: a copy to the host
    only of a flagged layer other than layer 0; a free worker, a semaphore
    wait and a prefetch only of a flagged layer. *)
Definition offload_event_ok (to_offload : list bool) (ev : Event) : bool :=
  match ev with
  | EvOffload i => bool_decide (0 < i) && (to_offload !!! i)
  | EvFreeWorker i | EvWaitOffload i | EvPrefetch i | EvWaitPrefetch i =>
      to_offload !!! i
  | _ => true
  end.

Definition is_prefetch (ev : Event) : bool :=
  match ev with
  | EvPrefetch _ => true
  | _ => false
  end.

(** The layers prefetched in a log, most recent first. *)
Definition prefetches (log : list Event) : list nat :=
  flat_map (fun ev => match ev with EvPrefetch j => [j] | _ => [] end) log.

(** The invariant of the offload traffic: every event passes its guard, the
    [prefetched] array keeps its length [L], and, when that covers the
    layers, the layers prefetched so far, with those in [pending] whose
    mark is set but whose copy is not yet issued, are distinct and marked. *)
Definition prefetch_inv (net : NeuralNet) (to_offload : list bool) (L : nat)
    (pending : list nat) (m : Machine) : Prop :=
  Forall (fun ev => offload_event_ok to_offload ev = true) (m_log m) /\
  length (m_prefetched m) = L /\
  (num_layers net <= L ->
   NoDup (pending ++ prefetches (m_log m)) /\
   forall j, j ∈ pending ++ prefetches (m_log m) ->
             m_prefetched m !!! j = true).

(** ** Pairing of offloads and prefetches *)

Fixpoint occurrences (i : nat) (l : list nat) : nat :=
  match l with
  | [] => 0
  | j :: l' => (if j =? i then 1 else 0) + occurrences i l'
  end.

(** The layers whose free worker ran, whose offload semaphore was waited
    for, whose prefetch semaphore was waited for, most recent first. *)
Definition workers (log : list Event) : list nat :=
  flat_map (fun ev => match ev with EvFreeWorker i => [i] | _ => [] end) log.

Definition offload_waits (log : list Event) : list nat :=
  flat_map (fun ev => match ev with EvWaitOffload i => [i] | _ => [] end) log.

Definition prefetch_waits (log : list Event) : list nat :=
  flat_map (fun ev => match ev with EvWaitPrefetch i => [i] | _ => [] end) log.

(** Every wait in the log comes after what posts its semaphore. *)
Fixpoint waits_follow (log : list Event) : Prop :=
  match log with
  | [] => True
  | ev :: rest =>
      match ev with
      | EvWaitOffload i => EvFreeWorker i ∈ rest
      | EvWaitPrefetch i => EvPrefetch i ∈ rest
      | _ => True
      end /\ waits_follow rest
  end.

(** The events that change none of the four lists above nor the order of
    waits and posts. *)
Definition plain_event (ev : Event) : bool :=
  match ev with
  | EvFreeWorker _ | EvWaitOffload _ | EvPrefetch _ | EvWaitPrefetch _ => false
  | _ => true
  end.

(** The invariant of the pairing.  A semaphore's count and the waits made
    on it never exceed the posts ([pending_workers], [pending_prefetches]:
    logged but not yet posted); free workers ran at most once each, and
    only for layers below [bound]; the flagged layers below [waited] had
    their offload semaphore waited for, those from [backed] up their
    prefetch semaphore; every wait follows its post. *)
Definition pairing_inv (net : NeuralNet) (to_offload : list bool)
    (bound waited backed : nat) (pending_workers pending_prefetches : list nat)
    (m : Machine) : Prop :=
  (forall i,
     m_sem_sync_offload m !!! i + occurrences i (offload_waits (m_log m))
       + occurrences i pending_workers
     <= occurrences i (workers (m_log m))) /\
  (forall i,
     m_sem_prefetch_done m !!! i + occurrences i (prefetch_waits (m_log m))
       + occurrences i pending_prefetches
     <= occurrences i (prefetches (m_log m))) /\
  (forall i,
     occurrences i (workers (m_log m)) <= if i <? bound then 1 else 0) /\
  (forall i, i < waited -> to_offload !!! i = true ->
     1 <= occurrences i (offload_waits (m_log m))) /\
  (forall i, backed <= i -> i < num_layers net -> to_offload !!! i = true ->
     1 <= occurrences i (prefetch_waits (m_log m))) /\
  waits_follow (m_log m).

(** * Theorems *)

(** ** setOffload *)

Lemma mark_loop_length mark layer_type n i (to_offload : list bool) :
  length (mark_loop mark layer_type n i to_offload) = length to_offload.
Proof.
  revert i to_offload; induction n as [|n IH]; intros i to_offload; simpl.
  - reflexivity.
  - destruct (layer_type !! i); [|reflexivity].
    rewrite IH. apply length_insert.
Qed.

Lemma mark_loop_lookup mark layer_type n i (to_offload : list bool) j t :
  i + n <= length layer_type ->
  length to_offload = length layer_type ->
  layer_type !! j = Some t ->
  mark_loop mark layer_type n i to_offload !! j =
    if bool_decide (i <= j < i + n) then Some (mark t) else to_offload !! j.
Proof.
  revert i to_offload; induction n as [|n IH]; intros i to_offload Hn Hlen Hj; simpl.
  - rewrite bool_decide_eq_false_2 by lia. reflexivity.
  - destruct (layer_type !! i) as [u|] eqn:Hi.
    2:{ apply lookup_ge_None in Hi. lia. }
    rewrite IH; [|lia|rewrite length_insert; exact Hlen|exact Hj].
    destruct (decide (j = i)) as [->|Hne].
    + rewrite bool_decide_eq_false_2 by lia.
      rewrite bool_decide_eq_true_2 by lia.
      rewrite list_lookup_insert_eq.
      * congruence.
      * apply lookup_lt_Some in Hi. lia.
    + rewrite list_lookup_insert_ne by congruence.
      destruct (decide (i <= j < i + S n)) as [Hin|Hout].
      * rewrite !bool_decide_eq_true_2 by lia. reflexivity.
      * rewrite !bool_decide_eq_false_2 by lia. reflexivity.
Qed.

Lemma clear_last_length layer_type k (to_offload : list bool) :
  length (clear_last layer_type k to_offload) = length to_offload.
Proof.
  induction k as [|k IH]; simpl; [reflexivity|].
  destruct (layer_type !! k) as [t|]; [|reflexivity].
  destruct (is_actv_or_softmax t); [exact IH|apply length_insert].
Qed.

Lemma clear_last_lookup layer_type k (to_offload : list bool) i t :
  k <= length layer_type ->
  length to_offload = length layer_type ->
  layer_type !! i = Some t ->
  (i < k /\ is_actv_or_softmax t = false /\ fused_between layer_type i k ->
     clear_last layer_type k to_offload !! i = Some false) /\
  (~ (i < k /\ is_actv_or_softmax t = false /\ fused_between layer_type i k) ->
     clear_last layer_type k to_offload !! i = to_offload !! i).
Proof.
  intros Hk Hlen Hi. induction k as [|k IH]; simpl.
  - split; [lia|reflexivity].
  - destruct (layer_type !! k) as [u|] eqn:Hu.
    2:{ apply lookup_ge_None in Hu. lia. }
    destruct (IH ltac:(lia)) as [IH1 IH2].
    destruct (is_actv_or_softmax u) eqn:Eu.
    + split.
      * intros (Hlt & Ht & Hf). apply IH1.
        assert (i <> k) by (intros ->; congruence).
        split; [lia|]. split; [exact Ht|].
        intros j v Hj. apply Hf. lia.
      * intros Hn. apply IH2. intros (Hlt & Ht & Hf). apply Hn.
        split; [lia|]. split; [exact Ht|].
        intros j v Hj Hv. destruct (decide (j = k)) as [->|].
        -- congruence.
        -- eapply Hf; [|exact Hv]. lia.
    + split.
      * intros (Hlt & Ht & Hf).
        destruct (decide (i = k)) as [->|Hne].
        -- apply list_lookup_insert_eq. lia.
        -- exfalso. specialize (Hf k u ltac:(lia) Hu). congruence.
      * intros Hn. destruct (decide (i = k)) as [->|Hne].
        -- exfalso. apply Hn. split; [lia|]. split; [congruence|].
           intros j v Hj. lia.
        -- apply list_lookup_insert_ne. congruence.
Qed.

Lemma has_later_plain_false layer_type i :
  has_later_plain layer_type i = false <->
  fused_between layer_type i (length layer_type).
Proof.
  unfold has_later_plain, fused_between. split.
  - intros H j u Hj Hu.
    destruct (is_actv_or_softmax u) eqn:Eu; [reflexivity|].
    assert (existsb (fun t => negb (is_actv_or_softmax t))
              (drop (S i) layer_type) = true) as Hex; [|congruence].
    apply existsb_exists. exists u. split; [|rewrite Eu; reflexivity].
    apply list_elem_of_In, list_elem_of_lookup. exists (j - S i).
    rewrite lookup_drop. replace (S i + (j - S i)) with j by lia. exact Hu.
  - intros H. apply not_true_is_false. intros Hex.
    apply existsb_exists in Hex as (u & Hin & Hu).
    apply list_elem_of_In, list_elem_of_lookup in Hin as (n & Hn).
    rewrite lookup_drop in Hn.
    assert (S i + n < length layer_type) by (eapply lookup_lt_Some; exact Hn).
    rewrite (H (S i + n) u ltac:(lia) Hn) in Hu. discriminate.
Qed.

Lemma setOffload_length layer_type offload_type (to_offload : list bool) :
  length (setOffload layer_type offload_type to_offload) = length to_offload.
Proof.
  destruct offload_type; unfold setOffload;
    rewrite ?clear_last_length, mark_loop_length; reflexivity.
Qed.

Lemma setOffload_lookup layer_type offload_type (to_offload : list bool) i t :
  length to_offload = length layer_type ->
  layer_type !! i = Some t ->
  setOffload layer_type offload_type to_offload !! i =
    Some (offload_policy_flag layer_type offload_type i t).
Proof.
  intros Hlen Hi.
  assert (i < length layer_type) as Hlt by (eapply lookup_lt_Some; exact Hi).
  assert (forall mark,
    clear_last layer_type (length layer_type)
      (mark_loop mark layer_type (length layer_type) 0 to_offload) !! i =
    Some (mark t && (negb (is_actv_or_softmax t) || true)
          && (is_actv_or_softmax t || has_later_plain layer_type i))) as Hgen.
  { intros mark.
    pose proof (clear_last_lookup layer_type (length layer_type)
      (mark_loop mark layer_type (length layer_type) 0 to_offload) i t
      (le_n _) ltac:(rewrite mark_loop_length; exact Hlen) Hi) as [H1 H2].
    pose proof (has_later_plain_false layer_type i) as Hp.
    destruct (is_actv_or_softmax t) eqn:Et.
    - rewrite H2 by (intros (_ & ? & _); congruence).
      rewrite mark_loop_lookup with (t := t); [|lia|exact Hlen|exact Hi].
      rewrite bool_decide_eq_true_2 by lia. simpl.
      rewrite !andb_true_r. reflexivity.
    - destruct (has_later_plain layer_type i) eqn:El.
      + rewrite H2.
        * rewrite mark_loop_lookup with (t := t); [|lia|exact Hlen|exact Hi].
          rewrite bool_decide_eq_true_2 by lia. simpl.
          rewrite !andb_true_r. reflexivity.
        * intros (_ & _ & Hf). apply Hp in Hf. congruence.
      + rewrite H1.
        * simpl. rewrite !andb_false_r. reflexivity.
        * split; [lia|]. split; [reflexivity|]. apply Hp. reflexivity. }
  destruct offload_type; unfold setOffload, offload_policy_flag.
  - rewrite Hgen. destruct (is_actv_or_softmax t); simpl; reflexivity.
  - rewrite mark_loop_lookup with (t := t); [|lia|exact Hlen|exact Hi].
    rewrite bool_decide_eq_true_2 by lia. reflexivity.
  - rewrite Hgen. destruct t; simpl; try reflexivity;
      destruct (has_later_plain layer_type i); reflexivity.
Qed.

(** C4. [setOffload] with the "all" policy marks exactly the layers that are
    neither Activation nor Softmax, except the last such layer; with the
    "conv-only" policy exactly the Convolution layers, with the same
    exception; hence under every policy an Activation or Softmax layer and
    the last layer that is neither are left unmarked. *)
Theorem setOffload_marks_exactly (layer_type : list LayerOp)
    (to_offload : list bool) (i : nat) (t : LayerOp) :
  length to_offload = length layer_type ->
  layer_type !! i = Some t ->
  setOffload layer_type OFFLOAD_ALL to_offload !! i =
    Some (negb (is_actv_or_softmax t) && has_later_plain layer_type i) /\
  setOffload layer_type OFFLOAD_CONV to_offload !! i =
    Some (is_conv t && has_later_plain layer_type i) /\
  (forall offload_type,
     is_actv_or_softmax t = true \/
     (is_actv_or_softmax t = false /\
      fused_between layer_type i (length layer_type)) ->
     setOffload layer_type offload_type to_offload !! i = Some false).
Proof.
  intros Hlen Hi. split; [|split].
  - apply (setOffload_lookup layer_type OFFLOAD_ALL); assumption.
  - apply (setOffload_lookup layer_type OFFLOAD_CONV); assumption.
  - intros offload_type Hcase.
    rewrite (setOffload_lookup layer_type offload_type to_offload i t Hlen Hi).
    f_equal. destruct Hcase as [Ht|[Ht Hf]].
    + destruct offload_type, t; simpl in *; try reflexivity; discriminate.
    + apply has_later_plain_false in Hf.
      destruct offload_type; simpl; rewrite ?Hf, ?andb_false_r; reflexivity.
Qed.

Lemma setOffload_marks_exactly_witness :
  let layer_type := [CONV; ACTV; POOLING; CONV; FULLY_CONNECTED; SOFTMAX] in
  let to_offload := [true; true; false; true; true; true] in
  setOffload layer_type OFFLOAD_ALL to_offload !! 2 = Some true /\
  setOffload layer_type OFFLOAD_CONV to_offload !! 2 = Some false /\
  setOffload layer_type OFFLOAD_ALL to_offload
    = [true; false; true; true; false; false] /\
  setOffload layer_type OFFLOAD_CONV to_offload
    = [true; false; false; true; false; false].
Proof.
  intros layer_type to_offload.
  destruct (setOffload_marks_exactly layer_type to_offload 2 POOLING
              eq_refl eq_refl) as (Hall & Hconv & _).
  split; [exact Hall|]. split; [exact Hconv|]. split; reflexivity.
Defined.

(** ** findPrefetchLayer *)

Lemma findPrefetchLayer_found layer_type to_offload prefetched k j :
  j < k ->
  awaiting_prefetch to_offload prefetched j = true ->
  (forall i, j < i < k ->
     awaiting_prefetch to_offload prefetched i = false /\
     layer_type !! i <> Some CONV) ->
  findPrefetchLayer layer_type to_offload prefetched k =
    (<[j := true]> prefetched, Some j).
Proof.
  unfold awaiting_prefetch. intros Hjk Hj Hbetween.
  induction k as [|k IH]; [lia|]. simpl.
  destruct (decide (j = k)) as [->|Hne].
  - rewrite Hj. reflexivity.
  - destruct (Hbetween k ltac:(lia)) as [Hk Hconv].
    rewrite Hk. rewrite bool_decide_eq_false_2 by exact Hconv.
    apply IH; [lia|]. intros i Hi. apply Hbetween. lia.
Qed.

Lemma findPrefetchLayer_conv_first layer_type to_offload prefetched k c :
  c < k ->
  layer_type !! c = Some CONV ->
  (forall i, c <= i < k -> awaiting_prefetch to_offload prefetched i = false) ->
  findPrefetchLayer layer_type to_offload prefetched k = (prefetched, None).
Proof.
  unfold awaiting_prefetch. intros Hck Hc Hnone.
  induction k as [|k IH]; [lia|]. simpl.
  rewrite (Hnone k ltac:(lia)).
  destruct (decide (c = k)) as [->|Hne].
  - rewrite bool_decide_eq_true_2 by exact Hc. reflexivity.
  - destruct (bool_decide (layer_type !! k = Some CONV)); [reflexivity|].
    apply IH; [lia|]. intros i Hi. apply Hnone. lia.
Qed.

Lemma findPrefetchLayer_no_candidate layer_type to_offload prefetched k :
  (forall j, j < k -> awaiting_prefetch to_offload prefetched j = false) ->
  findPrefetchLayer layer_type to_offload prefetched k = (prefetched, None).
Proof.
  unfold awaiting_prefetch. intros Hnone.
  induction k as [|k IH]; [reflexivity|]. simpl.
  rewrite (Hnone k ltac:(lia)).
  destruct (bool_decide (layer_type !! k = Some CONV)); [reflexivity|].
  apply IH. intros j Hj. apply Hnone. lia.
Qed.

(** C5. [findPrefetchLayer cur_layer] returns the largest [j < cur_layer]
    that is marked for offload and not yet prefetched (and flags it as
    prefetched) when no Convolution layer is scanned before it; it returns
    "none" when a Convolution layer is met in the scan from [cur_layer - 1]
    downward before any such layer, and when no such layer exists. *)
Theorem findPrefetchLayer_decision (layer_type : list LayerOp)
    (to_offload prefetched : list bool) (cur_layer : nat) :
  cur_layer <= length layer_type ->
  length to_offload = length layer_type ->
  length prefetched = length layer_type ->
  (forall j, j < cur_layer ->
     awaiting_prefetch to_offload prefetched j = true ->
     (forall i, j < i < cur_layer ->
        awaiting_prefetch to_offload prefetched i = false) ->
     (forall i, j < i < cur_layer -> layer_type !! i <> Some CONV) ->
     findPrefetchLayer layer_type to_offload prefetched cur_layer =
       (<[j := true]> prefetched, Some j)) /\
  (forall c, c < cur_layer ->
     layer_type !! c = Some CONV ->
     (forall i, c <= i < cur_layer ->
        awaiting_prefetch to_offload prefetched i = false) ->
     findPrefetchLayer layer_type to_offload prefetched cur_layer =
       (prefetched, None)) /\
  ((forall j, j < cur_layer ->
      awaiting_prefetch to_offload prefetched j = false) ->
   findPrefetchLayer layer_type to_offload prefetched cur_layer =
     (prefetched, None)).
Proof.
  intros _ _ _. split; [|split].
  - intros j Hj Hc Hlargest Hnoconv.
    apply findPrefetchLayer_found; [exact Hj|exact Hc|].
    intros i Hi. split; [apply Hlargest|apply Hnoconv]; exact Hi.
  - intros c Hc Hconv Hnone.
    eapply findPrefetchLayer_conv_first; eassumption.
  - apply findPrefetchLayer_no_candidate.
Qed.

Lemma findPrefetchLayer_decision_witness :
  let layer_type := [CONV; POOLING; CONV; POOLING; FULLY_CONNECTED; SOFTMAX] in
  let to_offload := [true; false; true; false; false; false] in
  findPrefetchLayer layer_type to_offload
    [false; false; false; false; false; false] 4
    = ([false; false; true; false; false; false], Some 2) /\
  findPrefetchLayer layer_type to_offload
    [false; false; true; false; false; false] 3
    = ([false; false; true; false; false; false], None) /\
  findPrefetchLayer layer_type to_offload
    [true; false; true; false; false; false] 2
    = ([true; false; true; false; false; false], None).
Proof.
  intros layer_type to_offload. split; [|split].
  - refine (proj1 (findPrefetchLayer_decision layer_type to_offload
      [false; false; false; false; false; false] 4 _ eq_refl eq_refl)
      2 _ eq_refl _ _).
    + simpl; lia.
    + lia.
    + intros i Hi. assert (i = 3) as -> by lia. reflexivity.
    + intros i Hi. assert (i = 3) as -> by lia. discriminate.
  - refine (proj1 (proj2 (findPrefetchLayer_decision layer_type to_offload
      [false; false; true; false; false; false] 3 _ eq_refl eq_refl))
      2 _ eq_refl _).
    + simpl; lia.
    + lia.
    + intros i Hi. assert (i = 2) as -> by lia. reflexivity.
  - refine (proj2 (proj2 (findPrefetchLayer_decision layer_type to_offload
      [true; false; true; false; false; false] 2 _ eq_refl eq_refl)) _).
    + simpl; lia.
    + intros j Hj. destruct j as [|[|j]]; [reflexivity|reflexivity|lia].
Defined.

(** ** vDNNOptimize *)

Lemma setOffload_policy_flags layer_type o (flags : list bool) :
  length flags = length layer_type ->
  setOffload layer_type o flags = policy_flags layer_type o.
Proof.
  intros Hlen. apply list_eq. intros i. unfold policy_flags.
  rewrite list_lookup_imap.
  destruct (layer_type !! i) as [t|] eqn:Hi; simpl.
  - apply setOffload_lookup; assumption.
  - apply lookup_ge_None. rewrite setOffload_length.
    apply lookup_ge_None in Hi. lia.
Qed.

Lemma resetPrefetched_all_false layer_type (flags : list bool) :
  length flags = length layer_type ->
  resetPrefetched layer_type flags = replicate (length layer_type) false.
Proof.
  intros Hlen. apply list_eq. intros i. unfold resetPrefetched.
  destruct (layer_type !! i) as [t|] eqn:Hi.
  - rewrite mark_loop_lookup with (t := t); [|lia|exact Hlen|exact Hi].
    apply lookup_lt_Some in Hi.
    rewrite bool_decide_eq_true_2 by lia.
    symmetry. apply lookup_replicate_2. exact Hi.
  - apply lookup_ge_None in Hi.
    rewrite (proj2 (lookup_ge_None _ _)) by (rewrite mark_loop_length; lia).
    symmetry. apply lookup_ge_None. rewrite length_replicate. exact Hi.
Qed.

Lemma simulate_candidate_spec layer_type (simulate : Simulator) c st :
  (forall flags pf p h, length (snd (simulate flags pf p h)) = length pf) ->
  plan_arrays_ok layer_type st ->
  exists st',
    simulate_candidate layer_type simulate c st =
      (confirms layer_type simulate c, st') /\
    plan_arrays_ok layer_type st' /\
    tried st' = tried st ++ [c] /\
    to_offload st' = policy_flags layer_type (cand_offload c).
Proof.
  intros Hsim [Hto Hpf]. unfold simulate_candidate, confirms.
  rewrite (setOffload_policy_flags _ _ _ Hto).
  rewrite (resetPrefetched_all_false _ _ Hpf).
  pose proof (Hsim (policy_flags layer_type (cand_offload c))
                (replicate (length layer_type) false)
                (cand_pref c) (cand_hard c)) as Hl.
  destruct (simulate _ _ _ _) as [[ok [e m]] pf'']. simpl in *.
  eexists. split; [reflexivity|]. split; [|split; reflexivity].
  split; simpl.
  - unfold policy_flags. apply length_imap.
  - rewrite Hl. apply length_replicate.
Qed.

Ltac plan_step Hsim c :=
  match goal with
  | Hinv : plan_arrays_ok _ ?s |- context [simulate_candidate _ _ c ?s] =>
      let st' := fresh "st" in
      let Hs := fresh "Hs" in
      let Hinv' := fresh "Hinv" in
      let Ht := fresh "Htried" in
      let Hf := fresh "Hflags" in
      destruct (simulate_candidate_spec _ _ c s Hsim Hinv)
        as (st' & Hs & Hinv' & Ht & Hf);
      rewrite Hs; clear Hs Hinv; cbv beta iota; simpl negb
  end.

Ltac plan_close :=
  cbv beta iota; simpl fst; simpl snd; simpl nth; split; [reflexivity|]; split;
  [ repeat match goal with H : tried _ = _ |- _ => rewrite H; clear H end;
    rewrite <- ?app_assoc; reflexivity
  | assumption ].

(** The dynamic branch of [vDNNOptimize] computes [choose_plan]. *)
Lemma vDNNOptimize_dyn_choose_plan layer_type (simulate : Simulator)
    vdnn_conv_algo st :
  (forall flags pf p h, length (snd (simulate flags pf p h)) = length pf) ->
  plan_arrays_ok layer_type st ->
  let r := vDNNOptimize layer_type simulate vDNN_DYN vdnn_conv_algo st in
  let plan := choose_plan (confirms layer_type simulate) in
  fst r = fst plan /\
  tried (snd r) = tried st ++ take (S (snd plan)) priority_table /\
  to_offload (snd r) =
    policy_flags layer_type
      (cand_offload (nth (snd plan) priority_table
                       (mkCandidate OFFLOAD_NONE PREFER_MEMORY_OPTIMAL true))).
Proof.
  intros Hsim Hst. unfold vDNNOptimize, choose_plan, priority_table, outOfMemory.
  simpl first_confirmed.
  plan_step Hsim (mkCandidate OFFLOAD_ALL PREFER_MEMORY_OPTIMAL true).
  destruct (confirms layer_type simulate
              (mkCandidate OFFLOAD_ALL PREFER_MEMORY_OPTIMAL true)) eqn:Hv1;
    [|plan_close].
  simpl negb. cbv iota.
  plan_step Hsim (mkCandidate OFFLOAD_NONE PREFER_PERFORMANCE_OPTIMAL true).
  destruct (confirms _ _ (mkCandidate OFFLOAD_NONE _ _)); [plan_close|].
  plan_step Hsim (mkCandidate OFFLOAD_CONV PREFER_PERFORMANCE_OPTIMAL true).
  destruct (confirms _ _ (mkCandidate OFFLOAD_CONV PREFER_PERFORMANCE_OPTIMAL true));
    [plan_close|].
  plan_step Hsim (mkCandidate OFFLOAD_ALL PREFER_PERFORMANCE_OPTIMAL true).
  destruct (confirms _ _ (mkCandidate OFFLOAD_ALL PREFER_PERFORMANCE_OPTIMAL true));
    [plan_close|].
  plan_step Hsim (mkCandidate OFFLOAD_CONV PREFER_PERFORMANCE_OPTIMAL false).
  destruct (confirms _ _ (mkCandidate OFFLOAD_CONV PREFER_PERFORMANCE_OPTIMAL false));
    [plan_close|].
  plan_step Hsim (mkCandidate OFFLOAD_ALL PREFER_PERFORMANCE_OPTIMAL false).
  destruct (confirms _ _ (mkCandidate OFFLOAD_ALL PREFER_PERFORMANCE_OPTIMAL false));
    [plan_close|].
  plan_step Hsim (mkCandidate OFFLOAD_CONV PREFER_MEMORY_OPTIMAL true).
  destruct (confirms _ _ (mkCandidate OFFLOAD_CONV PREFER_MEMORY_OPTIMAL true));
    [plan_close|].
  plan_step Hsim (mkCandidate OFFLOAD_ALL PREFER_MEMORY_OPTIMAL true).
  rewrite Hv1. plan_close.
Qed.

Ltac plan_rows_before :=
  let m := fresh "m" in let c' := fresh "c'" in
  let Hm := fresh "Hm" in let Hc := fresh "Hc" in
  intros m c' Hm Hc;
  do 8 (destruct m as [|m];
        [first [lia | injection Hc as <-; assumption]|]);
  lia.


(** ** Rules for steps *)

Lemma hoare_ret {A} (P : Machine -> Prop) (a : A) Q R :
  (forall m, P m -> Q a m) -> hoare P (ret a) Q R.
Proof. intros H m Hm. simpl. auto. Qed.

Lemma hoare_halt {A} (P : Machine -> Prop) h (Q : A -> Machine -> Prop) R :
  (forall m, P m -> R m) -> hoare P (halt h) Q R.
Proof. intros H m Hm. simpl. auto. Qed.

Lemma hoare_bind {A B} P (e : Exec A) (k : A -> Exec B) Q1 Q R :
  hoare P e Q1 R ->
  (forall a, hoare (Q1 a) (k a) Q R) ->
  hoare P (bind e k) Q R.
Proof.
  intros He Hk m Hm. unfold bind. specialize (He m Hm).
  destruct (e m) as [[a|h] m']; [|exact He].
  apply (Hk a m' He).
Qed.

Lemma hoare_conseq {A} (P P' : Machine -> Prop) (e : Exec A)
    (Q Q' : A -> Machine -> Prop) (R R' : Machine -> Prop) :
  hoare P' e Q' R' ->
  (forall m, P m -> P' m) ->
  (forall a m, Q' a m -> Q a m) ->
  (forall m, R' m -> R m) ->
  hoare P e Q R.
Proof.
  intros He HP HQ HR m Hm. specialize (He m (HP m Hm)).
  destruct (e m) as [[a|h] m']; auto.
Qed.

Lemma hoare_get P R : hoare P get (fun m0 m => m = m0 /\ P m) R.
Proof. intros m Hm. simpl. auto. Qed.

Lemma hoare_when P (b : bool) (e : Exec unit) Q R :
  (b = true -> hoare P e Q R) ->
  (b = false -> forall m, P m -> Q tt m) ->
  hoare P (when b e) Q R.
Proof.
  intros He Hskip. destruct b; simpl.
  - apply He. reflexivity.
  - apply hoare_ret. apply Hskip. reflexivity.
Qed.

Lemma preserves_ret {A} I (a : A) : preserves I (ret a).
Proof. apply hoare_ret. auto. Qed.

Lemma preserves_halt {A} I h : preserves I (@halt A h).
Proof. apply hoare_halt. auto. Qed.

Lemma preserves_bind {A B} I (e : Exec A) (k : A -> Exec B) :
  preserves I e -> (forall a, preserves I (k a)) -> preserves I (bind e k).
Proof. intros He Hk. eapply hoare_bind; [exact He|exact Hk]. Qed.

Lemma preserves_when I b (e : Exec unit) :
  preserves I e -> preserves I (when b e).
Proof. intros He. destruct b; [exact He|apply preserves_ret]. Qed.

Lemma preserves_get I : preserves I get.
Proof. intros m Hm. exact Hm. Qed.

Lemma hoare_bind_inv {A B} (I : Machine -> Prop) (e : Exec A)
    (k : A -> Exec B) Q R :
  hoare I e (fun _ => I) R ->
  (forall a, hoare I (k a) Q R) ->
  hoare I (bind e k) Q R.
Proof. intros He Hk. eapply hoare_bind; [exact He|exact Hk]. Qed.

Lemma preserves_weaken {A} (I : Machine -> Prop) (e : Exec A) :
  preserves I e -> hoare I e (fun _ => I) (fun _ => True).
Proof. intros H. eapply hoare_conseq; [exact H|auto|auto|auto]. Qed.

(** A step that keeps [I] can be used under any stronger precondition. *)
Lemma preserves_hoare {A} (I : Machine -> Prop) (e : Exec A) :
  preserves I e -> hoare I e (fun _ => I) I.
Proof. auto. Qed.

(** Structural steps of a [preserves] goal. *)
Ltac preserves_struct :=
  repeat (cbv zeta; lazymatch goal with
  | |- preserves _ (ret _) => apply preserves_ret
  | |- preserves _ (halt _) => apply preserves_halt
  | |- preserves _ get => apply preserves_get
  | |- preserves _ (when _ _) => apply preserves_when
  | |- preserves _ (bind _ _) => apply preserves_bind; [|intros ?]
  end).

(** ** The alias rule of the backward pass *)

Section GradAlias.
Variable net : NeuralNet.

Local Abbreviation G := (grad_inv net).

Lemma grad_emit ev : grad_event_ok net ev -> preserves G (emit ev).
Proof.
  intros Hev m [Hlen Hlog]. simpl. split; [exact Hlen|].
  constructor; assumption.
Qed.

Lemma grad_set_pool p : preserves G (set_pool p).
Proof. intros m HG. exact HG. Qed.

Lemma grad_set_prefetched pf : preserves G (set_prefetched pf).
Proof. intros m HG. exact HG. Qed.

Lemma grad_set_sems so sp : preserves G (set_sems so sp).
Proof. intros m HG. exact HG. Qed.

Lemma grad_updateSpace op size : preserves G (updateSpace op size).
Proof. intros m HG. exact HG. Qed.

Lemma grad_store b v : preserves G (store b v).
Proof.
  intros m [Hlen Hlog]. destruct b; split; simpl;
    rewrite ?length_insert; assumption.
Qed.

Lemma grad_checked_malloc b size :
  plain_target net b -> preserves G (checked_malloc b size).
Proof.
  intros Hb. unfold checked_malloc. apply preserves_bind; [apply preserves_get|].
  intros m. destruct (cnmemMalloc size (m_pool m)) as [[[] [q|]] pool'];
    preserves_struct;
    auto using grad_set_pool, grad_store.
  apply grad_emit. destruct b; simpl; auto.
Qed.

Lemma grad_lockedcnmemMalloc b size :
  plain_target net b -> preserves G (lockedcnmemMalloc b size).
Proof.
  intros Hb. unfold lockedcnmemMalloc.
  apply preserves_bind; [apply preserves_get|].
  intros m. destruct (cnmemMalloc size (m_pool m)) as [[[] [q|]] pool'];
    preserves_struct;
    auto using grad_set_pool, grad_store.
  apply grad_emit. destruct b; simpl; auto.
Qed.

Lemma grad_checked_free q : preserves G (checked_free q).
Proof.
  unfold checked_free. apply preserves_bind; [apply preserves_get|].
  intros m. destruct (cnmemFree q (m_pool m)) as [[[] size] pool'];
    preserves_struct; auto using grad_set_pool.
  apply grad_emit. exact I.
Qed.

Create HintDb grad discriminated.
Hint Resolve grad_set_pool grad_set_prefetched grad_set_sems
  grad_updateSpace grad_store grad_checked_free : grad.
Hint Extern 1 (preserves _ (emit _)) => (apply grad_emit; exact I) : grad.
Hint Extern 1 (preserves _ (checked_malloc _ _)) =>
  (apply grad_checked_malloc; exact I) : grad.
Hint Extern 1 (preserves _ (lockedcnmemMalloc _ _)) =>
  (apply grad_lockedcnmemMalloc; exact I) : grad.

Ltac grad_auto := preserves_struct; auto with grad.

Lemma grad_lockedcnmemFree q : preserves G (lockedcnmemFree q).
Proof. apply grad_checked_free. Qed.

Lemma grad_sem_wait_offload i : preserves G (sem_wait_offload i).
Proof.
  unfold sem_wait_offload. apply preserves_bind; [apply preserves_get|].
  intros m. destruct (m_sem_sync_offload m !!! i); grad_auto.
Qed.

Lemma grad_sem_wait_prefetch i : preserves G (sem_wait_prefetch i).
Proof.
  unfold sem_wait_prefetch. apply preserves_bind; [apply preserves_get|].
  intros m. destruct (m_sem_prefetch_done m !!! i); grad_auto.
Qed.

Lemma grad_threadFreeLayerInputFunction i :
  preserves G (threadFreeLayerInputFunction i).
Proof.
  unfold threadFreeLayerInputFunction. grad_auto.
Qed.

Lemma grad_issue_prefetch j : preserves G (issue_prefetch j).
Proof. unfold issue_prefetch. grad_auto. Qed.

Lemma grad_cnmemAllocDerivatives i w b :
  preserves G (cnmemAllocDerivatives i w b).
Proof. unfold cnmemAllocDerivatives. grad_auto. Qed.

Lemma grad_cnmemFreeDerivatives i : preserves G (cnmemFreeDerivatives i).
Proof. unfold cnmemFreeDerivatives. grad_auto. Qed.

Hint Resolve grad_lockedcnmemFree grad_sem_wait_offload
  grad_sem_wait_prefetch grad_threadFreeLayerInputFunction
  grad_issue_prefetch grad_cnmemAllocDerivatives
  grad_cnmemFreeDerivatives : grad.

Variable to_offload : list bool.
Variable train : bool.

Lemma grad_release_layer i : preserves G (release_layer net i).
Proof. unfold release_layer. grad_auto. Qed.

Lemma grad_forward_compute i : preserves G (forward_compute net i).
Proof.
  unfold forward_compute. destruct (params net !! i) as [[]|]; grad_auto.
Qed.

Hint Resolve grad_release_layer grad_forward_compute : grad.

Lemma grad_forward_layer i :
  preserves G (forward_layer net to_offload train i).
Proof. unfold forward_layer. grad_auto. Qed.

Lemma grad_forward_loop fuel i :
  preserves G (forward_loop net to_offload train fuel i).
Proof.
  revert i. induction fuel as [|fuel IH]; intros i; simpl.
  - apply preserves_ret.
  - destruct (negb (i <? num_layers net)); [apply preserves_ret|].
    destruct (negb train && (i =? num_layers net - 1));
      [apply preserves_ret|].
    apply preserves_bind; [apply grad_forward_layer|intros i'; apply IH].
Qed.

Lemma grad_wait_offloads n i : preserves G (wait_offloads to_offload n i).
Proof.
  revert i. induction n as [|n IH]; intros i; simpl; grad_auto.
Qed.

Lemma is_fused_params i p :
  params net !! i = Some p ->
  is_fused net i = is_actv_or_softmax (params_type p).
Proof.
  intros Hp. unfold is_fused, type_is, layer_types.
  rewrite list_lookup_fmap, Hp. simpl.
  destruct p; simpl; reflexivity.
Qed.

(** After the gradient cell of a layer [i > 0] is set up, an Activation or
    Softmax layer has [dlayer_input[i]] equal to [dlayer_input[i + 1]]. *)
Lemma grad_backward_grad i :
  i < num_layers net ->
  hoare G (backward_grad net to_offload i)
    (fun _ m => G m /\
       (is_fused net i = true ->
        m_dlayer_input m !!! i = m_dlayer_input m !!! S i))
    G.
Proof.
  intros Hi. unfold backward_grad. fold (is_fused net i).
  destruct (is_fused net i) eqn:Hf.
  - intros m [Hlen Hlog]. simpl. split; [split|]; simpl.
    + rewrite length_insert. exact Hlen.
    + exact Hlog.
    + intros _. rewrite list_lookup_total_insert_eq by lia.
      rewrite list_lookup_total_insert_ne by lia. reflexivity.
  - eapply hoare_conseq with (P' := G) (Q' := fun _ => G) (R' := G);
      [|auto|intros a m Hm; split; [exact Hm|discriminate]|auto].
    apply preserves_hoare.
    apply preserves_bind; [apply preserves_get|]. intros m.
    destruct (findPrefetchLayer _ _ _ _) as [pf [j|]]; preserves_struct;
      auto with grad; apply grad_checked_malloc; simpl; try exact I;
      exact Hf.
Qed.

Lemma grad_emit_backward i :
  hoare (fun m => G m /\
           (0 < i -> is_fused net i = true ->
            m_dlayer_input m !!! i = m_dlayer_input m !!! S i))
    (emit_backward i) (fun _ => G) G.
Proof.
  intros m [[Hlen Hlog] Halias]. simpl. split; [exact Hlen|].
  constructor; [|exact Hlog]. simpl. exact Halias.
Qed.

Lemma grad_emit_backward_plain i :
  is_fused net i = false -> preserves G (emit_backward i).
Proof.
  intros Hf. eapply hoare_conseq; [apply grad_emit_backward| |auto|auto].
  intros m Hm. split; [exact Hm|]. intros _ Hc. congruence.
Qed.

Lemma grad_backward_layer i :
  i < num_layers net ->
  preserves G (backward_layer net to_offload train i).
Proof.
  intros Hlt. unfold backward_layer.
  apply preserves_bind; [grad_auto|intros _].
  eapply hoare_bind with
    (Q1 := fun _ m => G m /\
       (0 < i -> is_fused net i = true ->
        m_dlayer_input m !!! i = m_dlayer_input m !!! S i)).
  { apply hoare_when.
    - intros _.
      eapply hoare_conseq; [apply grad_backward_grad; exact Hlt|auto| |auto].
      intros a m [Hm Ha]. split; [exact Hm|intros _; exact Ha].
    - intros Hi m Hm. split; [exact Hm|].
      intros Hpos. apply bool_decide_eq_false in Hi. lia. }
  intros _.
  destruct (params net !! i) as [p|] eqn:Hp.
  2:{ apply hoare_ret. intros m [Hm _]. exact Hm. }
  pose proof (is_fused_params i p Hp) as Hf.
  destruct p; simpl in Hf;
    lazymatch goal with
    | |- hoare _ (emit_backward _) _ _ => apply grad_emit_backward
    | |- _ =>
        eapply hoare_conseq with (P' := G) (Q' := fun _ => G) (R' := G);
        [|intros m [Hm _]; exact Hm|auto|auto];
        apply preserves_hoare; preserves_struct; auto with grad;
        apply grad_emit_backward_plain; exact Hf
    end.
Qed.

Lemma grad_backward_loop k :
  k <= num_layers net ->
  preserves G (backward_loop net to_offload train k).
Proof.
  induction k as [|k IH]; intros Hk; simpl; [apply preserves_ret|].
  apply preserves_bind; [apply grad_backward_layer; lia|].
  intros _. apply IH. lia.
Qed.

Lemma is_fused_out_of_range i :
  num_layers net <= i -> is_fused net i = false.
Proof.
  intros Hi. unfold is_fused, type_is.
  rewrite !bool_decide_eq_false_2; [reflexivity| |];
    rewrite (proj2 (lookup_ge_None _ _)); try discriminate;
    unfold layer_types; rewrite length_map; exact Hi.
Qed.

Lemma grad_getLoss : preserves G (getLoss net to_offload train).
Proof.
  unfold getLoss.
  apply preserves_bind; [apply preserves_get|intros m0].
  apply preserves_bind; [auto with grad|intros _].
  apply preserves_bind; [auto with grad|intros _].
  apply preserves_bind; [auto with grad|intros _].
  apply preserves_bind; [apply grad_forward_loop|intros _].
  destruct (negb train).
  - grad_auto.
  - apply preserves_bind; [apply grad_wait_offloads|intros _].
    apply preserves_bind; [auto with grad|intros _].
    apply preserves_bind.
    { apply grad_checked_malloc. simpl. apply is_fused_out_of_range. lia. }
    intros _.
    apply preserves_bind; [auto with grad|intros _].
    apply grad_backward_loop. lia.
Qed.
End GradAlias.




(** ** The pool bounds the device bytes of a step *)

Lemma remove_block_spec q blocks size rest :
  remove_block q blocks = Some (size, rest) ->
  blocks_bytes blocks = (size + blocks_bytes rest)%Z /\
  (Forall (fun b => (0 <= snd b)%Z) blocks ->
   (0 <= size)%Z /\ Forall (fun b => (0 <= snd b)%Z) rest).
Proof.
  revert size rest. induction blocks as [|b blocks IH]; intros size rest; simpl.
  - discriminate.
  - destruct (Nat.eqb (fst b) q).
    + intros [= <- <-]. split; [reflexivity|].
      intros Hall. inversion Hall; subst. split; assumption.
    + destruct (remove_block q blocks) as [[size' rest']|]; [|discriminate].
      intros [= <- <-]. destruct (IH size' rest' eq_refl) as [Hb Hall].
      split; [simpl; lia|].
      intros H. inversion H; subst. destruct (Hall ltac:(assumption)).
      split; [assumption|]. constructor; assumption.
Qed.

Lemma consumed_le_peak log : (consumed log <= peak log)%Z.
Proof. destruct log; simpl; lia. Qed.

Section PoolBound.
Variable capacity : Z.

Local Abbreviation B := (pool_inv capacity).

Lemma pool_emit_neutral ev :
  event_bytes ev = 0%Z -> preserves B (emit ev).
Proof.
  intros Hev m (Hg & Ht & Hb & Hu & Hp). unfold emit, pool_inv. simpl.
  rewrite Hev. repeat split; try assumption.
  pose proof (consumed_le_peak (m_log m)). lia.
Qed.

Lemma pool_set_prefetched pf : preserves B (set_prefetched pf).
Proof. intros m H. exact H. Qed.

Lemma pool_set_sems so sp : preserves B (set_sems so sp).
Proof. intros m H. exact H. Qed.

Lemma pool_updateSpace op size : preserves B (updateSpace op size).
Proof. intros m H. exact H. Qed.

Lemma pool_store b v : preserves B (store b v).
Proof. intros m H. destruct b; exact H. Qed.

(** A successful request, its cell and its log entry, taken together. *)
Lemma pool_malloc_ok b size m q pool' :
  B m ->
  cnmemMalloc size (m_pool m) = (CNMEM_STATUS_SUCCESS, Some q, pool') ->
  B (snd ((set_pool pool';;; store b (Some q);;; emit (EvMalloc b q size);;;
           ret (Some q)) m)).
Proof.
  intros (Hg & Ht & Hb & Hu & Hp) Hm. unfold cnmemMalloc in Hm.
  rewrite Hg in Hm.
  destruct (size <? 0)%Z eqn:Hneg; [discriminate|].
  destruct (pool_used (m_pool m) + size <=? pool_total (m_pool m))%Z eqn:Hfit;
    [|discriminate].
  injection Hm as <- <-.
  apply Z.ltb_ge in Hneg. apply Z.leb_le in Hfit.
  pose proof (consumed_le_peak (m_log m)).
  unfold pool_inv, pool_used in *. destruct b; simpl;
    (split; [reflexivity|]; split; [assumption|];
     split; [constructor; simpl; assumption|]; split; lia).
Qed.

Lemma pool_free_ok q m size pool' :
  B m ->
  cnmemFree q (m_pool m) = (CNMEM_STATUS_SUCCESS, size, pool') ->
  B (snd ((set_pool pool';;; emit (EvFree (default 0 q) size)) m)).
Proof.
  intros (Hg & Ht & Hb & Hu & Hp) Hf. unfold cnmemFree in Hf.
  destruct q as [q|]; [|discriminate].
  destruct (remove_block q (pool_blocks (m_pool m))) as [[sz rest]|] eqn:Hr;
    [|discriminate].
  injection Hf as <- <-.
  destruct (remove_block_spec _ _ _ _ Hr) as [Hbytes Hall].
  destruct (Hall Hb) as [Hsz Hrest].
  pose proof (consumed_le_peak (m_log m)).
  unfold pool_inv, pool_used in *. simpl.
  split; [assumption|]; split; [assumption|];
    split; [assumption|]; split; lia.
Qed.

Lemma pool_checked_malloc b size : preserves B (checked_malloc b size).
Proof.
  intros m Hm. unfold checked_malloc, bind at 1, get.
  destruct (cnmemMalloc size (m_pool m)) as [[[] [q|]] pool'] eqn:Hc;
    try exact Hm.
  pose proof (pool_malloc_ok b size m q pool' Hm Hc) as H.
  destruct ((set_pool pool';;; store b (Some q);;; emit (EvMalloc b q size);;;
             ret (Some q)) m) as [[a|h] m']; exact H.
Qed.

Lemma pool_lockedcnmemMalloc b size : preserves B (lockedcnmemMalloc b size).
Proof.
  intros m Hm. unfold lockedcnmemMalloc, bind at 1, get.
  destruct (cnmemMalloc size (m_pool m)) as [[[] [q|]] pool'] eqn:Hc;
    try exact Hm.
  pose proof (pool_malloc_ok b size m q pool' Hm Hc) as H.
  destruct ((set_pool pool';;; store b (Some q);;; emit (EvMalloc b q size);;;
             ret (Some q)) m) as [[a|h] m']; exact H.
Qed.

Lemma pool_checked_free q : preserves B (checked_free q).
Proof.
  intros m Hm. unfold checked_free, bind at 1, get.
  destruct (cnmemFree q (m_pool m)) as [[[] size] pool'] eqn:Hc;
    try exact Hm.
  pose proof (pool_free_ok q m size pool' Hm Hc) as H.
  destruct ((set_pool pool';;; emit (EvFree (default 0 q) size)) m)
    as [[a|h] m']; exact H.
Qed.
End PoolBound.

(** ** Invariants of the pool operations hold along a whole step *)

Section Frame.
Variable I : Machine -> Prop.
Hypothesis I_emit :
  forall ev, schedule_event ev = true -> preserves I (emit ev).
Hypothesis I_set_prefetched : forall pf, preserves I (set_prefetched pf).
Hypothesis I_set_sems : forall so sp, preserves I (set_sems so sp).
Hypothesis I_updateSpace : forall op size, preserves I (updateSpace op size).
Hypothesis I_store : forall b v, preserves I (store b v).
Hypothesis I_checked_malloc : forall b size, preserves I (checked_malloc b size).
Hypothesis I_lockedcnmemMalloc :
  forall b size, preserves I (lockedcnmemMalloc b size).
Hypothesis I_checked_free : forall q, preserves I (checked_free q).

Ltac frame_auto :=
  preserves_struct;
  first [ apply I_emit; reflexivity
        | apply I_set_prefetched | apply I_set_sems | apply I_updateSpace
        | apply I_store | apply I_checked_malloc | apply I_lockedcnmemMalloc
        | apply I_checked_free | idtac ].

Lemma frame_sem_wait_offload i : preserves I (sem_wait_offload i).
Proof.
  unfold sem_wait_offload. apply preserves_bind; [apply preserves_get|].
  intros m. destruct (m_sem_sync_offload m !!! i); frame_auto.
Qed.

Lemma frame_sem_wait_prefetch i : preserves I (sem_wait_prefetch i).
Proof.
  unfold sem_wait_prefetch. apply preserves_bind; [apply preserves_get|].
  intros m. destruct (m_sem_prefetch_done m !!! i); frame_auto.
Qed.

Lemma frame_threadFreeLayerInputFunction i :
  preserves I (threadFreeLayerInputFunction i).
Proof. unfold threadFreeLayerInputFunction, lockedcnmemFree. frame_auto. Qed.

Lemma frame_issue_prefetch j : preserves I (issue_prefetch j).
Proof. unfold issue_prefetch. frame_auto. Qed.

Lemma frame_cnmemAllocDerivatives i w b :
  preserves I (cnmemAllocDerivatives i w b).
Proof. unfold cnmemAllocDerivatives. frame_auto. Qed.

Lemma frame_cnmemFreeDerivatives i : preserves I (cnmemFreeDerivatives i).
Proof. unfold cnmemFreeDerivatives. frame_auto. Qed.

Variable net : NeuralNet.
Variable to_offload : list bool.
Variable train : bool.

Lemma frame_release_layer i : preserves I (release_layer net i).
Proof. unfold release_layer. frame_auto. Qed.

Lemma frame_forward_compute i : preserves I (forward_compute net i).
Proof.
  unfold forward_compute. destruct (params net !! i) as [[]|]; frame_auto.
Qed.

Lemma frame_forward_layer i :
  preserves I (forward_layer net to_offload train i).
Proof.
  unfold forward_layer, lockedcnmemFree. frame_auto.
  - apply frame_forward_compute.
  - apply frame_threadFreeLayerInputFunction.
Qed.

Lemma frame_forward_loop fuel i :
  preserves I (forward_loop net to_offload train fuel i).
Proof.
  revert i. induction fuel as [|fuel IH]; intros i; simpl.
  - apply preserves_ret.
  - destruct (negb (i <? num_layers net)); [apply preserves_ret|].
    destruct (negb train && (i =? num_layers net - 1));
      [apply preserves_ret|].
    apply preserves_bind; [apply frame_forward_layer|intros i'; apply IH].
Qed.

Lemma frame_wait_offloads n i : preserves I (wait_offloads to_offload n i).
Proof.
  revert i. induction n as [|n IH]; intros i; simpl; frame_auto.
  - apply frame_sem_wait_offload.
  - apply IH.
Qed.

Lemma frame_backward_grad i : preserves I (backward_grad net to_offload i).
Proof.
  unfold backward_grad.
  destruct (type_is net i ACTV || type_is net i SOFTMAX); frame_auto.
  destruct (findPrefetchLayer _ _ _ _) as [pf [j|]]; frame_auto;
    apply frame_issue_prefetch.
Qed.

Lemma frame_emit_backward i : preserves I (emit_backward i).
Proof. unfold emit_backward. frame_auto. Qed.

Lemma frame_backward_layer i :
  preserves I (backward_layer net to_offload train i).
Proof.
  unfold backward_layer.
  apply preserves_bind; [frame_auto; apply frame_sem_wait_prefetch|intros _].
  apply preserves_bind; [frame_auto; apply frame_backward_grad|intros _].
  destruct (params net !! i) as [[]|]; frame_auto;
    first [ apply frame_emit_backward | apply frame_release_layer
          | apply frame_cnmemAllocDerivatives
          | apply frame_cnmemFreeDerivatives ].
Qed.

Lemma frame_backward_loop k :
  preserves I (backward_loop net to_offload train k).
Proof.
  induction k as [|k IH]; simpl; [apply preserves_ret|].
  apply preserves_bind; [apply frame_backward_layer|intros _; exact IH].
Qed.

Lemma frame_getLoss : preserves I (getLoss net to_offload train).
Proof.
  unfold getLoss. apply preserves_bind; [apply preserves_get|intros m0].
  do 3 (apply preserves_bind; [frame_auto|intros _]).
  apply preserves_bind; [apply frame_forward_loop|intros _].
  destruct (negb train); frame_auto.
  - apply frame_wait_offloads.
  - apply frame_backward_loop.
Qed.
End Frame.

Lemma peak_nonneg log : (0 <= peak log)%Z.
Proof. induction log as [|ev log IH]; simpl; lia. Qed.

Lemma peak_bounds_every_point log later earlier :
  log = later ++ earlier -> (consumed earlier <= peak log)%Z.
Proof.
  intros ->. induction later as [|ev later IH]; simpl.
  - apply consumed_le_peak.
  - lia.
Qed.

Lemma pool_getLoss capacity net to_offload train :
  preserves (pool_inv capacity) (getLoss net to_offload train).
Proof.
  apply frame_getLoss.
  - intros ev Hev. apply pool_emit_neutral. destruct ev; try reflexivity;
      discriminate.
  - apply pool_set_prefetched.
  - apply pool_set_sems.
  - apply pool_updateSpace.
  - apply pool_store.
  - apply pool_checked_malloc.
  - apply pool_lockedcnmemMalloc.
  - apply pool_checked_free.
Qed.

(** ** The simulation's peak never decreases *)

Section AnalyticPeak.
Variable net : NeuralNet.
Variable to_offload : list bool.
Variable getWorkspaceSize : WorkspaceOracle.
Variable algo_pref : vDNNConvAlgoPref.
Variable hard : bool.

Lemma sim_update_max_consume op size st :
  sim_max_consume (sim_update op size st) = sim_max_consume st.
Proof. reflexivity. Qed.

Lemma sim_update_max_ge st :
  (sim_max_consume st <= sim_max_consume (sim_update_max st))%Z.
Proof. unfold sim_update_max, updateMaxConsume. simpl. lia. Qed.

Ltac peak_cases :=
  repeat match goal with
  | |- context [if ?c then _ else _] => destruct c
  end;
  simpl; unfold updateMaxConsume; try lia.

Lemma sim_forward_layer_peak i st :
  (sim_max_consume st <=
   sim_max_consume (snd (sim_forward_layer net to_offload getWorkspaceSize
                           algo_pref hard i st)))%Z.
Proof. unfold sim_forward_layer. peak_cases. Qed.

Lemma sim_forward_loop_peak n i st :
  (sim_max_consume st <=
   sim_max_consume (snd (sim_forward_loop net to_offload getWorkspaceSize
                           algo_pref hard n i st)))%Z.
Proof.
  revert i st. induction n as [|n IH]; intros i st; simpl; [lia|].
  destruct (type_is net i SOFTMAX); simpl; [lia|].
  pose proof (sim_forward_layer_peak i st) as H.
  destruct (sim_forward_layer _ _ _ _ _ i st) as [[] st']; simpl in *.
  - specialize (IH (S i) st'). lia.
  - exact H.
Qed.

Lemma sim_derivatives_peak pre a b st :
  (sim_max_consume st <=
   sim_max_consume (snd (sim_derivatives pre a b st)))%Z.
Proof. unfold sim_derivatives. destruct pre; peak_cases. Qed.

Lemma sim_backward_compute_peak i st :
  (sim_max_consume st <=
   sim_max_consume (snd (sim_backward_compute net getWorkspaceSize
                           algo_pref hard i st)))%Z.
Proof.
  unfold sim_backward_compute.
  destruct (params net !! i) as [[]|]; simpl; try lia;
    try apply sim_derivatives_peak.
  destruct (pre_alloc_conv_derivative net); peak_cases.
Qed.

Lemma sim_backward_layer_peak i st :
  (sim_max_consume st <=
   sim_max_consume (snd (sim_backward_layer net to_offload getWorkspaceSize
                           algo_pref hard i st)))%Z.
Proof.
  unfold sim_backward_layer.
  destruct (bool_decide (0 < i) && type_is net i SOFTMAX); simpl; [lia|].
  destruct (findPrefetchLayer _ _ _ i) as [pf j].
  match goal with
  | |- context [sim_backward_compute _ _ _ _ i ?s] =>
      pose proof (sim_backward_compute_peak i s) as H3;
      assert (sim_max_consume st <= sim_max_consume s)%Z as H2
        by (destruct j, (bool_decide (0 < i)); simpl;
            unfold updateMaxConsume; lia);
      destruct (sim_backward_compute net getWorkspaceSize algo_pref hard i s)
        as [[] st3]
  end; simpl in *; [|lia].
  destruct (negb (isAvailable (sim_space st3))); simpl; [lia|].
  destruct (i =? 0); simpl; lia.
Qed.

Lemma sim_backward_loop_peak k st :
  (sim_max_consume st <=
   sim_max_consume (snd (sim_backward_loop net to_offload getWorkspaceSize
                           algo_pref hard k st)))%Z.
Proof.
  revert st. induction k as [|k IH]; intros st; simpl; [lia|].
  pose proof (sim_backward_layer_peak k st) as H.
  destruct (sim_backward_layer _ _ _ _ _ k st) as [[] st']; simpl in *.
  - specialize (IH st'). lia.
  - exact H.
Qed.

Lemma simulate_analytic_peak_nonneg free_bytes prefetched flow st :
  simulate_analytic net to_offload getWorkspaceSize algo_pref hard
    free_bytes prefetched = Some (flow, st) ->
  (0 <= sim_max_consume st)%Z.
Proof.
  unfold simulate_analytic.
  set (st0 := sim_update_max _).
  assert (0 <= sim_max_consume st0)%Z as H0.
  { subst st0. simpl. unfold updateMaxConsume. lia. }
  pose proof (sim_forward_loop_peak (num_layers net) 0 st0) as H1.
  destruct (sim_forward_loop _ _ _ _ _ _ 0 st0) as [[] st1]; simpl in *.
  - destruct (negb _); [discriminate|].
    set (st2 := sim_update_max _).
    assert (sim_max_consume st1 <= sim_max_consume st2)%Z as H2.
    { subst st2. simpl. unfold updateMaxConsume. lia. }
    pose proof (sim_backward_loop_peak (num_layers net) st2) as H3.
    intros [= Heq]. rewrite Heq in H3. subst st2. simpl in *.
    unfold updateMaxConsume in *. lia.
  - intros [= _ <-]. unfold updateMaxConsume in *. lia.
Qed.
End AnalyticPeak.

(** ** Invariants of the pool operations hold along the replay *)

Section ReplayFrame.
Variable I : Machine -> Prop.
Hypothesis I_set_prefetched : forall pf, preserves I (set_prefetched pf).
Hypothesis I_store : forall b v, preserves I (store b v).
Hypothesis I_ret_malloc : forall b size, preserves I (ret_malloc b size).
Hypothesis I_ret_free : forall q, preserves I (ret_free q).
Hypothesis I_checked_malloc : forall b size, preserves I (checked_malloc b size).
Hypothesis I_checked_free : forall q, preserves I (checked_free q).

Ltac replay_auto :=
  preserves_struct;
  first [ apply I_set_prefetched | apply I_store | apply I_ret_malloc
        | apply I_ret_free | apply I_checked_malloc | apply I_checked_free
        | idtac ].

Variable net : NeuralNet.
Variable to_offload : list bool.

Lemma frame_replay_forward_layer i :
  preserves I (replay_forward_layer net to_offload i).
Proof.
  unfold replay_forward_layer.
  apply preserves_bind; [replay_auto|intros _].
  apply preserves_bind; [|intros _; replay_auto].
  destruct (params net !! i) as [[]|]; replay_auto.
Qed.

Lemma frame_replay_forward_loop fuel i :
  preserves I (replay_forward_loop net to_offload fuel i).
Proof.
  revert i. induction fuel as [|fuel IH]; intros i; simpl.
  - apply preserves_ret.
  - destruct (negb (i <? num_layers net)); [apply preserves_ret|].
    apply preserves_bind; [apply frame_replay_forward_layer|].
    intros i'. apply IH.
Qed.

Lemma frame_replay_release i : preserves I (replay_release i).
Proof. unfold replay_release. replay_auto. Qed.

Lemma frame_replay_grad i : preserves I (replay_grad net to_offload i).
Proof.
  unfold replay_grad.
  destruct (type_is net i ACTV || type_is net i SOFTMAX); replay_auto.
  destruct (findPrefetchLayer _ _ _ _) as [pf [j|]]; replay_auto.
Qed.

Lemma frame_replay_backward_layer i :
  preserves I (replay_backward_layer net to_offload i).
Proof.
  unfold replay_backward_layer.
  apply preserves_bind; [replay_auto; apply frame_replay_grad|intros _].
  destruct (params net !! i) as [[]|];
    unfold cnmemAllocDerivatives, cnmemFreeDerivatives; replay_auto;
    apply frame_replay_release.
Qed.

Lemma frame_replay_backward_loop k :
  preserves I (replay_backward_loop net to_offload k).
Proof.
  induction k as [|k IH]; simpl; [apply preserves_ret|].
  apply preserves_bind; [apply frame_replay_backward_layer|].
  intros _. exact IH.
Qed.

Lemma frame_simulateCNMEMMemory :
  preserves I (simulateCNMEMMemory net to_offload).
Proof.
  unfold simulateCNMEMMemory. replay_auto.
  - apply frame_replay_forward_loop.
  - apply frame_replay_backward_loop.
Qed.
End ReplayFrame.

(** The replay's pool never shrinks. *)
Section PoolTotal.
Variable floor : Z.

Local Abbreviation T := (fun m => (floor <= pool_total (m_pool m))%Z).

Lemma cnmemMalloc_total size p st q p' :
  cnmemMalloc size p = (st, q, p') -> (pool_total p <= pool_total p')%Z.
Proof.
  unfold cnmemMalloc. destruct (size <? 0)%Z eqn:Hneg.
  - intros [= _ _ <-]. lia.
  - apply Z.ltb_ge in Hneg.
    destruct (_ <=? _)%Z; [intros [= _ _ <-]; simpl; lia|].
    destruct (pool_can_grow p); intros [= _ _ <-]; simpl; lia.
Qed.

Lemma cnmemFree_total q p st size p' :
  cnmemFree q p = (st, size, p') -> pool_total p' = pool_total p.
Proof.
  unfold cnmemFree. destruct q as [q|]; [|intros [= _ _ <-]; reflexivity].
  destruct (remove_block q (pool_blocks p)) as [[sz rest]|];
    intros [= _ _ <-]; reflexivity.
Qed.

Lemma total_store b v : preserves T (store b v).
Proof. intros m H. destruct b; exact H. Qed.

Lemma total_ret_malloc b size : preserves T (ret_malloc b size).
Proof.
  intros m Hm. unfold ret_malloc, bind at 1, get.
  destruct (cnmemMalloc size (m_pool m)) as [[st q] pool'] eqn:Hc.
  pose proof (cnmemMalloc_total _ _ _ _ _ Hc) as Ht.
  destruct st, q as [q|]; try exact Hm.
  destruct b; simpl; lia.
Qed.

Lemma total_checked_malloc b size : preserves T (checked_malloc b size).
Proof.
  intros m Hm. unfold checked_malloc, bind at 1, get.
  destruct (cnmemMalloc size (m_pool m)) as [[st q] pool'] eqn:Hc.
  pose proof (cnmemMalloc_total _ _ _ _ _ Hc) as Ht.
  destruct st, q as [q|]; try exact Hm.
  destruct b; simpl; lia.
Qed.

Lemma total_ret_free q : preserves T (ret_free q).
Proof.
  intros m Hm. unfold ret_free, bind at 1, get.
  destruct (cnmemFree q (m_pool m)) as [[st size] pool'] eqn:Hc.
  pose proof (cnmemFree_total _ _ _ _ _ Hc) as Ht.
  destruct st; try exact Hm. simpl. lia.
Qed.

Lemma total_checked_free q : preserves T (checked_free q).
Proof.
  intros m Hm. unfold checked_free, bind at 1, get.
  destruct (cnmemFree q (m_pool m)) as [[st size] pool'] eqn:Hc.
  pose proof (cnmemFree_total _ _ _ _ _ Hc) as Ht.
  destruct st; try exact Hm. simpl. lia.
Qed.

Lemma total_simulateCNMEMMemory net to_offload :
  preserves T (simulateCNMEMMemory net to_offload).
Proof.
  apply frame_simulateCNMEMMemory.
  - intros pf m H. exact H.
  - apply total_store.
  - apply total_ret_malloc.
  - apply total_ret_free.
  - apply total_checked_malloc.
  - apply total_checked_free.
Qed.
End PoolTotal.

Lemma simulateCNMEMMemory_total_ge floor net to_offload m total m' :
  (floor <= pool_total (m_pool m))%Z ->
  simulateCNMEMMemory net to_offload m = (Ok total, m') ->
  (floor <= total)%Z.
Proof.
  intros Hm Hrun.
  assert (hoare (fun m => (floor <= pool_total (m_pool m))%Z)
            (simulateCNMEMMemory net to_offload)
            (fun z _ => (floor <= z)%Z) (fun _ => True)) as Hh.
  { unfold simulateCNMEMMemory.
    assert (preserves (fun m => (floor <= pool_total (m_pool m))%Z)
              (replay_forward_loop net to_offload (num_layers net) 0)) as Hfwd.
    { apply frame_replay_forward_loop;
        first [ apply total_store | apply total_ret_malloc
              | apply total_ret_free | apply total_checked_malloc
              | apply total_checked_free | (intros pf m1 H1; exact H1) ]. }
    assert (preserves (fun m => (floor <= pool_total (m_pool m))%Z)
              (replay_backward_loop net to_offload (num_layers net))) as Hbwd.
    { apply frame_replay_backward_loop;
        first [ apply total_store | apply total_ret_malloc
              | apply total_ret_free | apply total_checked_malloc
              | apply total_checked_free | (intros pf m1 H1; exact H1) ]. }
    apply hoare_bind_inv; [apply preserves_weaken, preserves_get|intros m0].
    apply hoare_bind_inv;
      [apply preserves_weaken; intros m1 H1; exact H1|intros _].
    apply hoare_bind_inv;
      [apply preserves_weaken, total_ret_malloc|intros _].
    apply hoare_bind_inv; [apply preserves_weaken, Hfwd|intros _].
    apply hoare_bind_inv;
      [apply preserves_weaken, total_ret_malloc|intros _].
    apply hoare_bind_inv; [apply preserves_weaken, Hbwd|intros _].
    intros m1 H1. simpl. exact H1. }
  specialize (Hh m Hm). rewrite Hrun in Hh. exact Hh.
Qed.

(** A confirmed plan's [max_consume] is at least the analytic peak, which is
    not negative. *)
Lemma planned_peak_nonneg net to_offload getWorkspaceSize free_bytes
    algo_pref hard m0 :
  let plan := simulateNeuralNetworkMemory net to_offload getWorkspaceSize
                free_bytes algo_pref hard m0 in
  sim_verdict plan = Ok true ->
  exists exp_max_consume,
    sim_exp_max_consume plan = Some exp_max_consume /\
    (0 <= exp_max_consume <= sim_result_max_consume plan)%Z.
Proof.
  unfold simulateNeuralNetworkMemory.
  destruct (simulate_analytic _ _ _ _ _ _ _) as [[[] st]|] eqn:Ha; simpl;
    try discriminate.
  pose proof (simulate_analytic_peak_nonneg _ _ _ _ _ _ _ _ _ Ha) as Hnn.
  destruct (simulateCNMEMMemory _ _ _) as [[total|h] m'] eqn:Hr.
  - simpl. intros _. exists (sim_max_consume st). split; [reflexivity|].
    split; [exact Hnn|].
    eapply simulateCNMEMMemory_total_ge; [|exact Hr]. simpl. lia.
  - destruct h; simpl; discriminate.
Qed.




(** ** The inference path *)

Lemma preserves_when_cond I b (e : Exec unit) :
  (b = true -> preserves I e) -> preserves I (when b e).
Proof.
  intros He. destruct b; [apply He; reflexivity|apply preserves_ret].
Qed.

Section Inference.
Variable net : NeuralNet.
Variable to_offload : list bool.

Local Abbreviation N := (fun m => Forall (fun ev => inference_event ev = true) (m_log m)).

Lemma inference_emit ev : inference_event ev = true -> preserves N (emit ev).
Proof. intros Hev m Hm. simpl. constructor; assumption. Qed.

Lemma inference_frame {A} (e : Exec A) :
  (forall m, m_log (snd (e m)) = m_log m) -> preserves N e.
Proof.
  intros He m Hm. specialize (He m).
  destruct (e m) as [[a|h] m']; simpl in He; rewrite He; exact Hm.
Qed.

Lemma inference_store b v : preserves N (store b v).
Proof. apply inference_frame. intros m. destruct b; reflexivity. Qed.

Lemma inference_lockedcnmemMalloc b size : preserves N (lockedcnmemMalloc b size).
Proof.
  unfold lockedcnmemMalloc. apply preserves_bind; [apply preserves_get|].
  intros m. destruct (cnmemMalloc size (m_pool m)) as [[[] [q|]] pool'];
    preserves_struct;
    first [ apply inference_store | apply inference_emit; reflexivity
          | apply inference_frame; reflexivity ].
Qed.

Lemma inference_checked_malloc b size : preserves N (checked_malloc b size).
Proof.
  unfold checked_malloc. apply preserves_bind; [apply preserves_get|].
  intros m. destruct (cnmemMalloc size (m_pool m)) as [[[] [q|]] pool'];
    preserves_struct;
    first [ apply inference_store | apply inference_emit; reflexivity
          | apply inference_frame; reflexivity ].
Qed.

Lemma inference_checked_free q : preserves N (checked_free q).
Proof.
  unfold checked_free. apply preserves_bind; [apply preserves_get|].
  intros m. destruct (cnmemFree q (m_pool m)) as [[[] size] pool'];
    preserves_struct;
    first [ apply inference_emit; reflexivity
          | apply inference_frame; reflexivity ].
Qed.

Lemma inference_forward_compute i : preserves N (forward_compute net i).
Proof.
  unfold forward_compute. destruct (params net !! i) as [[]|];
    preserves_struct;
    first [ apply inference_lockedcnmemMalloc
          | apply inference_emit; reflexivity
          | apply inference_frame; reflexivity ].
Qed.

Lemma inference_forward_layer i :
  preserves N (forward_layer net to_offload false i).
Proof.
  unfold forward_layer, lockedcnmemFree.
  apply preserves_bind.
  { apply preserves_when_cond. rewrite andb_false_r. discriminate. }
  intros _. apply preserves_bind; [apply inference_lockedcnmemMalloc|intros _].
  apply preserves_bind; [apply inference_frame; reflexivity|intros _].
  apply preserves_bind; [apply inference_forward_compute|intros ws].
  apply preserves_bind.
  { apply preserves_when. apply preserves_when_cond. discriminate. }
  intros _. apply preserves_bind.
  { apply preserves_when_cond. discriminate. }
  intros _.
  preserves_struct;
    first [ apply inference_checked_free
          | apply inference_frame; reflexivity ].
Qed.

Lemma inference_forward_loop fuel i :
  preserves N (forward_loop net to_offload false fuel i).
Proof.
  revert i. induction fuel as [|fuel IH]; intros i; simpl.
  - apply preserves_ret.
  - destruct (negb (i <? num_layers net)); [apply preserves_ret|].
    destruct (i =? num_layers net - 1); [apply preserves_ret|].
    apply preserves_bind; [apply inference_forward_layer|intros i'; apply IH].
Qed.

Lemma inference_getLoss : preserves N (getLoss net to_offload false).
Proof.
  unfold getLoss. simpl negb. cbv iota.
  apply preserves_bind; [apply preserves_get|intros m0].
  apply preserves_bind; [apply inference_frame; reflexivity|intros _].
  apply preserves_bind; [apply inference_checked_malloc|intros _].
  apply preserves_bind; [apply inference_frame; reflexivity|intros _].
  apply preserves_bind; [apply inference_forward_loop|intros _].
  preserves_struct;
    first [ apply inference_checked_free | apply inference_emit; reflexivity
          | apply inference_frame; reflexivity ].
Qed.
End Inference.

(** * Further properties of the planner *)

(** X1. [setOffload] does not depend on what the array held before; the
    "none" policy clears every flag; and every layer the "conv-only" policy
    marks is also marked by the "all" policy. *)
Theorem setOffload_policies_nested (layer_type : list LayerOp)
    (flags flags' : list bool) :
  length flags = length layer_type ->
  length flags' = length layer_type ->
  (forall o, setOffload layer_type o flags = setOffload layer_type o flags') /\
  setOffload layer_type OFFLOAD_NONE flags
    = replicate (length layer_type) false /\
  (forall i,
     setOffload layer_type OFFLOAD_CONV flags !! i = Some true ->
     setOffload layer_type OFFLOAD_ALL flags !! i = Some true).
Proof.
  intros Hlen Hlen'. split; [|split].
  - intros o. rewrite !setOffload_policy_flags by assumption. reflexivity.
  - apply list_eq. intros i.
    destruct (layer_type !! i) as [t|] eqn:Hi.
    + rewrite (setOffload_lookup _ OFFLOAD_NONE _ i t Hlen Hi). simpl.
      symmetry. apply lookup_replicate_2. eapply lookup_lt_Some. exact Hi.
    + apply lookup_ge_None in Hi.
      rewrite (proj2 (lookup_ge_None _ _)) by (rewrite setOffload_length; lia).
      symmetry. apply lookup_ge_None. rewrite length_replicate. exact Hi.
  - intros i Hc.
    destruct (layer_type !! i) as [t|] eqn:Hi.
    + rewrite (setOffload_lookup _ OFFLOAD_CONV _ i t Hlen Hi) in Hc.
      rewrite (setOffload_lookup _ OFFLOAD_ALL _ i t Hlen Hi).
      simpl in *. injection Hc as Hc. f_equal.
      destruct t; simpl in *; try discriminate. exact Hc.
    + apply lookup_ge_None in Hi.
      rewrite (proj2 (lookup_ge_None _ _)) in Hc
        by (rewrite setOffload_length; lia).
      discriminate.
Qed.

Lemma setOffload_policies_nested_witness :
  let layer_type := [CONV; POOLING; CONV; FULLY_CONNECTED; SOFTMAX] in
  setOffload layer_type OFFLOAD_NONE [true; true; true; true; true]
    = [false; false; false; false; false] /\
  setOffload layer_type OFFLOAD_ALL [true; true; true; true; true] !! 2
    = Some true.
Proof.
  intros layer_type.
  destruct (setOffload_policies_nested layer_type
              [true; true; true; true; true] [false; false; false; false; false]
              eq_refl eq_refl) as (_ & Hnone & Hnest).
  split; [exact Hnone|]. apply Hnest. reflexivity.
Defined.

(** X2. Whatever [findPrefetchLayer] returns is a layer below [cur_layer]
    that is marked for offload and was not prefetched; that layer's mark is
    the only change to [prefetched], so a second search cannot return it
    again; without a result the array is left as it was. *)
Theorem findPrefetchLayer_sound (layer_type : list LayerOp)
    (to_offload prefetched : list bool) (cur_layer : nat) :
  cur_layer <= length prefetched ->
  let r := findPrefetchLayer layer_type to_offload prefetched cur_layer in
  match snd r with
  | Some j =>
      j < cur_layer /\
      to_offload !!! j = true /\
      prefetched !!! j = false /\
      fst r = <[j := true]> prefetched /\
      forall k, snd (findPrefetchLayer layer_type to_offload (fst r) k) <> Some j
  | None => fst r = prefetched
  end.
Proof.
  intros Hlen r. subst r.
  assert (forall pf k, pf !!! (k : nat) = true -> forall n,
            snd (findPrefetchLayer layer_type to_offload pf n) <> Some k) as Hnot.
  { intros pf k Hk n. induction n as [|n IH]; simpl; [discriminate|].
    destruct ((to_offload !!! n) && negb (pf !!! n)) eqn:Hc; simpl.
    - intros [= ->]. rewrite Hk in Hc. rewrite andb_false_r in Hc.
      discriminate.
    - destruct (bool_decide (layer_type !! n = Some CONV)); simpl;
        [discriminate|exact IH]. }
  induction cur_layer as [|k IH]; simpl; [reflexivity|].
  destruct ((to_offload !!! k) && negb (prefetched !!! k)) eqn:Hc; simpl.
  - apply andb_true_iff in Hc as [Hto Hpf]. apply negb_true_iff in Hpf.
    split; [lia|]. split; [exact Hto|]. split; [exact Hpf|].
    split; [reflexivity|].
    intros n. apply Hnot. apply list_lookup_total_insert_eq. lia.
  - destruct (bool_decide (layer_type !! k = Some CONV)); simpl;
      [reflexivity|].
    specialize (IH ltac:(lia)).
    destruct (snd (findPrefetchLayer layer_type to_offload prefetched k));
      [|exact IH].
    destruct IH as (? & ? & ? & ? & ?). repeat split; try assumption. lia.
Qed.

Lemma findPrefetchLayer_sound_witness :
  let layer_type := [CONV; POOLING; CONV; POOLING; FULLY_CONNECTED; SOFTMAX] in
  let to_offload := [true; false; true; false; false; false] in
  let r := findPrefetchLayer layer_type to_offload
             [false; false; false; false; false; false] 4 in
  snd r = Some 2 /\
  snd (findPrefetchLayer layer_type to_offload (fst r) 4) <> Some 2.
Proof.
  intros layer_type to_offload r.
  pose proof (findPrefetchLayer_sound layer_type to_offload
                [false; false; false; false; false; false] 4
                ltac:(simpl; lia)) as H.
  fold r in H. change (snd r) with (Some 2) in H.
  destruct H as (_ & _ & _ & _ & Hagain).
  split; [reflexivity|apply Hagain].
Defined.

(** X3. With a fixed policy ([vDNN_ALL], [vDNN_CONV], [vDNN_NONE]) the
    planner runs one simulation: the policy's flags, the user's algorithm
    preference, the hard discipline.  It returns when the simulation
    confirms and calls [outOfMemory] otherwise; nothing else is tried. *)
Theorem vDNNOptimize_fixed_policy_single_try (layer_type : list LayerOp)
    (simulate : Simulator) (vdnn_type : vDNNType)
    (vdnn_conv_algo : vDNNConvAlgo) (st : PlanState) :
  vdnn_type <> vDNN_DYN ->
  plan_arrays_ok layer_type st ->
  let c := mkCandidate (fixed_offload vdnn_type) (fixed_pref vdnn_conv_algo)
             true in
  let r := vDNNOptimize layer_type simulate vdnn_type vdnn_conv_algo st in
  tried (snd r) = tried st ++ [c] /\
  to_offload (snd r) = policy_flags layer_type (fixed_offload vdnn_type) /\
  fst r = if confirms layer_type simulate c
          then PlanReturned else PlanOutOfMemory.
Proof.
  intros Hdyn [Hto Hpf] c r. subst c r.
  assert (forall o p,
    let c := mkCandidate o p true in
    let s := simulate_candidate layer_type simulate c st in
    fst s = confirms layer_type simulate c /\
    tried (snd s) = tried st ++ [c] /\
    to_offload (snd s) = policy_flags layer_type o) as Hone.
  { intros o p. unfold simulate_candidate, confirms. simpl.
    rewrite (setOffload_policy_flags _ _ _ Hto).
    rewrite (resetPrefetched_all_false _ _ Hpf).
    destruct (simulate _ _ _ _) as [[ok [e m]] pf'']. simpl.
    repeat split. }
  destruct vdnn_type; try congruence; destruct vdnn_conv_algo;
    unfold vDNNOptimize, fixed_policy, outOfMemory, fixed_offload, fixed_pref;
    match goal with
    | |- context [simulate_candidate _ _ (mkCandidate ?o ?p true) st] =>
        destruct (Hone o p) as (Hv & Ht & Hf);
        destruct (simulate_candidate layer_type simulate
                    (mkCandidate o p true) st) as [ok st1];
        simpl in Hv, Ht, Hf; rewrite <- Hv;
        destruct ok; simpl; repeat split; assumption
    end.
Qed.

Lemma vDNNOptimize_fixed_policy_single_try_witness :
  let layer_type := layer_types conv_fc_softmax in
  let st := mkPlanState [false; false; false] [false; false; false] 0 0 [] in
  let r := vDNNOptimize layer_type example_simulator vDNN_CONV
             vDNN_PERFORMANCE_OPTIMAL st in
  fst r = PlanOutOfMemory /\
  tried (snd r) = [mkCandidate OFFLOAD_CONV PREFER_PERFORMANCE_OPTIMAL true].
Proof.
  intros layer_type st r.
  destruct (vDNNOptimize_fixed_policy_single_try layer_type example_simulator
              vDNN_CONV vDNN_PERFORMANCE_OPTIMAL st
              ltac:(discriminate) (conj eq_refl eq_refl)) as (Ht & _ & Ho).
  split; [exact Ho|exact Ht].
Defined.

(** * Further properties of the executor *)

(** X4. A step starts from a clean [prefetched] array: whatever marks the
    previous step or the planner left there, [getLoss] behaves the same. *)
Theorem getLoss_ignores_stale_prefetched (net : NeuralNet)
    (to_offload : list bool) (train : bool) (m : Machine) (pf : list bool) :
  length (m_prefetched m) = num_layers net ->
  length pf = num_layers net ->
  getLoss net to_offload train (with_prefetched m pf)
    = getLoss net to_offload train m.
Proof.
  intros Hm Hpf.
  assert (length (layer_types net) = num_layers net) as Hl
    by (unfold layer_types, num_layers; apply length_map).
  unfold getLoss.
  cbv beta delta [bind get set_prefetched with_prefetched
                  with_pool_prefetched].
  cbn [m_layer_input m_dlayer_input m_dW m_db m_prefetched
       m_sem_sync_offload m_sem_prefetch_done m_pool m_tracker m_log].
  rewrite !resetPrefetched_all_false by (rewrite Hl; assumption).
  reflexivity.
Qed.

Lemma getLoss_ignores_stale_prefetched_witness :
  getLoss conv_fc_softmax conv_fc_softmax_flags true
    (with_prefetched (initial_machine conv_fc_softmax 112) [true; true; true])
  = getLoss conv_fc_softmax conv_fc_softmax_flags true
      (initial_machine conv_fc_softmax 112).
Proof.
  apply (getLoss_ignores_stale_prefetched conv_fc_softmax
           conv_fc_softmax_flags true (initial_machine conv_fc_softmax 112)
           [true; true; true]); reflexivity.
Defined.

(** X5. A call with [train == false] only allocates, releases, runs the
    layers' forward computations and compares the output: it issues no
    offload copy, starts no free worker, waits on no semaphore, runs no
    Softmax forward, computes no loss, prefetches nothing and runs no
    backward step, whatever the offload flags are and however it ends. *)
Theorem getLoss_inference_events (net : NeuralNet) (to_offload : list bool)
    (m : Machine) :
  m_log m = [] ->
  Forall (fun ev => inference_event ev = true)
    (m_log (snd (getLoss net to_offload false m))).
Proof.
  intros Hlog.
  pose proof (inference_getLoss net to_offload m) as H.
  destruct (getLoss net to_offload false m) as [[a|h] m']; apply H;
    rewrite Hlog; constructor.
Qed.

Lemma getLoss_inference_events_witness :
  Forall (fun ev => inference_event ev = true)
    (m_log (snd (getLoss conv_fc_softmax conv_fc_softmax_flags false
                   (initial_machine conv_fc_softmax 112)))).
Proof.
  apply (getLoss_inference_events conv_fc_softmax conv_fc_softmax_flags
           (initial_machine conv_fc_softmax 112)).
  reflexivity.
Defined.

(** * The kernels *)

Lemma grid_covers_batch BW batch_size :
  0 < BW -> batch_size <= grid_blocks BW batch_size * BW.
Proof.
  intros HBW. unfold grid_blocks.
  pose proof (Nat.div_mod (batch_size + BW - 1) BW ltac:(lia)) as Hd.
  pose proof (Nat.mod_upper_bound (batch_size + BW - 1) BW ltac:(lia)) as Hm.
  nia.
Qed.

(** A launch of a kernel whose thread [i < batch_size] writes [v i] to cell
    [g i], distinct threads writing distinct cells, and whose other threads
    do nothing. *)
Section Scatter.
Variable S : Type.
Context `{Inhabited S}.
Variable batch_size : nat.
Variable g : nat -> nat.
Variable v : nat -> S.
Variable kernel : nat -> list S -> list S.
Hypothesis kernel_body :
  forall i s, kernel i s = if batch_size <=? i then s else <[g i := v i]> s.
Hypothesis g_injective :
  forall i j, i < batch_size -> j < batch_size -> g i = g j -> i = j.

Lemma threads_length n (s : list S) :
  length (fold_left (fun s i => kernel i s) (seq 0 n) s) = length s.
Proof.
  induction n as [|n IH]; [reflexivity|].
  rewrite seq_S, fold_left_app. simpl. rewrite kernel_body.
  destruct (batch_size <=? n); [exact IH|].
  rewrite length_insert. exact IH.
Qed.

Lemma threads_written n (s : list S) i :
  (forall j, j < batch_size -> g j < length s) ->
  i < n -> i < batch_size ->
  fold_left (fun s i => kernel i s) (seq 0 n) s !!! g i = v i.
Proof.
  intros Hrange. induction n as [|n IH]; intros Hi Hb; [lia|].
  rewrite seq_S, fold_left_app. simpl. rewrite kernel_body.
  destruct (batch_size <=? n) eqn:Hn.
  - apply Nat.leb_le in Hn. apply IH; lia.
  - apply Nat.leb_gt in Hn. destruct (decide (i = n)) as [->|Hne].
    + apply list_lookup_total_insert_eq. rewrite threads_length.
      apply Hrange. exact Hb.
    + rewrite list_lookup_total_insert_ne.
      * apply IH; lia.
      * intros Heq. apply Hne. symmetry. apply g_injective; assumption.
Qed.

Lemma threads_untouched n (s : list S) k :
  (forall j, j < batch_size -> g j <> k) ->
  fold_left (fun s i => kernel i s) (seq 0 n) s !!! k = s !!! k.
Proof.
  intros Hk. induction n as [|n IH]; [reflexivity|].
  rewrite seq_S, fold_left_app. simpl. rewrite kernel_body.
  destruct (batch_size <=? n) eqn:Hn; [exact IH|].
  apply Nat.leb_gt in Hn.
  rewrite list_lookup_total_insert_ne; [exact IH|]. apply Hk. exact Hn.
Qed.

Lemma launch_written BW (s : list S) i :
  0 < BW ->
  (forall j, j < batch_size -> g j < length s) ->
  i < batch_size ->
  launch BW batch_size kernel s !!! g i = v i.
Proof.
  intros HBW Hrange Hi. unfold launch. apply threads_written; try assumption.
  pose proof (grid_covers_batch BW batch_size HBW). lia.
Qed.

Lemma launch_untouched BW (s : list S) k :
  (forall j, j < batch_size -> g j <> k) ->
  launch BW batch_size kernel s !!! k = s !!! k.
Proof. intros Hk. unfold launch. apply threads_untouched. exact Hk. Qed.

Lemma launch_length BW (s : list S) :
  length (launch BW batch_size kernel s) = length s.
Proof. unfold launch. apply threads_length. Qed.
End Scatter.

Lemma filter_seq_ext (P1 P2 : nat -> Prop)
    `{!forall x, Decision (P1 x), !forall x, Decision (P2 x)} i n :
  (forall k, i <= k < i + n -> (P1 k <-> P2 k)) ->
  filter P1 (seq i n) = filter P2 (seq i n).
Proof.
  revert i. induction n as [|n IH]; intros i Hiff; [reflexivity|]. simpl.
  rewrite !filter_cons. rewrite (IH (S i)) by (intros k Hk; apply Hiff; lia).
  destruct (decide (P1 i)) as [H1|H1], (decide (P2 i)) as [H2|H2];
    try reflexivity; exfalso.
  - apply H2, (Hiff i ltac:(lia)), H1.
  - apply H1, (Hiff i ltac:(lia)), H2.
Qed.

Section Accuracy.
Variable T : Type.
Variable gt : T -> T -> bool.
Context `{Inhabited T}.
(** [>] is a strict weak order, as on floating-point numbers other than
    NaN. *)
Hypothesis gt_irrefl : forall a, gt a a = false.
Hypothesis gt_trans : forall a b c, gt a b = true -> gt b c = true -> gt a c = true.
Hypothesis gt_neg_trans :
  forall a b c, gt a b = false -> gt b c = false -> gt a c = false.

Lemma inferClass_scan_argmax (O : list T) i num_classes n j max index :
  index < j ->
  max = O !!! (i * num_classes + index) ->
  (forall j', j' < j -> gt (O !!! (i * num_classes + j')) max = false) ->
  (forall j', j' < index -> gt max (O !!! (i * num_classes + j')) = true) ->
  let k := inferClass_scan T gt O i num_classes n j max index in
  k < j + n /\
  (forall j', j' < j + n ->
     gt (O !!! (i * num_classes + j')) (O !!! (i * num_classes + k)) = false) /\
  (forall j', j' < k ->
     gt (O !!! (i * num_classes + k)) (O !!! (i * num_classes + j')) = true).
Proof.
  revert j max index. induction n as [|n IH]; intros j max index Hij Hmax Hle Hlt;
    simpl.
  - subst max. split; [lia|]. split.
    + intros j' Hj'. apply Hle. lia.
    + exact Hlt.
  - destruct (gt (O !!! (i * num_classes + j)) max) eqn:Hgt.
    + specialize (IH (S j) (O !!! (i * num_classes + j)) j ltac:(lia) eq_refl).
      replace (j + S n) with (S j + n) by lia. apply IH.
      * intros j' Hj'. destruct (decide (j' = j)) as [->|Hne];
          [apply gt_irrefl|].
        destruct (gt (O !!! (i * num_classes + j'))
                    (O !!! (i * num_classes + j))) eqn:Hc; [|reflexivity].
        rewrite <- (Hle j' ltac:(lia)). symmetry.
        eapply gt_trans; eassumption.
      * intros j' Hj'.
        destruct (gt (O !!! (i * num_classes + j))
                    (O !!! (i * num_classes + j'))) eqn:Hc; [reflexivity|].
        rewrite <- Hgt. symmetry.
        eapply gt_neg_trans; [exact Hc|]. apply Hle. lia.
    + specialize (IH (S j) max index ltac:(lia) Hmax).
      replace (j + S n) with (S j + n) by lia. apply IH.
      * intros j' Hj'. destruct (decide (j' = j)) as [->|Hne];
          [exact Hgt|apply Hle; lia].
      * exact Hlt.
Qed.

Lemma row_lookup (O : list T) num_classes i j :
  j < num_classes ->
  i * num_classes + j < length O ->
  row T O num_classes i !!! j = O !!! (i * num_classes + j).
Proof.
  intros Hj Hlen. unfold row.
  rewrite !list_lookup_total_alt.
  rewrite lookup_take_lt by exact Hj. rewrite lookup_drop. reflexivity.
Qed.

Lemma row_length (O : list T) num_classes i :
  (S i) * num_classes <= length O ->
  length (row T O num_classes i) = num_classes.
Proof.
  intros Hlen. unfold row. rewrite length_take, length_drop. simpl in Hlen. lia.
Qed.

Lemma count_correct_filter (h y : list Z) n i acc :
  count_correct h y n i acc =
  (acc + Z.of_nat (length (filter (fun k => h !!! k = y !!! k) (seq i n))))%Z.
Proof.
  revert i acc. induction n as [|n IH]; intros i acc; simpl; [lia|].
  rewrite IH. rewrite filter_cons.
  destruct (decide (h !!! i = y !!! i)) as [Heq|Hne].
  - rewrite (proj2 (Z.eqb_eq _ _) Heq). simpl length. lia.
  - rewrite (proj2 (Z.eqb_neq _ _) Hne). lia.
Qed.

(** X6. [compareOutputCorrect] counts the rows whose class equals the
    label, the class of a row being its argmax with ties broken toward the
    smallest index: no entry of the row exceeds the chosen one, and the
    chosen one exceeds every earlier entry.  The tensor it reads is the one
    at [layer_input[num_layers - 1]]. *)
Theorem compareOutputCorrect_counts_argmax (BW batch_size num_classes : nat)
    (O : list T) (pred_y y : list Z) :
  0 < BW ->
  0 < num_classes ->
  length O = batch_size * num_classes ->
  length pred_y = batch_size ->
  exists class : nat -> nat,
    (forall i, i < batch_size ->
       is_argmax_first T gt (row T O num_classes i) (class i)) /\
    compareOutputCorrect T gt BW batch_size num_classes O pred_y y
      = count_matches class batch_size y.
Proof.
  intros HBW Hnc HO Hpred.
  set (class := fun i => inferClass_scan T gt O i num_classes (num_classes - 1)
                           1 (O !!! (i * num_classes)) 0).
  exists class. split.
  - intros i Hi.
    assert (S i * num_classes <= length O) as Hrow by (rewrite HO; nia).
    pose proof (inferClass_scan_argmax O i num_classes (num_classes - 1) 1
                  (O !!! (i * num_classes)) 0 ltac:(lia)
                  ltac:(rewrite Nat.add_0_r; reflexivity)) as Hscan.
    destruct Hscan as (Hk & Hmax & Hfirst).
    { intros j' Hj'. assert (j' = 0) as -> by lia.
      rewrite Nat.add_0_r. apply gt_irrefl. }
    { intros j' Hj'. lia. }
    fold (class i) in Hk, Hmax, Hfirst.
    replace (1 + (num_classes - 1)) with num_classes in Hk, Hmax by lia.
    unfold is_argmax_first. rewrite row_length by exact Hrow.
    simpl in Hrow.
    split; [exact Hk|]. split.
    + intros j Hj. rewrite !row_lookup by lia. apply Hmax. exact Hj.
    + intros j Hj. rewrite !row_lookup by lia. apply Hfirst. exact Hj.
  - unfold compareOutputCorrect, count_matches.
    rewrite count_correct_filter. rewrite Z.add_0_l. f_equal. f_equal.
    apply filter_seq_ext. intros k Hk.
    assert (launch BW batch_size (inferClass T gt O batch_size num_classes)
              pred_y !!! k = Z.of_nat (class k)) as ->; [|reflexivity].
    apply (launch_written Z batch_size (fun i => i)
             (fun i => Z.of_nat (class i))
             (inferClass T gt O batch_size num_classes)).
    + intros i s. reflexivity.
    + intros i j _ _ Hij. exact Hij.
    + exact HBW.
    + intros j Hj. rewrite Hpred. exact Hj.
    + lia.
Qed.

End Accuracy.

Lemma Zgtb_irrefl a : (a >? a)%Z = false.
Proof. rewrite Z.gtb_ltb. apply Z.ltb_irrefl. Qed.

Lemma Zgtb_trans a b c :
  (a >? b)%Z = true -> (b >? c)%Z = true -> (a >? c)%Z = true.
Proof. rewrite !Z.gtb_ltb, !Z.ltb_lt. lia. Qed.

Lemma Zgtb_neg_trans a b c :
  (a >? b)%Z = false -> (b >? c)%Z = false -> (a >? c)%Z = false.
Proof. rewrite !Z.gtb_ltb, !Z.ltb_ge. lia. Qed.

Lemma compareOutputCorrect_counts_argmax_witness :
  exists class : nat -> nat,
    (forall i, i < 2 ->
       is_argmax_first Z Z.gtb (row Z [1; 5; 2; 7; 7; 3]%Z 3 i) (class i)) /\
    compareOutputCorrect Z Z.gtb 4 2 3 [1; 5; 2; 7; 7; 3]%Z [0; 0]%Z [1; 0]%Z
      = count_matches class 2 [1; 0]%Z.
Proof.
  apply (compareOutputCorrect_counts_argmax Z Z.gtb Zgtb_irrefl Zgtb_trans
           Zgtb_neg_trans 4 2 3 [1; 5; 2; 7; 7; 3]%Z [0; 0]%Z [1; 0]%Z);
    [lia|lia|reflexivity|reflexivity].
Defined.

Section Loss.
Variable F : Type.
Context `{Inhabited F}.
Variable fzero : F.
Variable fadd fmul fdiv : F -> F -> F.
Variable fneg logf : F -> F.
Variable of_int : Z -> F.

Lemma total_loss_loop_fold (h_loss : list F) n i acc :
  total_loss_loop F fadd h_loss n i acc
    = fold_left fadd (map (fun k => h_loss !!! k) (seq i n)) acc.
Proof.
  revert i acc. induction n as [|n IH]; intros i acc; simpl; [reflexivity|].
  apply IH.
Qed.

Lemma map_seq_ext {B} (f1 f2 : nat -> B) i n :
  (forall k, i <= k < i + n -> f1 k = f2 k) ->
  map f1 (seq i n) = map f2 (seq i n).
Proof.
  revert i. induction n as [|n IH]; intros i Hext; [reflexivity|]. simpl.
  rewrite (Hext i) by lia. f_equal. apply IH. intros k Hk. apply Hext. lia.
Qed.

(** X7. When the last layer is a Softmax, [computeLoss] returns the sum,
    taken in order of the row index from [0.0], of
    [-logf(O[i * num_classes + y[i]] + softmax_eps)] over the rows
    [i < batch_size], divided by [batch_size], whatever the block width and
    whatever the loss buffer held.  When the last layer is not a Softmax no
    kernel runs, and the result is the same sum over the buffer's old
    contents. *)
Theorem computeLoss_is_batch_mean (last_type : LayerOp)
    (BW batch_size num_classes : nat) (O : list F) (y : list Z)
    (softmax_eps : F) (loss : list F) :
  0 < BW ->
  length loss = batch_size ->
  computeLoss F fzero fadd fdiv fneg logf of_int last_type BW batch_size
    num_classes O y softmax_eps loss
  = fdiv
      (fold_left fadd
         (map (fun i =>
                 if bool_decide (last_type = SOFTMAX)
                 then fneg (logf (fadd (O !!! label_index num_classes y i)
                                    softmax_eps))
                 else loss !!! i)
            (seq 0 batch_size))
         fzero)
      (of_int (Z.of_nat batch_size)).
Proof.
  intros HBW Hlen. unfold computeLoss. f_equal.
  rewrite total_loss_loop_fold. f_equal.
  apply map_seq_ext. intros k Hk.
  destruct (bool_decide (last_type = SOFTMAX)); [|reflexivity].
  apply (launch_written F batch_size (fun i => i)
           (fun i => fneg (logf (fadd (O !!! label_index num_classes y i)
                                   softmax_eps)))).
  - intros i s. reflexivity.
  - intros i j _ _ Hij. exact Hij.
  - exact HBW.
  - intros j Hj. rewrite Hlen. exact Hj.
  - lia.
Qed.

(** X8. For labels within [0, num_classes), the gradient that [getLoss]
    hands to the backward pass has [batch_size * num_classes] entries, all
    zero except entry [y[i]] of each row [i], which holds
    [-1 / (SO[i][y[i]] * batch_size + softmax_eps)]: the epsilon is added
    after the multiplication by [batch_size]. *)
Theorem loss_gradient_one_entry_per_row (BW batch_size num_classes : nat)
    (y : list Z) (SO : list F) (softmax_eps : F) (i c : nat) :
  0 < BW ->
  (forall j, j < batch_size -> (0 <= y !!! j < Z.of_nat num_classes)%Z) ->
  i < batch_size ->
  c < num_classes ->
  let dSO := loss_gradient F fzero fadd fmul fdiv of_int BW batch_size
               num_classes y SO softmax_eps in
  length dSO = batch_size * num_classes /\
  dSO !!! (i * num_classes + c) =
    if bool_decide (Z.of_nat c = y !!! i)
    then fdiv (of_int (-1))
           (fadd (fmul (SO !!! (i * num_classes + c))
                    (of_int (Z.of_nat batch_size))) softmax_eps)
    else fzero.
Proof.
  intros HBW Hy Hi Hc dSO. subst dSO. unfold loss_gradient.
  assert (forall j, j < batch_size ->
            label_index num_classes y j = j * num_classes + Z.to_nat (y !!! j)
            /\ Z.to_nat (y !!! j) < num_classes) as Hidx.
  { intros j Hj. specialize (Hy j Hj). unfold label_index. split; lia. }
  assert (forall j k a b, a < num_classes -> b < num_classes ->
            j * num_classes + a = k * num_classes + b -> j = k /\ a = b)
    as Hdiv.
  { intros j k a b Ha Hb Heq.
    assert (j = k) as ->; [|split; [reflexivity|lia]].
    destruct (Nat.lt_trichotomy j k) as [Hlt|[Heq'|Hgt]]; [|exact Heq'|];
      exfalso; nia. }
  set (kernel := softmaxLossBackProp F fadd fmul fdiv of_int y SO batch_size
                   num_classes softmax_eps).
  set (v := fun j => fdiv (of_int (-1))
              (fadd (fmul (SO !!! label_index num_classes y j)
                       (of_int (Z.of_nat batch_size))) softmax_eps)).
  assert (forall j s, kernel j s =
            if batch_size <=? j then s
            else <[label_index num_classes y j := v j]> s) as Hbody
    by (intros j s; reflexivity).
  assert (forall j k, j < batch_size -> k < batch_size ->
            label_index num_classes y j = label_index num_classes y k ->
            j = k) as Hinj.
  { intros j k Hj Hk Heq.
    destruct (Hidx j Hj) as [Ej Hj']. destruct (Hidx k Hk) as [Ek Hk'].
    rewrite Ej, Ek in Heq. apply (Hdiv _ _ _ _ Hj' Hk' Heq). }
  split.
  - rewrite (launch_length F batch_size (label_index num_classes y) v kernel
               Hbody). apply length_replicate.
  - destruct (Hidx i Hi) as [Ei Hi'].
    destruct (bool_decide (Z.of_nat c = y !!! i)) eqn:Hlabel.
    + apply bool_decide_eq_true in Hlabel.
      assert (i * num_classes + c = label_index num_classes y i) as Hcell
        by (rewrite Ei; lia).
      rewrite Hcell.
      rewrite (launch_written F batch_size (label_index num_classes y) v
                 kernel Hbody Hinj BW _ i HBW); [reflexivity| |exact Hi].
      intros j Hj. rewrite length_replicate.
      destruct (Hidx j Hj) as [Ej Hj']. rewrite Ej. nia.
    + apply bool_decide_eq_false in Hlabel.
      rewrite (launch_untouched F batch_size (label_index num_classes y) v
                 kernel Hbody).
      * apply lookup_total_replicate_2. nia.
      * intros j Hj Heq. destruct (Hidx j Hj) as [Ej Hj'].
        rewrite Ej in Heq.
        destruct (Hdiv _ _ _ _ Hj' Hc Heq) as [-> Hyc].
        apply Hlabel. specialize (Hy i Hi). lia.
Qed.
End Loss.

(** * The analytic simulation accepts only plans that fit *)

Section AnalyticFits.
Variable net : NeuralNet.
Variable to_offload : list bool.
Variable getWorkspaceSize : WorkspaceOracle.
Variable algo_pref : vDNNConvAlgoPref.
Variable hard : bool.
Variable free0 : Z.
Hypothesis Hsizes : sizes_nonneg net.
Hypothesis Horacle : oracle_sane getWorkspaceSize.

Lemma fits_weaken st : peak_fits free0 st -> peak_fits_or_full free0 st.
Proof. intros [H1 H2]. split; [exact H1|left; exact H2]. Qed.

Lemma full_sub size st :
  (0 <= size)%Z ->
  peak_fits_or_full free0 st ->
  peak_fits_or_full free0 (sim_update SUB size st).
Proof.
  intros Hs [Hi Hj]. split; [exact Hi|].
  unfold sim_update, tracker_update, space_update, getConsumed. simpl. lia.
Qed.

Lemma full_update_max st :
  peak_fits_or_full free0 st -> peak_fits_or_full free0 (sim_update_max st).
Proof.
  intros [Hi Hj]. split; [exact Hi|].
  unfold sim_update_max, updateMaxConsume, getConsumed. simpl. lia.
Qed.

Lemma full_prefetched st pf :
  peak_fits_or_full free0 st ->
  peak_fits_or_full free0
    (mkSimState (sim_space st) (sim_max_consume st) pf).
Proof. intros H. exact H. Qed.

Lemma fits_available st :
  peak_fits_or_full free0 st ->
  isAvailable (sim_space st) = true ->
  peak_fits free0 st.
Proof.
  intros [Hi Hj] Ha. unfold isAvailable in Ha. apply Z.leb_le in Ha.
  split; [exact Hi|lia].
Qed.

Lemma fits_add size st :
  peak_fits free0 st -> peak_fits free0 (sim_update ADD size st).
Proof. intros [Hi Hj]. split; [exact Hi|exact Hj]. Qed.

(** Split the paths of a simulation step apart without unfolding the
    tracker, and read the tests that a successful path has passed. *)
Ltac oracle_answers :=
  repeat match goal with
  | |- context [getWorkspaceSize ?a ?b ?c ?d ?e] =>
      let ws := fresh "ws" in
      let Hws := fresh "Hws" in
      pose proof (Horacle a b c d e) as Hws;
      generalize dependent (getWorkspaceSize a b c d e); intros ws Hws
  end.

Ltac sim_paths :=
  repeat (match goal with
          | |- context [if ?c then _ else _] => destruct c eqn:?
          end; cbn [fst snd negb]);
  try discriminate.

Ltac passed_tests :=
  repeat match goal with
  | H : (_ || _) = false |- _ => apply orb_false_iff in H as [? ?]
  | H : negb _ = false |- _ => apply negb_false_iff in H
  | H : (_ =? _)%Z = false |- _ => apply Z.eqb_neq in H
  | H : (_ >? _)%Z = true |- _ => rewrite Z.gtb_ltb in H; apply Z.ltb_lt in H
  | H : (_ >? _)%Z = false |- _ => rewrite Z.gtb_ltb in H; apply Z.ltb_ge in H
  end.

Ltac fits_chain :=
  repeat first
    [ assumption
    | apply fits_add
    | apply fits_available; [|assumption]
    | apply full_update_max
    | apply full_prefetched
    | apply full_sub; [lia|]
    | apply fits_weaken ].

Lemma sim_forward_layer_fits i st :
  peak_fits_or_full free0 st ->
  fst (sim_forward_layer net to_offload getWorkspaceSize algo_pref hard i st)
    = SimContinue ->
  peak_fits free0
    (snd (sim_forward_layer net to_offload getWorkspaceSize algo_pref hard i st)).
Proof.
  destruct Hsizes as (Hin & _ & _).
  pose proof (Hin (S i)) as H1. pose proof (Hin i) as H2.
  intros Hst. unfold sim_forward_layer.
  oracle_answers. sim_paths; intros _; passed_tests; fits_chain.
Qed.

Lemma sim_forward_loop_fits n i st :
  peak_fits_or_full free0 st ->
  fst (sim_forward_loop net to_offload getWorkspaceSize algo_pref hard n i st)
    = SimContinue ->
  peak_fits_or_full free0
    (snd (sim_forward_loop net to_offload getWorkspaceSize algo_pref hard n i st)).
Proof.
  revert i st. induction n as [|n IH]; intros i st Hst; simpl; [auto|].
  destruct (type_is net i SOFTMAX); simpl; [auto|].
  pose proof (sim_forward_layer_fits i st Hst) as Hl.
  destruct (sim_forward_layer _ _ _ _ _ i st) as [[] st']; simpl in *;
    [|discriminate].
  apply IH. apply fits_weaken. apply Hl. reflexivity.
Qed.

Lemma sim_derivatives_fits pre a b st :
  (0 <= a)%Z -> (0 <= b)%Z ->
  peak_fits_or_full free0 st ->
  fst (sim_derivatives pre a b st) = SimContinue ->
  peak_fits free0 (snd (sim_derivatives pre a b st)).
Proof.
  intros Ha Hb Hst. unfold sim_derivatives.
  destruct pre; cbn [negb]; sim_paths; intros _; passed_tests; fits_chain.
Qed.

Lemma sim_backward_compute_fits i st :
  peak_fits_or_full free0 st ->
  fst (sim_backward_compute net getWorkspaceSize algo_pref hard i st)
    = SimContinue ->
  peak_fits_or_full free0
    (snd (sim_backward_compute net getWorkspaceSize algo_pref hard i st)).
Proof.
  destruct Hsizes as (_ & Hdts & Hpar).
  intros Hst. unfold sim_backward_compute.
  destruct (params net !! i) as [p|] eqn:Hp; [|auto].
  specialize (Hpar i p Hp).
  destruct p; try (intros _; exact Hst).
  - destruct Hpar as [Hk Hc].
    assert (0 <= kernel_size * data_type_size net)%Z as Hkb by nia.
    assert (0 <= C_out * data_type_size net)%Z as Hcb by nia.
    generalize dependent (kernel_size * data_type_size net)%Z. intros kb Hkb.
    generalize dependent (C_out * data_type_size net)%Z. intros cb Hcb.
    oracle_answers. cbv zeta.
    destruct (pre_alloc_conv_derivative net), (bool_decide (0 < i));
      cbn [negb];
      sim_paths; intros _; passed_tests; fits_chain.
  - destruct Hpar as [Hw Hc]. intros Hflow. apply fits_weaken.
    apply sim_derivatives_fits; [nia|nia|exact Hst|exact Hflow].
  - intros Hflow. apply fits_weaken.
    apply sim_derivatives_fits; [nia|nia|exact Hst|exact Hflow].
Qed.

Lemma sim_backward_layer_fits i st :
  peak_fits_or_full free0 st ->
  fst (sim_backward_layer net to_offload getWorkspaceSize algo_pref hard i st)
    = SimContinue ->
  let st' := snd (sim_backward_layer net to_offload getWorkspaceSize
                    algo_pref hard i st) in
  peak_fits_or_full free0 st' /\ (i = 0 -> peak_fits free0 st').
Proof.
  destruct Hsizes as (Hin & _ & _).
  intros Hst. unfold sim_backward_layer.
  destruct (bool_decide (0 < i) && type_is net i SOFTMAX) eqn:Hcont.
  { simpl. intros _. split; [exact Hst|]. intros ->. discriminate. }
  destruct (findPrefetchLayer _ _ _ i) as [pf j].
  match goal with
  | |- context [sim_backward_compute _ _ _ _ i ?s] =>
      assert (peak_fits_or_full free0 s) as Hs
  end.
  { pose proof (Hin i) as H1.
    destruct j as [j|]; [pose proof (Hin j) as H2|];
      destruct (bool_decide (0 < i)); fits_chain. }
  match goal with
  | |- context [sim_backward_compute _ _ _ _ i ?s] =>
      pose proof (sim_backward_compute_fits i s Hs) as Hc;
      destruct (sim_backward_compute net getWorkspaceSize algo_pref hard i s)
        as [[] st3]
  end; cbn [fst snd] in Hc; [|cbn [fst snd]; discriminate].
  specialize (Hc eq_refl).
  pose proof (Hin (S i)) as H1. pose proof (Hin i) as H2.
  sim_paths; intros _; passed_tests; (split; [|intros _]); fits_chain.
Qed.

Lemma sim_backward_loop_fits k st :
  0 < k ->
  peak_fits_or_full free0 st ->
  fst (sim_backward_loop net to_offload getWorkspaceSize algo_pref hard k st)
    = SimContinue ->
  peak_fits free0
    (snd (sim_backward_loop net to_offload getWorkspaceSize algo_pref hard k st)).
Proof.
  revert st. induction k as [|k IH]; intros st Hk Hst; [lia|]. simpl.
  pose proof (sim_backward_layer_fits k st Hst) as Hl.
  destruct (sim_backward_layer _ _ _ _ _ k st) as [[] st']; simpl in *;
    [|discriminate].
  destruct (Hl eq_refl) as [Hj Hlast].
  destruct k as [|k]; [intros _; simpl; apply Hlast; reflexivity|].
  apply IH; [lia|exact Hj].
Qed.
End AnalyticFits.

(** X9. A plan that the analytic simulation accepts fits the budget: for a
    network with at least one layer, sizes that are not negative and an
    oracle that answers a size or [-1], a run that reaches the allocator
    replay has its recorded peak [max_consume] (the value copied to
    [exp_max_consume]) between [0] and [free_bytes]. *)
Theorem simulate_analytic_accepts_within_budget (net : NeuralNet)
    (to_offload : list bool) (getWorkspaceSize : WorkspaceOracle)
    (algo_pref : vDNNConvAlgoPref) (hard : bool) (free_bytes : Z)
    (prefetched : list bool) (st : SimState) :
  sizes_nonneg net ->
  oracle_sane getWorkspaceSize ->
  0 < num_layers net ->
  simulate_analytic net to_offload getWorkspaceSize algo_pref hard
    free_bytes prefetched = Some (SimContinue, st) ->
  (0 <= sim_max_consume st <= free_bytes)%Z.
Proof.
  intros Hsizes Horacle Hlayers Hrun.
  split; [eapply simulate_analytic_peak_nonneg; exact Hrun|].
  destruct Hsizes as (Hin & Hrest).
  pose proof (conj Hin Hrest : sizes_nonneg net) as Hsizes.
  unfold simulate_analytic in Hrun.
  match type of Hrun with
  | context [sim_forward_loop _ _ _ _ _ _ 0 ?s] =>
      assert (peak_fits_or_full free_bytes s) as H0
  end.
  { apply full_update_max. apply full_sub; [apply Hin|].
    split; [reflexivity|]. simpl. lia. }
  match type of Hrun with
  | context [sim_forward_loop _ _ _ _ _ _ 0 ?s] =>
      pose proof (sim_forward_loop_fits net to_offload getWorkspaceSize
                    algo_pref hard free_bytes Hsizes Horacle
                    (num_layers net) 0 s H0) as Hfwd;
      destruct (sim_forward_loop net to_offload getWorkspaceSize algo_pref
                  hard (num_layers net) 0 s) as [[] st1]
  end; [|discriminate].
  specialize (Hfwd eq_refl). cbn [snd] in Hfwd.
  destruct (negb _); [discriminate|].
  injection Hrun as Hrun.
  match type of Hrun with
  | sim_backward_loop _ _ _ _ _ _ ?s = _ =>
      pose proof (sim_backward_loop_fits net to_offload getWorkspaceSize
                    algo_pref hard free_bytes Hsizes Horacle
                    (num_layers net) s Hlayers) as Hbwd
  end.
  rewrite Hrun in Hbwd. cbn [fst snd] in Hbwd.
  apply Hbwd; [|reflexivity].
  apply full_update_max. apply full_sub; [apply Hin|exact Hfwd].
Qed.

Lemma conv_fc_softmax_sizes : sizes_nonneg conv_fc_softmax.
Proof.
  split; [|split].
  - intros i. unfold input_bytes.
    do 4 (destruct i as [|i]; [vm_compute; discriminate|]).
    vm_compute. discriminate.
  - vm_compute. discriminate.
  - intros i p Hp.
    do 3 (destruct i as [|i];
          [injection Hp as <-; simpl; try exact I; lia|]).
    discriminate Hp.
Qed.

Lemma recorded_workspace_sane : oracle_sane (recorded_workspace conv_fc_softmax).
Proof.
  intros i free direction algo_pref hard. unfold recorded_workspace.
  do 3 (destruct i as [|i]; [destruct direction; simpl; lia|]).
  simpl. lia.
Qed.

Lemma simulate_analytic_accepts_within_budget_witness :
  exists st,
    simulate_analytic conv_fc_softmax conv_fc_softmax_flags
      (recorded_workspace conv_fc_softmax) PREFER_PERFORMANCE_OPTIMAL true
      200 [false; false; false] = Some (SimContinue, st) /\
    (0 <= sim_max_consume st <= 200)%Z.
Proof.
  destruct (simulate_analytic conv_fc_softmax conv_fc_softmax_flags
              (recorded_workspace conv_fc_softmax) PREFER_PERFORMANCE_OPTIMAL
              true 200 [false; false; false]) as [[[] st]|] eqn:Hrun;
    try (vm_compute in Hrun; discriminate Hrun).
  exists st. split; [reflexivity|].
  apply (simulate_analytic_accepts_within_budget conv_fc_softmax
           conv_fc_softmax_flags (recorded_workspace conv_fc_softmax)
           PREFER_PERFORMANCE_OPTIMAL true 200 [false; false; false] st
           conv_fc_softmax_sizes recorded_workspace_sane
           ltac:(unfold num_layers; simpl; lia) Hrun).
Defined.

Lemma computeLoss_is_batch_mean_witness :
  computeLoss Z 0%Z Z.add Z.div Z.opp (fun x => x) (fun x => x) SOFTMAX
    2 3 2 [1; 2; 3; 4; 5; 6]%Z [0; 1; 1]%Z 0%Z [9; 9; 9]%Z
  = (-11 / 3)%Z.
Proof.
  rewrite (computeLoss_is_batch_mean Z 0%Z Z.add Z.div Z.opp (fun x => x)
             (fun x => x) SOFTMAX 2 3 2 [1; 2; 3; 4; 5; 6]%Z [0; 1; 1]%Z 0%Z
             [9; 9; 9]%Z ltac:(lia) eq_refl).
  reflexivity.
Defined.

Lemma loss_gradient_one_entry_per_row_witness :
  let dSO := loss_gradient Z 0%Z Z.add Z.mul Z.div (fun x => x) 2 3 2
               [0; 1; 1]%Z [1; 2; 3; 4; 5; 6]%Z 0%Z in
  length dSO = 6 /\ dSO !!! 3 = (-1 / (4 * 3 + 0))%Z /\ dSO !!! 2 = 0%Z.
Proof.
  intros dSO.
  assert (forall j, j < 3 -> (0 <= [0; 1; 1]%Z !!! j < Z.of_nat 2)%Z) as Hy.
  { intros j Hj. do 3 (destruct j as [|j]; [simpl; lia|]). lia. }
  destruct (loss_gradient_one_entry_per_row Z 0%Z Z.add Z.mul Z.div
              (fun x => x) 2 3 2 [0; 1; 1]%Z [1; 2; 3; 4; 5; 6]%Z 0%Z 1 1
              ltac:(lia) Hy ltac:(lia) ltac:(lia)) as [Hlen Hcell].
  destruct (loss_gradient_one_entry_per_row Z 0%Z Z.add Z.mul Z.div
              (fun x => x) 2 3 2 [0; 1; 1]%Z [1; 2; 3; 4; 5; 6]%Z 0%Z 1 0
              ltac:(lia) Hy ltac:(lia) ltac:(lia)) as [_ Hzero].
  split; [exact Hlen|]. split; [exact Hcell|exact Hzero].
Defined.

(** * The locked allocator's retry loop *)

Lemma lockedcnmemMalloc_loop_first_success status n : forall fuel k waits,
  (forall j, k <= j < k + n -> status j <> CNMEM_STATUS_SUCCESS) ->
  status (k + n) = CNMEM_STATUS_SUCCESS ->
  n < fuel ->
  lockedcnmemMalloc_loop status fuel k waits
    = MallocReturned (S (k + n)) (waits + count_out_of_memory status k n).
Proof.
  induction n as [|n IH]; intros fuel k waits Hnone Hok Hfuel.
  - destruct fuel as [|fuel]; [lia|]. simpl.
    rewrite Nat.add_0_r in *. rewrite Hok. f_equal; lia.
  - destruct fuel as [|fuel]; [lia|]. simpl.
    assert (status k <> CNMEM_STATUS_SUCCESS) as Hk by (apply Hnone; lia).
    assert (forall w,
      lockedcnmemMalloc_loop status fuel (S k) w
        = MallocReturned (S (k + S n))
            (w + count_out_of_memory status (S k) n)) as Hrest.
    { intros w. replace (k + S n) with (S k + n) by lia.
      apply IH; [|replace (S k + n) with (k + S n) by lia; exact Hok|lia].
      intros j Hj. apply Hnone. lia. }
    destruct (status k) eqn:Hs; try congruence; rewrite Hrest;
      f_equal; simpl; lia.
Qed.

(** X10. [lockedcnmemMalloc] returns exactly at the first attempt at which
    the pool reports success, however many attempts that takes, having
    waited on the condition variable once for each out-of-memory report
    before it; an earlier report of any other kind neither ends the call
    nor makes it wait. *)
Theorem lockedcnmemMalloc_returns_at_first_success
    (status : nat -> cnmemStatus_t) (n fuel : nat) :
  (forall j, j < n -> status j <> CNMEM_STATUS_SUCCESS) ->
  status n = CNMEM_STATUS_SUCCESS ->
  n < fuel ->
  lockedcnmemMalloc_loop status fuel 0 0
    = MallocReturned (S n) (count_out_of_memory status 0 n).
Proof.
  intros Hnone Hok Hfuel.
  apply (lockedcnmemMalloc_loop_first_success status n fuel 0 0);
    [intros j Hj; apply Hnone; lia|exact Hok|exact Hfuel].
Qed.

Lemma lockedcnmemMalloc_returns_at_first_success_witness :
  lockedcnmemMalloc_loop
    (fun k => match k with
              | 0 => CNMEM_STATUS_OUT_OF_MEMORY
              | 1 => CNMEM_STATUS_INVALID_ARGUMENT
              | 2 => CNMEM_STATUS_OUT_OF_MEMORY
              | _ => CNMEM_STATUS_SUCCESS
              end) 10 0 0
  = MallocReturned 4 2.
Proof.
  refine (lockedcnmemMalloc_returns_at_first_success _ 3 10 _ _ _).
  - intros j Hj. do 3 (destruct j as [|j]; [discriminate|]). lia.
  - reflexivity.
  - lia.
Defined.

(** X11. When the pool keeps reporting an error that is neither success nor
    out-of-memory, [lockedcnmemMalloc] neither returns nor fails nor waits:
    after any number of iterations it is still retrying, holding the mutex,
    without a single wait on the condition variable. *)
Theorem lockedcnmemMalloc_spins_on_other_errors
    (status : nat -> cnmemStatus_t) (fuel : nat) :
  (forall k, status k <> CNMEM_STATUS_SUCCESS /\
             status k <> CNMEM_STATUS_OUT_OF_MEMORY) ->
  lockedcnmemMalloc_loop status fuel 0 0 = MallocTrying 0.
Proof.
  intros Herr. generalize 0 at 1 as k.
  induction fuel as [|fuel IH]; intros k; simpl; [reflexivity|].
  destruct (Herr k) as [Hs Ho].
  destruct (status k); try congruence; apply IH.
Qed.

Lemma lockedcnmemMalloc_spins_on_other_errors_witness :
  lockedcnmemMalloc_loop (fun _ => CNMEM_STATUS_INVALID_ARGUMENT) 1000 0 0
    = MallocTrying 0.
Proof.
  apply (lockedcnmemMalloc_spins_on_other_errors
           (fun _ => CNMEM_STATUS_INVALID_ARGUMENT) 1000).
  intros k. split; discriminate.
Defined.

(** * Bounds of the accuracy count *)

(** X12. The count that [compareOutputCorrect] returns lies between 0 and
    [batch_size], whatever the tensor, the labels and the block width. *)
Theorem compareOutputCorrect_bounded (T : Type) (gt : T -> T -> bool)
    `{Inhabited T} (BW batch_size num_classes : nat) (O : list T)
    (pred_y y : list Z) :
  (0 <= compareOutputCorrect T gt BW batch_size num_classes O pred_y y
     <= Z.of_nat batch_size)%Z.
Proof.
  unfold compareOutputCorrect. rewrite count_correct_filter.
  match goal with
  | |- context [length (filter ?P (seq 0 batch_size))] =>
      pose proof (length_filter P (seq 0 batch_size)) as Hle
  end.
  rewrite length_seq in Hle. lia.
Qed.

(** * The solver's loops *)

Section SolverFacts.
Variables (World F Data : Type).
Variable fmul : F -> F -> F.
Variable step : F -> Z -> Z -> World -> (F * F) * World.
Variable getLoss_infer : Data -> Z -> Z -> World -> Z * World.

Local Abbreviation train_batch' := (train_batch World F Data step).
Local Abbreviation count_batch' := (count_batch World F Data getLoss_infer).
Local Abbreviation time_batch' := (time_batch World F Data step).
Local Abbreviation train_epoch' :=
  (train_epoch World F Data step getLoss_infer).

Lemma train_batches_push sv l : forall w loss,
  exists w' new,
    fold_left (train_batch' sv) l (w, loss) = (w', loss ++ new) /\
    length new = length l.
Proof.
  induction l as [|j l IH]; intros w loss; simpl.
  - exists w, []. rewrite app_nil_r. split; reflexivity.
  - destruct (step (learning_rate sv)
                (Z.of_nat j * num_features sv * batch_size_of_model sv)
                (Z.of_nat j * batch_size_of_model sv) w)
      as [[temp_loss milli] w1].
    destruct (IH w1 (loss ++ [temp_loss])) as (w' & new & Hfold & Hlen).
    exists w', (temp_loss :: new). rewrite Hfold, <- app_assoc. simpl.
    split; [reflexivity|lia].
Qed.

Lemma count_batches_bound sv data l :
  (forall a b w,
     (0 <= fst (getLoss_infer data a b w) <= batch_size_of_model sv)%Z) ->
  forall w c,
    (c <= snd (fold_left (count_batch' sv data) l (w, c))
       <= c + Z.of_nat (length l) * batch_size_of_model sv)%Z.
Proof.
  intros Hcount. induction l as [|j l IH]; intros w c.
  - simpl. lia.
  - cbn [fold_left count_batch].
    pose proof (Hcount
      (Z.of_nat j * num_features sv * batch_size_of_model sv)%Z
      (Z.of_nat j * batch_size_of_model sv)%Z w) as Hj.
    destruct (getLoss_infer data
                (Z.of_nat j * num_features sv * batch_size_of_model sv)
                (Z.of_nat j * batch_size_of_model sv) w) as [temp w1].
    simpl in Hj. specialize (IH w1 (c + temp)%Z).
    change (length (j :: l)) with (S (length l)). nia.
Qed.

Lemma train_epoch_push sv w loss val_acc :
  exists w' new c,
    train_epoch' sv (w, loss, val_acc) = (w', loss ++ new, val_acc ++ [c]) /\
    length new = num_batches (num_train sv) (batch_size_of_model sv).
Proof.
  unfold train_epoch.
  destruct (train_batches_push sv
              (seq 0 (num_batches (num_train sv) (batch_size_of_model sv)))
              w loss) as (w1 & new & Hfold & Hlen).
  rewrite Hfold.
  destruct (fold_left (count_batch' sv (val_data sv))
              (seq 0 (num_batches (num_val sv) (batch_size_of_model sv)))
              (w1, 0%Z)) as [w2 c].
  exists w2, new, c. rewrite length_seq in Hlen. split; [reflexivity|exact Hlen].
Qed.

Lemma train_epochs_push sv n : forall w loss val_acc,
  exists w' new_loss new_acc,
    Nat.iter n (train_epoch' sv) (w, loss, val_acc)
      = (w', loss ++ new_loss, val_acc ++ new_acc) /\
    length new_loss
      = n * num_batches (num_train sv) (batch_size_of_model sv) /\
    length new_acc = n.
Proof.
  induction n as [|n IH]; intros w loss val_acc.
  - exists w, [], []. rewrite !app_nil_r. repeat split.
  - destruct (IH w loss val_acc) as (w1 & nl & na & Hiter & Hl & Ha).
    cbn [Nat.iter nat_rect]. unfold Nat.iter in Hiter. rewrite Hiter.
    destruct (train_epoch_push sv w1 (loss ++ nl) (val_acc ++ na))
      as (w2 & new & c & Hep & Hnew).
    rewrite Hep. exists w2, (nl ++ new), (na ++ [c]).
    rewrite <- !app_assoc. split; [reflexivity|].
    rewrite !length_app. simpl. lia.
Qed.

(** X13. [Solver::train] appends to [loss] one value for every training
    batch of every epoch and to [val_acc] one count for every epoch, leaves
    what those vectors held in place, and multiplies the learning rate by
    its decay once for the whole call, however many epochs it ran. *)
Theorem train_pushes_per_batch_and_epoch (sv : Solver F Data) (w : World)
    (loss : list F) (val_acc : list Z) :
  batch_size_of_model sv <> 0%Z ->
  exists w' new_loss new_acc,
    train World F Data fmul step getLoss_infer sv w loss val_acc
      = Some (decayed F Data fmul sv, w',
              loss ++ new_loss, val_acc ++ new_acc) /\
    length new_loss
      = Z.to_nat (num_epoch sv)
        * num_batches (num_train sv) (batch_size_of_model sv) /\
    length new_acc = Z.to_nat (num_epoch sv) /\
    learning_rate (decayed F Data fmul sv)
      = fmul (learning_rate sv) (learning_rate_decay sv).
Proof.
  intros Hbs. unfold train.
  destruct (Z.eqb_spec (batch_size_of_model sv) 0) as [?|_]; [contradiction|].
  destruct (train_epochs_push sv (Z.to_nat (num_epoch sv)) w loss val_acc)
    as (w' & nl & na & Hiter & Hl & Ha).
  rewrite Hiter. exists w', nl, na. repeat split; assumption.
Qed.

(** X15. [Solver::checkAccuracy] evaluates whole batches only: when every
    batch reports a count between 0 and the batch size, the total it leaves
    in [*num_correct] lies between 0 and [num_samples], and the samples
    after the last whole batch do not influence it. *)
Theorem checkAccuracy_counts_whole_batches (sv : Solver F Data) (data : Data)
    (num_samples : Z) (w : World) :
  (0 < batch_size_of_model sv)%Z ->
  (0 <= num_samples)%Z ->
  (forall a b w',
     (0 <= fst (getLoss_infer data a b w') <= batch_size_of_model sv)%Z) ->
  (exists num_correct w',
     checkAccuracy World F Data getLoss_infer sv data num_samples w
       = Some (num_correct, w') /\
     (0 <= num_correct <= num_samples)%Z) /\
  checkAccuracy World F Data getLoss_infer sv data
      (batch_size_of_model sv * (num_samples ÷ batch_size_of_model sv)) w
    = checkAccuracy World F Data getLoss_infer sv data num_samples w.
Proof.
  intros Hbs Hn Hcount. split.
  - unfold checkAccuracy.
    destruct (Z.eqb_spec (batch_size_of_model sv) 0) as [?|_]; [lia|].
    pose proof (count_batches_bound sv data
      (seq 0 (num_batches num_samples (batch_size_of_model sv)))
      Hcount w 0%Z) as Hb.
    destruct (fold_left (count_batch' sv data)
                (seq 0 (num_batches num_samples (batch_size_of_model sv)))
                (w, 0%Z)) as [w' n].
    exists n, w'. split; [reflexivity|].
    simpl in Hb. rewrite length_seq in Hb. unfold num_batches in Hb.
    rewrite Z.quot_div_nonneg in Hb by lia.
    pose proof (Z.div_pos num_samples (batch_size_of_model sv) Hn Hbs).
    rewrite Z2Nat.id in Hb by assumption.
    pose proof (Z.mul_div_le num_samples (batch_size_of_model sv) Hbs).
    lia.
  - unfold checkAccuracy, num_batches.
    rewrite Z.mul_comm, Z.quot_mul by lia. reflexivity.
Qed.

Lemma time_batches_train sv l : forall w loss time,
  exists w' loss' new_time,
    fold_left (time_batch' sv) l (w, loss, time)
      = (w', loss', time ++ new_time) /\
    fold_left (train_batch' sv) l (w, loss) = (w', loss') /\
    length new_time = length l.
Proof.
  induction l as [|j l IH]; intros w loss time; simpl.
  - exists w, loss, []. rewrite app_nil_r. repeat split.
  - destruct (step (learning_rate sv)
                (Z.of_nat j * num_features sv * batch_size_of_model sv)
                (Z.of_nat j * batch_size_of_model sv) w)
      as [[temp_loss milli] w1].
    destruct (IH w1 (loss ++ [temp_loss]) (time ++ [milli]))
      as (w' & loss' & nt & Htime & Htrain & Hlen).
    exists w', loss', (milli :: nt). rewrite Htime, Htrain, <- app_assoc.
    simpl. repeat split. lia.
Qed.

Lemma time_epochs_train sv n :
  num_batches (num_val sv) (batch_size_of_model sv) = 0 ->
  forall w loss time val_acc,
  exists w' loss' new_time,
    Nat.iter n
      (fun acc =>
         fold_left (time_batch' sv)
           (seq 0 (num_batches (num_train sv) (batch_size_of_model sv))) acc)
      (w, loss, time)
      = (w', loss', time ++ new_time) /\
    Nat.iter n (train_epoch' sv) (w, loss, val_acc)
      = (w', loss', val_acc ++ repeat 0%Z n) /\
    length new_time
      = n * num_batches (num_train sv) (batch_size_of_model sv).
Proof.
  intros Hval. induction n as [|n IH]; intros w loss time val_acc.
  - exists w, loss, []. rewrite !app_nil_r. repeat split.
  - destruct (IH w loss time val_acc) as (w1 & l1 & nt & Ht & He & Hl).
    cbn [Nat.iter nat_rect]. unfold Nat.iter in Ht, He. rewrite Ht, He.
    destruct (time_batches_train sv
                (seq 0 (num_batches (num_train sv) (batch_size_of_model sv)))
                w1 l1 (time ++ nt)) as (w2 & l2 & nt2 & Ht2 & Hb2 & Hl2).
    rewrite Ht2. unfold train_epoch. rewrite Hb2, Hval.
    cbn [seq fold_left repeat]. rewrite repeat_cons.
    exists w2, l2, (nt ++ nt2). rewrite <- !app_assoc.
    split; [reflexivity|]. split; [reflexivity|].
    rewrite length_app, Hl, Hl2, length_seq. lia.
Qed.

(** X16. With fewer validation samples than one batch, [Solver::train] and
    [Solver::getTrainTime] run over the same epochs do the same steps: they
    leave the same model state, the same [loss] vector and the same decayed
    learning rate; [train] records a count of 0 for every epoch, and
    [getTrainTime] records one time for every loss value. *)
Theorem getTrainTime_steps_as_train (sv : Solver F Data) (w : World)
    (loss time : list F) (val_acc : list Z) :
  batch_size_of_model sv <> 0%Z ->
  num_batches (num_val sv) (batch_size_of_model sv) = 0 ->
  exists sv' w' loss' new_time,
    getTrainTime World F Data fmul step sv (num_epoch sv) w loss time
      = Some (sv', w', loss', time ++ new_time) /\
    train World F Data fmul step getLoss_infer sv w loss val_acc
      = Some (sv', w', loss',
              val_acc ++ repeat 0%Z (Z.to_nat (num_epoch sv))) /\
    length new_time
      = Z.to_nat (num_epoch sv)
        * num_batches (num_train sv) (batch_size_of_model sv).
Proof.
  intros Hbs Hval. unfold getTrainTime, train.
  destruct (Z.eqb_spec (batch_size_of_model sv) 0) as [?|_]; [contradiction|].
  destruct (time_epochs_train sv (Z.to_nat (num_epoch sv)) Hval
              w loss time val_acc) as (w' & loss' & nt & Ht & He & Hl).
  rewrite Ht, He. exists (decayed F Data fmul sv), w', loss', nt.
  repeat split. exact Hl.
Qed.

End SolverFacts.

Lemma fold_left_ext_in {A B : Type} (f g : A -> B -> A) (l : list B) :
  (forall a b, f a b = g a b) ->
  forall a, fold_left f l a = fold_left g l a.
Proof.
  intros Hfg. induction l as [|b l IH]; intros a; simpl; [reflexivity|].
  rewrite Hfg. apply IH.
Qed.

Lemma nat_iter_ext {A : Type} (f g : A -> A) (n : nat) (a : A) :
  (forall x, f x = g x) -> Nat.iter n f a = Nat.iter n g a.
Proof.
  intros Hfg. induction n as [|n IH]; simpl; [reflexivity|].
  rewrite IH. apply Hfg.
Qed.

(** X14. Every step of one call of [Solver::train] runs at the learning
    rate the solver had when the call began: two step functions that agree
    at that rate give the same training run, whatever they do at other
    rates, the decayed one included. *)
Theorem train_steps_at_initial_learning_rate (World F Data : Type)
    (fmul : F -> F -> F)
    (step1 step2 : F -> Z -> Z -> World -> (F * F) * World)
    (getLoss_infer : Data -> Z -> Z -> World -> Z * World)
    (sv : Solver F Data) (w : World) (loss : list F) (val_acc : list Z) :
  (forall a b w', step1 (learning_rate sv) a b w'
                  = step2 (learning_rate sv) a b w') ->
  train World F Data fmul step1 getLoss_infer sv w loss val_acc
    = train World F Data fmul step2 getLoss_infer sv w loss val_acc.
Proof.
  intros Hagree. unfold train.
  destruct (batch_size_of_model sv =? 0)%Z; [reflexivity|].
  rewrite (nat_iter_ext
             (train_epoch World F Data step1 getLoss_infer sv)
             (train_epoch World F Data step2 getLoss_infer sv));
    [reflexivity|].
  intros [[w0 l0] a0]. unfold train_epoch.
  rewrite (fold_left_ext_in (train_batch World F Data step1 sv)
             (train_batch World F Data step2 sv)); [reflexivity|].
  intros [w1 l1] j. unfold train_batch. rewrite Hagree. reflexivity.
Qed.

Lemma train_pushes_per_batch_and_epoch_witness :
  exists w' new_loss new_acc,
    train Z Z unit Z.mul example_step example_infer example_solver 0%Z [] []
      = Some (decayed Z unit Z.mul example_solver, w',
              [] ++ new_loss, [] ++ new_acc) /\
    length new_loss = 2 * 2 /\
    length new_acc = 2 /\
    learning_rate (decayed Z unit Z.mul example_solver) = 16%Z.
Proof.
  apply (train_pushes_per_batch_and_epoch Z Z unit Z.mul example_step
           example_infer example_solver 0%Z [] []).
  discriminate.
Defined.

Lemma train_steps_at_initial_learning_rate_witness :
  train Z Z unit Z.mul example_step example_infer example_solver 0%Z [] []
  = train Z Z unit Z.mul
      (fun lr a b w => if (lr =? 8)%Z then example_step lr a b w
                       else ((0, 0), 0)%Z)
      example_infer example_solver 0%Z [] [].
Proof.
  apply (train_steps_at_initial_learning_rate Z Z unit Z.mul example_step
           (fun lr a b w => if (lr =? 8)%Z then example_step lr a b w
                            else ((0, 0), 0)%Z)).
  intros a b w'. reflexivity.
Defined.

Lemma checkAccuracy_counts_whole_batches_witness :
  (exists num_correct w',
     checkAccuracy Z Z unit example_infer example_solver tt 10 0%Z
       = Some (num_correct, w') /\
     (0 <= num_correct <= 10)%Z) /\
  checkAccuracy Z Z unit example_infer example_solver tt (4 * (10 ÷ 4)) 0%Z
    = checkAccuracy Z Z unit example_infer example_solver tt 10 0%Z.
Proof.
  apply (checkAccuracy_counts_whole_batches Z Z unit example_infer
           example_solver tt 10 0%Z).
  - reflexivity.
  - discriminate.
  - intros a b w'. simpl. lia.
Defined.

Lemma getTrainTime_steps_as_train_witness :
  exists sv' w' loss' new_time,
    getTrainTime Z Z unit Z.mul example_step example_timing_solver 2 0%Z [] []
      = Some (sv', w', loss', [] ++ new_time) /\
    train Z Z unit Z.mul example_step example_infer example_timing_solver
        0%Z [] []
      = Some (sv', w', loss', [] ++ repeat 0%Z 2) /\
    length new_time = 2 * 2.
Proof.
  apply (getTrainTime_steps_as_train Z Z unit Z.mul example_step
           example_infer example_timing_solver 0%Z [] [] []).
  - discriminate.
  - reflexivity.
Defined.

(** * Offload traffic of a step *)

Lemma hoare_get_bind {B} P (k : Machine -> Exec B) Q R :
  (forall m0, hoare (fun m => m = m0 /\ P m) (k m0) Q R) ->
  hoare P (bind get k) Q R.
Proof. intros H m Hm. apply (H m m (conj eq_refl Hm)). Qed.

Lemma findPrefetchLayer_some layer_type to_offload prefetched k pf j :
  findPrefetchLayer layer_type to_offload prefetched k = (pf, Some j) ->
  j < k /\ to_offload !!! j = true /\ prefetched !!! j = false /\
  pf = <[j := true]> prefetched.
Proof.
  induction k as [|i IH]; simpl; [discriminate|].
  destruct ((to_offload !!! i) && negb (prefetched !!! i)) eqn:Hc.
  - intros [= <- <-]. apply andb_prop in Hc as [Ho Hp].
    apply negb_true_iff in Hp. repeat split; [lia|exact Ho|exact Hp].
  - destruct (bool_decide (layer_type !! i = Some CONV)); [discriminate|].
    intros H. destruct (IH H) as (? & ? & ? & ?). repeat split; auto.
Qed.

Lemma findPrefetchLayer_none layer_type to_offload prefetched k pf :
  findPrefetchLayer layer_type to_offload prefetched k = (pf, None) ->
  pf = prefetched.
Proof.
  induction k as [|i IH]; simpl; [intros [= <-]; reflexivity|].
  destruct ((to_offload !!! i) && negb (prefetched !!! i)); [discriminate|].
  destruct (bool_decide (layer_type !! i = Some CONV));
    [intros [= <-]; reflexivity|exact IH].
Qed.

Section OffloadQuiet.
Variable net : NeuralNet.
Variable to_offload : list bool.
Variable L : nat.
Variable pending : list nat.

Local Abbreviation K := (prefetch_inv net to_offload L pending).

Lemma quiet_emit ev :
  offload_event_ok to_offload ev = true -> is_prefetch ev = false ->
  preserves K (emit ev).
Proof.
  intros Hok Hnp m (Hlog & Hlen & Hpf). simpl.
  split; [|split]; simpl.
  - constructor; assumption.
  - exact Hlen.
  - destruct ev; try discriminate; exact Hpf.
Qed.

Lemma quiet_frame {A} (e : Exec A) :
  (forall m, m_log (snd (e m)) = m_log m /\
             m_prefetched (snd (e m)) = m_prefetched m) ->
  preserves K e.
Proof.
  intros He m Hm. destruct (He m) as [Hl Hp].
  destruct (e m) as [[a|h] m']; simpl in Hl, Hp; unfold prefetch_inv;
    rewrite Hl, Hp; exact Hm.
Qed.

Lemma quiet_store b v : preserves K (store b v).
Proof. apply quiet_frame. intros m. destruct b; split; reflexivity. Qed.

Ltac quiet_auto :=
  preserves_struct;
  first [ apply quiet_store
        | apply quiet_emit; reflexivity
        | apply quiet_frame; intros; split; reflexivity
        | idtac ].

Lemma quiet_lockedcnmemMalloc b size : preserves K (lockedcnmemMalloc b size).
Proof.
  unfold lockedcnmemMalloc. apply preserves_bind; [apply preserves_get|].
  intros m. destruct (cnmemMalloc size (m_pool m)) as [[[] [q|]] pool'];
    quiet_auto.
Qed.

Lemma quiet_checked_malloc b size : preserves K (checked_malloc b size).
Proof.
  unfold checked_malloc. apply preserves_bind; [apply preserves_get|].
  intros m. destruct (cnmemMalloc size (m_pool m)) as [[[] [q|]] pool'];
    quiet_auto.
Qed.

Lemma quiet_checked_free q : preserves K (checked_free q).
Proof.
  unfold checked_free. apply preserves_bind; [apply preserves_get|].
  intros m. destruct (cnmemFree q (m_pool m)) as [[[] size] pool'];
    quiet_auto.
Qed.

Lemma quiet_updateSpace op size : preserves K (updateSpace op size).
Proof. quiet_auto. Qed.

Lemma quiet_sem_wait_offload i :
  to_offload !!! i = true -> preserves K (sem_wait_offload i).
Proof.
  intros Hi. unfold sem_wait_offload.
  apply preserves_bind; [apply preserves_get|].
  intros m. destruct (m_sem_sync_offload m !!! i); quiet_auto.
  apply quiet_emit; [exact Hi|reflexivity].
Qed.

Lemma quiet_sem_wait_prefetch i :
  to_offload !!! i = true -> preserves K (sem_wait_prefetch i).
Proof.
  intros Hi. unfold sem_wait_prefetch.
  apply preserves_bind; [apply preserves_get|].
  intros m. destruct (m_sem_prefetch_done m !!! i); quiet_auto.
  apply quiet_emit; [exact Hi|reflexivity].
Qed.

Lemma quiet_threadFreeLayerInputFunction i :
  to_offload !!! i = true -> preserves K (threadFreeLayerInputFunction i).
Proof.
  intros Hi. unfold threadFreeLayerInputFunction, lockedcnmemFree.
  quiet_auto; [apply quiet_emit; [exact Hi|reflexivity]|].
  apply quiet_checked_free.
Qed.

Lemma quiet_cnmemAllocDerivatives i w b :
  preserves K (cnmemAllocDerivatives i w b).
Proof. unfold cnmemAllocDerivatives. quiet_auto; apply quiet_checked_malloc. Qed.

Lemma quiet_cnmemFreeDerivatives i : preserves K (cnmemFreeDerivatives i).
Proof. unfold cnmemFreeDerivatives. quiet_auto; apply quiet_checked_free. Qed.

Lemma quiet_release_layer i : preserves K (release_layer net i).
Proof. unfold release_layer. quiet_auto; apply quiet_checked_free. Qed.

Lemma quiet_emit_backward i : preserves K (emit_backward i).
Proof. unfold emit_backward. quiet_auto. Qed.

Lemma quiet_forward_compute i : preserves K (forward_compute net i).
Proof.
  unfold forward_compute. destruct (params net !! i) as [[]|]; quiet_auto.
  apply quiet_lockedcnmemMalloc.
Qed.

Lemma quiet_forward_layer train i :
  preserves K (forward_layer net to_offload train i).
Proof.
  unfold forward_layer, lockedcnmemFree.
  apply preserves_bind.
  { apply preserves_when_cond. intros Hc.
    apply andb_prop in Hc as [Hc _]. apply quiet_emit; [exact Hc|reflexivity]. }
  intros _. apply preserves_bind; [apply quiet_lockedcnmemMalloc|intros _].
  apply preserves_bind; [apply quiet_updateSpace|intros _].
  apply preserves_bind; [apply quiet_forward_compute|intros ws].
  apply preserves_bind; [quiet_auto|intros _].
  apply preserves_bind.
  { apply preserves_when_cond. intros Hc. apply andb_prop in Hc as [_ Hc].
    apply quiet_threadFreeLayerInputFunction. exact Hc. }
  intros _. quiet_auto; apply quiet_checked_free.
Qed.

Lemma quiet_forward_loop train fuel i :
  preserves K (forward_loop net to_offload train fuel i).
Proof.
  revert i. induction fuel as [|fuel IH]; intros i; simpl.
  - apply preserves_ret.
  - destruct (negb (i <? num_layers net)); [apply preserves_ret|].
    destruct (negb train && (i =? num_layers net - 1));
      [apply preserves_ret|].
    apply preserves_bind; [apply quiet_forward_layer|intros i'; apply IH].
Qed.

Lemma quiet_wait_offloads n i : preserves K (wait_offloads to_offload n i).
Proof.
  revert i. induction n as [|n IH]; intros i; simpl; [apply preserves_ret|].
  apply preserves_bind; [|intros _; apply IH].
  apply preserves_when_cond. apply quiet_sem_wait_offload.
Qed.

End OffloadQuiet.

Section OffloadStep.
Variable net : NeuralNet.
Variable to_offload : list bool.
Variable L : nat.

Local Abbreviation J := (prefetch_inv net to_offload L []).

Lemma prefetch_inv_drop_pending j m :
  prefetch_inv net to_offload L [j] m -> J m.
Proof.
  intros (Hlog & Hlen & Hpf). split; [exact Hlog|split; [exact Hlen|]].
  intros HL. destruct (Hpf HL) as [Hnd Hmark]. simpl in *.
  apply NoDup_cons in Hnd as [_ Hnd]. split; [exact Hnd|].
  intros j' Hj'. apply Hmark. apply list_elem_of_further. exact Hj'.
Qed.

Lemma prefetch_inv_mark j m :
  j < num_layers net ->
  m_prefetched m !!! j = false ->
  J m ->
  prefetch_inv net to_offload L [j]
    (snd (set_prefetched (<[j := true]> (m_prefetched m)) m)).
Proof.
  intros Hj Hfalse (Hlog & Hlen & Hpf). simpl.
  split; [exact Hlog|split; [simpl; rewrite length_insert; exact Hlen|]].
  simpl. intros HL. destruct (Hpf HL) as [Hnd Hmark]. simpl in *. split.
  - apply NoDup_cons. split; [|exact Hnd].
    intros Hin. apply Hmark in Hin. congruence.
  - intros j' Hj'. apply elem_of_cons in Hj' as [->|Hj'].
    + apply list_lookup_total_insert_eq. lia.
    + destruct (decide (j = j')) as [->|Hne].
      * apply list_lookup_total_insert_eq. lia.
      * rewrite list_lookup_total_insert_ne by exact Hne.
        apply Hmark. exact Hj'.
Qed.

Lemma prefetch_inv_issue j :
  to_offload !!! j = true ->
  hoare (prefetch_inv net to_offload L [j]) (issue_prefetch j)
    (fun _ => J) J.
Proof.
  intros Hflag. unfold issue_prefetch.
  eapply hoare_bind with (Q1 := fun _ => J).
  - intros m (Hlog & Hlen & Hpf). simpl.
    split; [|split; [exact Hlen|exact Hpf]].
    constructor; [exact Hflag|exact Hlog].
  - intros _. apply preserves_hoare.
    apply preserves_bind; [apply preserves_get|intros m].
    apply quiet_frame. intros m'. split; reflexivity.
Qed.

Lemma offload_backward_grad i :
  i < num_layers net -> preserves J (backward_grad net to_offload i).
Proof.
  intros Hi. unfold backward_grad.
  destruct (type_is net i ACTV || type_is net i SOFTMAX).
  { apply preserves_bind; [apply preserves_get|intros m].
    apply quiet_store. }
  apply hoare_get_bind. intros m0.
  destruct (findPrefetchLayer _ _ _ _) as [pf [j|]] eqn:Hfind.
  - apply findPrefetchLayer_some in Hfind as (Hj & Hflag & Hfalse & ->).
    eapply hoare_bind with (Q1 := fun _ => prefetch_inv net to_offload L [j]).
    { intros m [-> HJ]. apply prefetch_inv_mark; [lia|exact Hfalse|exact HJ]. }
    intros _. eapply hoare_bind with (Q1 := fun _ => J).
    + eapply hoare_bind
        with (Q1 := fun _ => prefetch_inv net to_offload L [j]).
      { eapply hoare_conseq;
          [apply (quiet_checked_malloc net to_offload L [j])|auto|auto|].
        apply prefetch_inv_drop_pending. }
      intros _. eapply hoare_bind
        with (Q1 := fun _ => prefetch_inv net to_offload L [j]).
      { eapply hoare_conseq;
          [apply (quiet_updateSpace net to_offload L [j])|auto|auto|].
        apply prefetch_inv_drop_pending. }
      intros _. apply prefetch_inv_issue. exact Hflag.
    + intros _. apply preserves_hoare.
      apply preserves_bind; [apply quiet_checked_malloc|intros _].
      apply quiet_updateSpace.
  - apply findPrefetchLayer_none in Hfind as ->.
    eapply hoare_bind with (Q1 := fun _ => J).
    { intros m [-> HJ]. exact HJ. }
    intros _. apply preserves_hoare.
    apply preserves_bind; [apply preserves_ret|intros _].
    apply preserves_bind; [apply quiet_checked_malloc|intros _].
    apply quiet_updateSpace.
Qed.
Lemma offload_backward_layer train i :
  i < num_layers net -> preserves J (backward_layer net to_offload train i).
Proof.
  intros Hi. unfold backward_layer.
  apply preserves_bind.
  { apply preserves_when_cond. apply quiet_sem_wait_prefetch. }
  intros _. apply preserves_bind.
  { apply preserves_when. apply offload_backward_grad. exact Hi. }
  intros _.
  destruct (params net !! i) as [[]|]; preserves_struct;
    first [ apply quiet_emit_backward | apply quiet_release_layer
          | apply quiet_cnmemAllocDerivatives
          | apply quiet_cnmemFreeDerivatives
          | apply quiet_checked_malloc | apply quiet_checked_free
          | apply quiet_updateSpace ].
Qed.

Lemma offload_backward_loop train k :
  k <= num_layers net -> preserves J (backward_loop net to_offload train k).
Proof.
  induction k as [|k IH]; intros Hk; simpl; [apply preserves_ret|].
  apply preserves_bind; [apply offload_backward_layer; lia|].
  intros _. apply IH. lia.
Qed.

Lemma offload_getLoss train :
  hoare (fun m => m_log m = [] /\ length (m_prefetched m) = L)
    (getLoss net to_offload train) (fun _ => J) J.
Proof.
  unfold getLoss. apply hoare_get_bind. intros m0.
  eapply hoare_bind with (Q1 := fun _ => J).
  { intros m [-> [Hlog Hlen]]. simpl. split; [|split]; simpl.
    - rewrite Hlog. constructor.
    - unfold resetPrefetched. rewrite mark_loop_length. exact Hlen.
    - intros _. rewrite Hlog. simpl. split; [constructor|].
      intros j Hj. apply elem_of_nil in Hj. contradiction. }
  intros _. apply preserves_hoare.
  apply preserves_bind; [apply quiet_checked_malloc|intros _].
  apply preserves_bind; [apply quiet_updateSpace|intros _].
  apply preserves_bind; [apply quiet_forward_loop|intros _].
  destruct (negb train).
  - apply preserves_bind; [apply preserves_get|intros m].
    apply preserves_bind; [apply quiet_emit; reflexivity|intros _].
    apply preserves_bind; [apply quiet_checked_free|intros _].
    apply quiet_updateSpace.
  - apply preserves_bind; [apply quiet_wait_offloads|intros _].
    apply preserves_bind; [apply quiet_emit; reflexivity|intros _].
    apply preserves_bind; [apply quiet_checked_malloc|intros _].
    apply preserves_bind; [apply quiet_updateSpace|intros _].
    apply offload_backward_loop. lia.
Qed.
End OffloadStep.

(** X17. In one call of [getLoss], offload copies, free workers, semaphore
    waits and prefetches are issued only for layers whose [to_offload] flag
    is set, and layer 0 is never copied to the host, whether the call
    trains or not and however it ends. *)
Theorem getLoss_offload_traffic_only_for_flagged (net : NeuralNet)
    (to_offload : list bool) (train : bool) (m : Machine) :
  m_log m = [] ->
  Forall (fun ev => offload_event_ok to_offload ev = true)
    (m_log (snd (getLoss net to_offload train m))).
Proof.
  intros Hlog.
  pose proof (offload_getLoss net to_offload (length (m_prefetched m)) train
                m (conj Hlog eq_refl)) as H.
  destruct (getLoss net to_offload train m) as [[a|h] m']; apply H.
Qed.

Lemma getLoss_offload_traffic_only_for_flagged_witness :
  Forall (fun ev => offload_event_ok conv_fc_softmax_flags ev = true)
    (m_log (snd (getLoss conv_fc_softmax conv_fc_softmax_flags true
                   (initial_machine conv_fc_softmax 112)))).
Proof.
  apply (getLoss_offload_traffic_only_for_flagged conv_fc_softmax
           conv_fc_softmax_flags true (initial_machine conv_fc_softmax 112)).
  reflexivity.
Defined.

(** X18. In one call of [getLoss] whose [prefetched] array covers the
    layers, no layer is prefetched twice, and every layer that was
    prefetched is marked in the array when the call ends, however it
    ends. *)
Theorem getLoss_prefetches_each_layer_once (net : NeuralNet)
    (to_offload : list bool) (train : bool) (m : Machine) :
  m_log m = [] ->
  num_layers net <= length (m_prefetched m) ->
  let m' := snd (getLoss net to_offload train m) in
  NoDup (prefetches (m_log m')) /\
  forall j, j ∈ prefetches (m_log m') -> m_prefetched m' !!! j = true.
Proof.
  intros Hlog Hlen.
  pose proof (offload_getLoss net to_offload (length (m_prefetched m)) train
                m (conj Hlog eq_refl)) as H.
  destruct (getLoss net to_offload train m) as [[a|h] m'];
    destruct H as (_ & _ & H); exact (H Hlen).
Qed.

Lemma getLoss_prefetches_each_layer_once_witness :
  let m' := snd (getLoss conv_fc_softmax conv_fc_softmax_flags true
                   (initial_machine conv_fc_softmax 112)) in
  NoDup (prefetches (m_log m')) /\
  forall j, j ∈ prefetches (m_log m') -> m_prefetched m' !!! j = true.
Proof.
  apply (getLoss_prefetches_each_layer_once conv_fc_softmax
           conv_fc_softmax_flags true (initial_machine conv_fc_softmax 112)).
  - reflexivity.
  - vm_compute. lia.
Defined.

(** * Pairing of offloads and prefetches *)

Section PairingPlain.
Variable net : NeuralNet.
Variable to_offload : list bool.
Variables bound waited backed : nat.
Variables pending_workers pending_prefetches : list nat.

Local Abbreviation PI :=
  (pairing_inv net to_offload bound waited backed
     pending_workers pending_prefetches).

Lemma plain_emit ev : plain_event ev = true -> preserves PI (emit ev).
Proof.
  intros Hev m Hm. unfold pairing_inv in *. cbn.
  destruct ev; try discriminate; cbn; tauto.
Qed.

Lemma plain_frame {A} (e : Exec A) :
  (forall m, m_log (snd (e m)) = m_log m /\
             m_sem_sync_offload (snd (e m)) = m_sem_sync_offload m /\
             m_sem_prefetch_done (snd (e m)) = m_sem_prefetch_done m) ->
  preserves PI e.
Proof.
  intros He m Hm. destruct (He m) as (Hl & Ho & Hp).
  destruct (e m) as [[a|h] m']; simpl in Hl, Ho, Hp; unfold pairing_inv;
    rewrite Hl, Ho, Hp; exact Hm.
Qed.

Lemma plain_store b v : preserves PI (store b v).
Proof. apply plain_frame. intros m. destruct b; repeat split. Qed.

Ltac plain_auto :=
  preserves_struct;
  first [ apply plain_store
        | apply plain_emit; reflexivity
        | solve [apply plain_frame; intros; repeat split; reflexivity]
        | idtac ].

Lemma plain_lockedcnmemMalloc b size : preserves PI (lockedcnmemMalloc b size).
Proof.
  unfold lockedcnmemMalloc. apply preserves_bind; [apply preserves_get|].
  intros m. destruct (cnmemMalloc size (m_pool m)) as [[[] [q|]] pool'];
    plain_auto.
Qed.

Lemma plain_checked_malloc b size : preserves PI (checked_malloc b size).
Proof.
  unfold checked_malloc. apply preserves_bind; [apply preserves_get|].
  intros m. destruct (cnmemMalloc size (m_pool m)) as [[[] [q|]] pool'];
    plain_auto.
Qed.

Lemma plain_checked_free q : preserves PI (checked_free q).
Proof.
  unfold checked_free. apply preserves_bind; [apply preserves_get|].
  intros m. destruct (cnmemFree q (m_pool m)) as [[[] size] pool'];
    plain_auto.
Qed.

Lemma plain_updateSpace op size : preserves PI (updateSpace op size).
Proof. plain_auto. Qed.

Lemma plain_set_prefetched pf : preserves PI (set_prefetched pf).
Proof. plain_auto. Qed.

Lemma plain_cnmemAllocDerivatives i w b :
  preserves PI (cnmemAllocDerivatives i w b).
Proof. unfold cnmemAllocDerivatives. plain_auto; apply plain_checked_malloc. Qed.

Lemma plain_cnmemFreeDerivatives i : preserves PI (cnmemFreeDerivatives i).
Proof. unfold cnmemFreeDerivatives. plain_auto; apply plain_checked_free. Qed.

Lemma plain_release_layer i : preserves PI (release_layer net i).
Proof. unfold release_layer. plain_auto; apply plain_checked_free. Qed.

Lemma plain_emit_backward i : preserves PI (emit_backward i).
Proof. unfold emit_backward. plain_auto. Qed.

Lemma plain_forward_compute i : preserves PI (forward_compute net i).
Proof.
  unfold forward_compute. destruct (params net !! i) as [[]|]; plain_auto.
  apply plain_lockedcnmemMalloc.
Qed.

End PairingPlain.

Lemma lookup_total_nonzero_lt (l : list nat) i : l !!! i <> 0 -> i < length l.
Proof.
  intros Hne. destruct (decide (i < length l)) as [Hlt|Hge]; [exact Hlt|].
  exfalso. apply Hne. rewrite list_lookup_total_alt.
  rewrite (proj2 (lookup_ge_None l i)) by lia. reflexivity.
Qed.

Lemma sem_post_lookup_le i sems i' :
  sem_post i sems !!! i' <= sems !!! i' + (if i =? i' then 1 else 0).
Proof.
  unfold sem_post. destruct (Nat.eqb_spec i i') as [<-|Hne].
  - destruct (decide (i < length sems)) as [Hlt|Hge].
    + rewrite list_lookup_total_insert_eq by exact Hlt. lia.
    + rewrite list_insert_ge by lia. lia.
  - rewrite list_lookup_total_insert_ne by exact Hne. lia.
Qed.

Lemma occurrences_workers_elem i log :
  1 <= occurrences i (workers log) -> EvFreeWorker i ∈ log.
Proof.
  induction log as [|ev log IH]; cbn; [lia|].
  intros H. destruct ev; cbn in H;
    try (apply list_elem_of_further; apply IH; exact H).
  destruct (Nat.eqb_spec i0 i) as [->|Hne].
  - apply list_elem_of_here.
  - apply list_elem_of_further. apply IH. exact H.
Qed.

Lemma occurrences_prefetches_elem i log :
  1 <= occurrences i (prefetches log) -> EvPrefetch i ∈ log.
Proof.
  induction log as [|ev log IH]; cbn; [lia|].
  intros H. destruct ev; cbn in H;
    try (apply list_elem_of_further; apply IH; exact H).
  destruct (Nat.eqb_spec j i) as [->|Hne].
  - apply list_elem_of_here.
  - apply list_elem_of_further. apply IH. exact H.
Qed.

Section PairingStep.
Variable net : NeuralNet.
Variable to_offload : list bool.

Local Abbreviation PI := (pairing_inv net to_offload).
Local Abbreviation anything := (fun _ : Machine => True).

Ltac unfold_lists :=
  unfold workers, offload_waits, prefetches, prefetch_waits in *.

Lemma pairing_worker bound waited backed i :
  bound <= i ->
  hoare (PI bound waited backed [] [])
    (threadFreeLayerInputFunction i)
    (fun _ => PI (S i) waited backed [] []) anything.
Proof.
  intros Hb. unfold threadFreeLayerInputFunction, lockedcnmemFree.
  eapply hoare_bind with (Q1 := fun _ => PI (S i) waited backed [i] []).
  { intros m (H1 & H2 & H3 & H4 & H5 & H6). unfold pairing_inv. unfold_lists. cbn.
    repeat split; try assumption.
    - intros i'. specialize (H1 i'). lia.
    - intros i'. specialize (H3 i').
      destruct (Nat.eqb_spec i i');
        destruct (Nat.ltb_spec i' bound); destruct (Nat.leb_spec i' i);
        lia. }
  intros _. apply hoare_get_bind. intros m0.
  eapply hoare_bind with (Q1 := fun _ => PI (S i) waited backed [i] []).
  { eapply hoare_conseq;
      [apply (plain_checked_free net to_offload (S i) waited backed [i] [])
      |intros m [_ H]; exact H|auto|auto]. }
  intros _. apply hoare_get_bind. intros m1.
  intros m [-> (H1 & H2 & H3 & H4 & H5 & H6)]. unfold pairing_inv. unfold_lists. cbn.
  repeat split; try assumption.
  intros i'. specialize (H1 i'). cbn in H1.
  pose proof (sem_post_lookup_le i (m_sem_sync_offload m1) i'). lia.
Qed.

Lemma pairing_wait_offload bound backed i :
  hoare (PI bound i backed [] [])
    (when (to_offload !!! i) (sem_wait_offload i))
    (fun _ => PI bound (S i) backed [] []) anything.
Proof.
  apply hoare_when.
  - intros Hflag m (H1 & H2 & H3 & H4 & H5 & H6).
    unfold sem_wait_offload, bind, get.
    destruct (m_sem_sync_offload m !!! i) as [|n] eqn:Hsem; cbn; [exact I|].
    assert (i < length (m_sem_sync_offload m)) as Hlt
      by (apply lookup_total_nonzero_lt; lia).
    unfold pairing_inv. unfold_lists. cbn. repeat split; try assumption.
    + intros i'. specialize (H1 i').
      destruct (Nat.eqb_spec i i') as [<-|Hne].
      * rewrite list_lookup_total_insert_eq by exact Hlt. lia.
      * rewrite list_lookup_total_insert_ne by exact Hne. lia.
    + intros i' Hi' Hf. destruct (Nat.eqb_spec i i') as [<-|Hne]; [lia|].
      assert (i' < i) as Hlt' by lia. specialize (H4 i' Hlt' Hf). lia.
    + apply occurrences_workers_elem. unfold workers. specialize (H1 i). lia.
  - intros Hflag m (H1 & H2 & H3 & H4 & H5 & H6).
    repeat split; try assumption.
    intros i' Hi' Hf. destruct (decide (i' = i)) as [->|Hne]; [congruence|].
    apply H4; [lia|exact Hf].
Qed.

Lemma pairing_wait_prefetch bound waited i :
  hoare (PI bound waited (S i) [] [])
    (when (to_offload !!! i) (sem_wait_prefetch i))
    (fun _ => PI bound waited i [] []) anything.
Proof.
  apply hoare_when.
  - intros Hflag m (H1 & H2 & H3 & H4 & H5 & H6).
    unfold sem_wait_prefetch, bind, get.
    destruct (m_sem_prefetch_done m !!! i) as [|n] eqn:Hsem; cbn; [exact I|].
    assert (i < length (m_sem_prefetch_done m)) as Hlt
      by (apply lookup_total_nonzero_lt; lia).
    unfold pairing_inv. unfold_lists. cbn. repeat split; try assumption.
    + intros i'. specialize (H2 i').
      destruct (Nat.eqb_spec i i') as [<-|Hne].
      * rewrite list_lookup_total_insert_eq by exact Hlt. lia.
      * rewrite list_lookup_total_insert_ne by exact Hne. lia.
    + intros i' Hi' Hn Hf. destruct (Nat.eqb_spec i i') as [<-|Hne]; [lia|].
      assert (S i <= i') as Hge by lia. specialize (H5 i' Hge Hn Hf). lia.
    + apply occurrences_prefetches_elem. unfold prefetches.
      specialize (H2 i). lia.
  - intros Hflag m (H1 & H2 & H3 & H4 & H5 & H6).
    repeat split; try assumption.
    intros i' Hi' Hn Hf. destruct (decide (i' = i)) as [->|Hne]; [congruence|].
    apply H5; [lia|exact Hn|exact Hf].
Qed.

Lemma pairing_issue_prefetch bound waited backed j :
  hoare (PI bound waited backed [] []) (issue_prefetch j)
    (fun _ => PI bound waited backed [] []) anything.
Proof.
  unfold issue_prefetch.
  eapply hoare_bind with (Q1 := fun _ => PI bound waited backed [] [j]).
  { intros m (H1 & H2 & H3 & H4 & H5 & H6). unfold pairing_inv. unfold_lists. cbn.
    repeat split; try assumption.
    intros i'. specialize (H2 i'). lia. }
  intros _. apply hoare_get_bind. intros m1.
  intros m [-> (H1 & H2 & H3 & H4 & H5 & H6)]. unfold pairing_inv. unfold_lists. cbn.
  repeat split; try assumption.
  intros i'. specialize (H2 i'). cbn in H2.
  pose proof (sem_post_lookup_le j (m_sem_prefetch_done m1) i'). lia.
Qed.

Lemma pairing_bound_mono bound bound' waited backed pw pp m :
  bound <= bound' ->
  PI bound waited backed pw pp m -> PI bound' waited backed pw pp m.
Proof.
  intros Hb (H1 & H2 & H3 & H4 & H5 & H6). repeat split; try assumption.
  intros i. specialize (H3 i).
  destruct (Nat.ltb_spec i bound); destruct (Nat.ltb_spec i bound'); lia.
Qed.

Ltac plain_solve :=
  preserves_struct;
  first [ apply plain_store | apply plain_emit; reflexivity
        | apply plain_lockedcnmemMalloc | apply plain_checked_malloc
        | apply plain_checked_free | apply plain_updateSpace
        | apply plain_set_prefetched | apply plain_forward_compute
        | apply plain_release_layer | apply plain_emit_backward
        | apply plain_cnmemAllocDerivatives
        | apply plain_cnmemFreeDerivatives ].

Ltac plain_step :=
  apply hoare_bind_inv; [apply preserves_weaken; plain_solve|intros ?].

Lemma pairing_forward_layer train waited backed i :
  hoare (PI i waited backed [] [])
    (forward_layer net to_offload train i)
    (fun i' m => PI (S i) waited backed [] [] m /\ i <= i' <= S i) anything.
Proof.
  unfold forward_layer, lockedcnmemFree.
  do 5 plain_step.
  eapply hoare_bind with (Q1 := fun _ => PI (S i) waited backed [] []).
  { apply hoare_when.
    - intros _. apply pairing_worker. lia.
    - intros _ m Hm. apply (pairing_bound_mono i); [lia|exact Hm]. }
  intros _. do 2 plain_step.
  apply hoare_ret. intros m Hm. split; [exact Hm|].
  destruct (type_is net (S i) ACTV || type_is net (S i) SOFTMAX); lia.
Qed.

Lemma pairing_forward_loop train waited backed fuel : forall i,
  i <= S (num_layers net) ->
  hoare (PI i waited backed [] [])
    (forward_loop net to_offload train fuel i)
    (fun _ => PI (S (num_layers net)) waited backed [] []) anything.
Proof.
  induction fuel as [|fuel IH]; intros i Hi; simpl.
  - apply hoare_ret. intros m. apply pairing_bound_mono. exact Hi.
  - destruct (Nat.ltb_spec i (num_layers net)) as [Hlt|Hge]; simpl.
    2:{ apply hoare_ret. intros m. apply pairing_bound_mono. exact Hi. }
    destruct (negb train && (i =? num_layers net - 1)).
    { apply hoare_ret. intros m. apply pairing_bound_mono. exact Hi. }
    eapply hoare_bind; [apply pairing_forward_layer|].
    intros i'. simpl.
    intros m [Hm Hi']. apply (IH (S i')); [lia|].
    apply (pairing_bound_mono (S i)); [lia|exact Hm].
Qed.

Lemma pairing_wait_offloads bound backed n : forall i,
  hoare (PI bound i backed [] []) (wait_offloads to_offload n i)
    (fun _ => PI bound (i + n) backed [] []) anything.
Proof.
  induction n as [|n IH]; intros i; simpl.
  - apply hoare_ret. intros m. rewrite Nat.add_0_r. auto.
  - eapply hoare_bind; [apply pairing_wait_offload|].
    intros ?. replace (i + S n) with (S i + n) by lia. apply IH.
Qed.

Lemma pairing_backward_grad bound waited backed i :
  hoare (PI bound waited backed [] []) (backward_grad net to_offload i)
    (fun _ => PI bound waited backed [] []) anything.
Proof.
  unfold backward_grad.
  destruct (type_is net i ACTV || type_is net i SOFTMAX).
  { apply preserves_weaken. plain_solve. }
  apply hoare_bind_inv; [apply preserves_weaken; apply preserves_get|].
  intros m0.
  destruct (findPrefetchLayer _ _ _ _) as [pf [j|]].
  - plain_step. apply hoare_bind_inv.
    + do 2 plain_step. apply pairing_issue_prefetch.
    + intros _. apply preserves_weaken. plain_solve.
  - apply preserves_weaken. plain_solve.
Qed.

Lemma pairing_backward_layer train bound waited i :
  hoare (PI bound waited (S i) [] [])
    (backward_layer net to_offload train i)
    (fun _ => PI bound waited i [] []) anything.
Proof.
  unfold backward_layer.
  eapply hoare_bind; [apply pairing_wait_prefetch|intros ?].
  apply hoare_bind_inv.
  { apply hoare_when; [intros _; apply pairing_backward_grad|auto]. }
  intros _. apply preserves_weaken.
  destruct (params net !! i) as [[]|]; plain_solve.
Qed.

Lemma pairing_backward_loop train bound waited k :
  hoare (PI bound waited k [] []) (backward_loop net to_offload train k)
    (fun _ => PI bound waited 0 [] []) anything.
Proof.
  induction k as [|k IH]; simpl.
  - apply hoare_ret. auto.
  - eapply hoare_bind; [apply pairing_backward_layer|intros ?; exact IH].
Qed.

Lemma pairing_getLoss :
  hoare (PI 0 0 (num_layers net) [] []) (getLoss net to_offload true)
    (fun _ => PI (S (num_layers net)) (num_layers net) 0 [] []) anything.
Proof.
  unfold getLoss.
  apply hoare_bind_inv; [apply preserves_weaken; apply preserves_get|].
  intros m0. do 3 plain_step.
  eapply hoare_bind; [apply pairing_forward_loop; lia|intros ?].
  simpl negb. cbv iota.
  eapply hoare_bind; [apply (pairing_wait_offloads _ _ _ 0)|intros ?].
  simpl Nat.add. do 3 plain_step.
  apply pairing_backward_loop.
Qed.
End PairingStep.

Lemma occurrences_not_elem i l : i ∉ l -> occurrences i l = 0.
Proof.
  induction l as [|j l IH]; simpl; [reflexivity|].
  intros Hnot. apply not_elem_of_cons in Hnot as [Hne Hnot].
  rewrite (IH Hnot). destruct (Nat.eqb_spec j i); [congruence|reflexivity].
Qed.

Lemma occurrences_NoDup i l : NoDup l -> occurrences i l <= 1.
Proof.
  induction 1 as [|j l Hnot Hnd IH]; simpl; [lia|].
  destruct (Nat.eqb_spec j i) as [->|Hne]; [|lia].
  rewrite (occurrences_not_elem i l Hnot). lia.
Qed.

Lemma waits_follow_split i log :
  waits_follow log ->
  1 <= occurrences i (prefetch_waits log) ->
  exists later earlier,
    log = later ++ EvWaitPrefetch i :: earlier /\ EvPrefetch i ∈ earlier.
Proof.
  induction log as [|ev log IH]; cbn; [lia|].
  intros [Hev Hlog] Hocc.
  assert (1 <= occurrences i (prefetch_waits log) ->
          exists later earlier,
            ev :: log = later ++ EvWaitPrefetch i :: earlier /\
            EvPrefetch i ∈ earlier) as Hrest.
  { intros H. destruct (IH Hlog H) as (later & earlier & -> & Hin).
    exists (ev :: later), earlier. split; [reflexivity|exact Hin]. }
  destruct ev; cbn in Hocc; try (apply Hrest; exact Hocc).
  destruct (Nat.eqb_spec i0 i) as [->|Hne]; [|apply Hrest; exact Hocc].
  exists [], log. split; [reflexivity|exact Hev].
Qed.

Lemma replicate_zero_lookup n i : replicate n 0 !!! i = 0.
Proof.
  rewrite list_lookup_total_alt.
  destruct (replicate n 0 !! i) as [x|] eqn:Hx; [|reflexivity].
  apply lookup_replicate in Hx as [-> _]. reflexivity.
Qed.

(** X19. In a training step that runs to its end from semaphores at zero,
    every layer below [num_layers] whose [to_offload] flag is set has its
    free worker run exactly once and is prefetched exactly once, its
    backward step's wait on the prefetch semaphore comes after that
    prefetch, and both of its semaphores are back at zero. *)
Theorem getLoss_pairs_offload_with_prefetch (net : NeuralNet)
    (to_offload : list bool) (m : Machine) :
  m_log m = [] ->
  (forall i, m_sem_sync_offload m !!! i = 0 /\
             m_sem_prefetch_done m !!! i = 0) ->
  num_layers net <= length (m_prefetched m) ->
  fst (getLoss net to_offload true m) = Ok tt ->
  forall i, i < num_layers net -> to_offload !!! i = true ->
    occurrences i (workers (m_log (snd (getLoss net to_offload true m)))) = 1
    /\
    occurrences i (prefetches (m_log (snd (getLoss net to_offload true m))))
      = 1 /\
    (exists later earlier,
       m_log (snd (getLoss net to_offload true m))
         = later ++ EvWaitPrefetch i :: earlier /\
       EvPrefetch i ∈ earlier) /\
    m_sem_sync_offload (snd (getLoss net to_offload true m)) !!! i = 0 /\
    m_sem_prefetch_done (snd (getLoss net to_offload true m)) !!! i = 0.
Proof.
  intros Hlog Hsems Hlen Hok i Hi Hflag.
  assert (pairing_inv net to_offload 0 0 (num_layers net) [] [] m) as Hinit.
  { unfold pairing_inv. rewrite Hlog. cbn.
    split; [intros j; destruct (Hsems j) as [-> _]; lia|].
    split; [intros j; destruct (Hsems j) as [_ ->]; lia|].
    split; [intros j; lia|].
    split; [intros j Hj; lia|].
    split; [intros j Hj Hn; lia|exact I]. }
  pose proof (pairing_getLoss net to_offload m Hinit) as Hpair.
  pose proof (offload_getLoss net to_offload (length (m_prefetched m)) true
                m (conj Hlog eq_refl)) as Hpre.
  destruct (getLoss net to_offload true m) as [[[]|h] m']; [|discriminate].
  cbn [fst snd] in *.
  destruct Hpair as (H1 & H2 & H3 & H4 & H5 & H6).
  destruct Hpre as (_ & _ & Hnd). destruct (Hnd Hlen) as [Hnd' _].
  cbn [app] in Hnd'.
  pose proof (occurrences_NoDup i _ Hnd') as Hle.
  specialize (H1 i). specialize (H2 i). specialize (H3 i).
  specialize (H4 i Hi Hflag).
  assert (0 <= i) as H0 by lia. specialize (H5 i H0 Hi Hflag).
  destruct (Nat.ltb_spec i (S (num_layers net))); [|lia].
  split; [lia|]. split; [lia|].
  split; [apply waits_follow_split; assumption|]. lia.
Qed.

Lemma getLoss_pairs_offload_with_prefetch_witness :
  occurrences 0
    (workers (m_log (snd (getLoss conv_fc_softmax conv_fc_softmax_flags true
                            (initial_machine conv_fc_softmax 112))))) = 1 /\
  occurrences 0
    (prefetches (m_log (snd (getLoss conv_fc_softmax conv_fc_softmax_flags
                               true (initial_machine conv_fc_softmax 112)))))
    = 1 /\
  (exists later earlier,
     m_log (snd (getLoss conv_fc_softmax conv_fc_softmax_flags true
                   (initial_machine conv_fc_softmax 112)))
       = later ++ EvWaitPrefetch 0 :: earlier /\
     EvPrefetch 0 ∈ earlier) /\
  m_sem_sync_offload
    (snd (getLoss conv_fc_softmax conv_fc_softmax_flags true
            (initial_machine conv_fc_softmax 112))) !!! 0 = 0 /\
  m_sem_prefetch_done
    (snd (getLoss conv_fc_softmax conv_fc_softmax_flags true
            (initial_machine conv_fc_softmax 112))) !!! 0 = 0.
Proof.
  apply (getLoss_pairs_offload_with_prefetch conv_fc_softmax
           conv_fc_softmax_flags (initial_machine conv_fc_softmax 112)).
  - reflexivity.
  - intros i. split; apply replicate_zero_lookup.
  - vm_compute. lia.
  - vm_compute. reflexivity.
  - vm_compute. lia.
  - reflexivity.
Defined.

